(** * HydroBlox offline layer: import engine and service worker

    A shallow embedding of [DBManager] (src/js/metadata-explorer.js) and of
    the service worker's fetch handling (src/sw.js), followed by the
    worker's install and activate steps, the page's loaders of workflows and
    item data (src/js/app.js) and the navigation of the data explorer
    ([MetadataExplorer], src/js/metadata-explorer.js).

    The browser is the environment.  Whatever it decides on its own (what the
    network answers, whether IndexedDB accepts a request, what the clock
    reads) is an input of the model, gathered in a [World] record; given a
    world, every method is a function.  A promise is modelled by its
    settlement, [Resolved v] or [Rejected e]; [await] inside [try]/[catch]
    becomes a match on it. *)

From Stdlib Require Import List String Ascii ZArith Bool Lia Arith DecimalString.
Import ListNotations.
Local Open Scope string_scope.
Set Warnings "-register-all".

(* ===================================================================== *)
(** ** JavaScript values *)
(* ===================================================================== *)

(** The values the code handles are JSON documents, plus [undefined] for
    absent properties.  Numbers are modelled by integers: the code only tests
    them for truthiness, compares them as keys and prints them.  An object is
    the list of its own properties in insertion order, one pair per name. *)
Inductive value : Type :=
| VUndef
| VNull
| VBool (b : bool)
| VNum (z : Z)
| VStr (s : string)
| VArr (elems : list value)
| VObj (props : list (string * value)).

(** Thrown values: [name] is the constructor's name ("Error", "TypeError",
    "DataError", ...), [message] what [e.message] reads. *)
Record exn : Type := JsError { name : string; message : string }.

(** The settlement of a promise, or the completion of a block that may
    throw. *)
Inductive outcome (A : Type) : Type :=
| Resolved (a : A)
| Rejected (e : exn).
Arguments Resolved {A} a.
Arguments Rejected {A} e.

Definition string_of_nat (n : nat) : string :=
  NilZero.string_of_uint (Nat.to_uint n).

Definition string_of_Z (z : Z) : string :=
  NilZero.string_of_int (Z.to_int z).

(** [!!v]. *)
Definition truthy (v : value) : bool :=
  match v with
  | VUndef | VNull => false
  | VBool b => b
  | VNum z => negb (z =? 0)%Z
  | VStr s => negb (s =? "")
  | VArr _ | VObj _ => true
  end.

(** [a || b]. *)
Definition js_or (a b : value) : value := if truthy a then a else b.

(** [typeof v === 'object'] (true of [null] as well). *)
Definition typeof_object (v : value) : bool :=
  match v with
  | VNull | VArr _ | VObj _ => true
  | _ => false
  end.

(** [Array.isArray(v)]. *)
Definition isArray (v : value) : bool :=
  match v with VArr _ => true | _ => false end.

Fixpoint assoc (k : string) (ps : list (string * value)) : value :=
  match ps with
  | [] => VUndef
  | (k', v) :: ps' => if k' =? k then v else assoc k ps'
  end.

(** [v.k] for a receiver that is neither [null] nor [undefined]; none of the
    names the code reads is a property of a primitive's or an array's
    prototype, so every receiver but an object answers [undefined]. *)
Definition prop (v : value) (k : string) : value :=
  match v with
  | VObj ps => assoc k ps
  | _ => VUndef
  end.

Definition nullish (v : value) : bool :=
  match v with VUndef | VNull => true | _ => false end.

(** [v.k] for any receiver: reading a property of [null] or [undefined]
    throws. *)
Definition get_prop (v : value) (k : string) : outcome value :=
  if nullish v
  then Rejected (JsError "TypeError"
         ("Cannot read properties of " ++
          (match v with VNull => "null" | _ => "undefined" end) ++
          " (reading '" ++ k ++ "')"))
  else Resolved (prop v k).

(** Defining or overwriting the own property [k]: an existing property
    keeps its place. *)
Fixpoint obj_set (k : string) (v : value) (ps : list (string * value))
  : list (string * value) :=
  match ps with
  | [] => [(k, v)]
  | (k', v') :: ps' =>
      if k' =? k then (k, v) :: ps' else (k', v') :: obj_set k v ps'
  end.

(** [obj[k] = v] on a plain object.  Assigning to '__proto__' goes to the
    prototype setter and creates no own property. *)
Definition js_assign (k : string) (v : value) (ps : list (string * value))
  : list (string * value) :=
  if k =? "__proto__" then ps else obj_set k v ps.

Fixpoint join (sep : string) (l : list string) : string :=
  match l with
  | [] => ""
  | [s] => s
  | s :: l' => s ++ sep ++ join sep l'
  end.

(** [String(v)], as in a template literal or a computed property name. *)
Fixpoint js_to_string (v : value) : string :=
  match v with
  | VUndef => "undefined"
  | VNull => "null"
  | VBool true => "true"
  | VBool false => "false"
  | VNum z => string_of_Z z
  | VStr s => s
  | VArr l =>
      join "," (map (fun x => if nullish x then "" else js_to_string x) l)
  | VObj _ => "[object Object]"
  end.

(** Structural equality, used to compare IndexedDB keys. *)
Fixpoint value_eqb (a b : value) : bool :=
  match a, b with
  | VUndef, VUndef => true
  | VNull, VNull => true
  | VBool x, VBool y => Bool.eqb x y
  | VNum x, VNum y => (x =? y)%Z
  | VStr x, VStr y => (x =? y)
  | VArr xs, VArr ys =>
      (fix go (l1 l2 : list value) : bool :=
         match l1, l2 with
         | [], [] => true
         | x :: l1', y :: l2' => value_eqb x y && go l1' l2'
         | _, _ => false
         end) xs ys
  | VObj xs, VObj ys =>
      (fix go (l1 l2 : list (string * value)) : bool :=
         match l1, l2 with
         | [], [] => true
         | (k1, x) :: l1', (k2, y) :: l2' =>
             (k1 =? k2) && value_eqb x y && go l1' l2'
         | _, _ => false
         end) xs ys
  | _, _ => false
  end.

(* ===================================================================== *)
(** ** The network *)
(* ===================================================================== *)

(** What a response body turns out to be once [text()] and [JSON.parse] have
    run on it. *)
Inductive Body : Type :=
| TextError (e : exn)     (* response.text() rejects *)
| Blank                   (* the text is empty or only white space *)
| Malformed (e : exn)     (* JSON.parse throws *)
| Json (v : value).       (* JSON.parse returns v *)

Record Response : Type := mkResponse { status : Z; body : Body }.

(** [response.ok]: the status is in the range 200-299. *)
Definition ok (r : Response) : bool :=
  (200 <=? status r)%Z && (status r <=? 299)%Z.

(** One call of [fetch(url)]: the promise rejects (transport failure) or it
    resolves to a response, whatever its status. *)
Inductive Attempt : Type :=
| NetFail (e : exn)
| Answer (r : Response).

(** What [fetchWithRetry] did, in order. *)
Inductive FetchEvent : Type :=
| Fetched (i : nat)       (* fetch(url) on loop index i *)
| Waited (ms : nat).      (* setTimeout(resolve, ms) *)

(** The [for] loop of [fetchWithRetry]; [fuel] is [retries - i].  The result
    is [Some r] for [return response], [None] for falling off the end of the
    function (the promise resolves to [undefined]). *)
Fixpoint fetch_loop (fetch : nat -> Attempt) (retries i fuel : nat)
  : outcome (option Response) * list FetchEvent :=
  match fuel with
  | 0 => (Resolved None, [])
  | S fuel' =>
      let continue :=
        let (res, tr) := fetch_loop fetch retries (S i) fuel' in
        (res, Fetched i :: Waited (1000 * (i + 1)) :: tr) in
      match fetch i with
      | Answer response =>
          if ok response then (Resolved (Some response), [Fetched i])
          else continue
      | NetFail error =>
          if (i =? retries - 1)%nat then (Rejected error, [Fetched i])
          else continue
      end
  end.

(** [fetchWithRetry(url, retries)]; [fetch i] is what the [i]-th call of
    [fetch(url)] gives. *)
Definition fetchWithRetry (fetch : nat -> Attempt) (retries : nat)
  : outcome (option Response) * list FetchEvent :=
  fetch_loop fetch retries 0 retries.

(** An attempt fails: transport failure, or a status outside 200-299. *)
Definition attempt_fails (a : Attempt) : bool :=
  match a with
  | NetFail _ => true
  | Answer r => negb (ok r)
  end.

(** The loop indices on which [fetch] was called. *)
Fixpoint fetched (tr : list FetchEvent) : list nat :=
  match tr with
  | [] => []
  | Fetched i :: tr' => i :: fetched tr'
  | Waited _ :: tr' => fetched tr'
  end.

(* ===================================================================== *)
(** ** IndexedDB *)
(* ===================================================================== *)

Inductive StoreName : Type := Workflows | Items | AppInfo.

(** An object store: its records under their primary keys. *)
Definition Collection : Type := list (value * value).

(** [store.get(key)]: the record, or [undefined]. *)
Fixpoint coll_get (k : value) (c : Collection) : value :=
  match c with
  | [] => VUndef
  | (k', r) :: c' => if value_eqb k' k then r else coll_get k c'
  end.

(** The effect of a committed [store.put(record)] whose key is [k]. *)
Fixpoint coll_put (k r : value) (c : Collection) : Collection :=
  match c with
  | [] => [(k, r)]
  | (k', r') :: c' =>
      if value_eqb k' k then (k, r) :: c' else (k', r') :: coll_put k r c'
  end.

(** Valid keys among the values at hand: numbers, strings, and arrays of
    valid keys. *)
Fixpoint valid_key (v : value) : bool :=
  match v with
  | VNum _ | VStr _ => true
  | VArr l => forallb valid_key l
  | _ => false
  end.

(** The database 'HydroBloxExportDB' with the three stores that
    [onupgradeneeded] creates: 'workflows' (keyPath 'id'), 'items' (keyPath
    'uniqueId') and 'appInfo' (keyPath 'key'). *)
Record Database : Type := mkDatabase {
  workflows : Collection;
  items : Collection;
  appInfo : Collection }.

Definition empty_db : Database := mkDatabase [] [] [].

Definition set_workflows (c : Collection) (d : Database) : Database :=
  mkDatabase c (items d) (appInfo d).
Definition set_items (c : Collection) (d : Database) : Database :=
  mkDatabase (workflows d) c (appInfo d).
Definition set_appInfo (c : Collection) (d : Database) : Database :=
  mkDatabase (workflows d) (items d) c.

(** What the browser decides during one import run.  Within a run the
    answer to a put depends on the store and the key only, and the answer to
    a fetch on the URL and on the attempt's rank in its [fetchWithRetry]
    call.  Read requests on an open database are taken to succeed.  Output
    to the console and to the progress callback is left out, and the
    callback is taken not to throw. *)
Record World : Type := mkWorld {
  (* indexedDB.open: onsuccess with the database as stored, or onerror *)
  idb_open : outcome Database;
  (* the clearing transaction: oncomplete, or onerror with this error *)
  idb_clear_error : option exn;
  (* a put request on a store, by the key written: onsuccess or onerror *)
  idb_put_error : StoreName -> value -> option exn;
  (* fetch(url), i-th call within one fetchWithRetry *)
  net : string -> nat -> Attempt;
  (* new Date().toISOString() *)
  now : string }.

(** The fields of a [DBManager]; [db] is [null] or the open database. *)
Record DBManager : Type := mkDBManager {
  db : option Database;
  ready : bool;
  itemIndex : value }.

(** [new DBManager()]. *)
Definition new_DBManager : DBManager := mkDBManager None false VNull.

Definition set_db (d : Database) (this : DBManager) : DBManager :=
  mkDBManager (Some d) (ready this) (itemIndex this).

(** Asynchronous methods: a settlement and the manager afterwards.  A
    rejection keeps the state reached so far. *)
Definition M (A : Type) : Type := DBManager -> outcome A * DBManager.

Definition ret {A} (a : A) : M A := fun this => (Resolved a, this).
Definition throw {A} (e : exn) : M A := fun this => (Rejected e, this).
Definition lift {A} (o : outcome A) : M A := fun this => (o, this).
Definition bind {A B} (c : M A) (k : A -> M B) : M B :=
  fun this =>
    match c this with
    | (Resolved a, this') => k a this'
    | (Rejected e, this') => (Rejected e, this')
    end.
Definition try_catch {A} (c : M A) (handler : exn -> M A) : M A :=
  fun this =>
    match c this with
    | (Resolved a, this') => (Resolved a, this')
    | (Rejected e, this') => handler e this'
    end.

Notation "x <- c ;; k" := (bind c (fun x => k))
  (at level 61, c at next level, right associativity).
Notation "c ;;; k" := (bind c (fun _ => k))
  (at level 61, right associativity).

(** [new Error(msg)]. *)
Definition Error (msg : string) : exn := JsError "Error" msg.

(** [new Error('Database not initialized')]: the store is not ready. *)
Definition NotReady : exn := Error "Database not initialized".

(** Calling a method of [this.db] while it is [null]. *)
Definition null_db (method : string) : exn :=
  JsError "TypeError"
    ("Cannot read properties of null (reading '" ++ method ++ "')").

(** What [put] throws when the key path yields no valid key. *)
Definition DataError : exn :=
  JsError "DataError"
    "Evaluating the object store's key path did not yield a valid key.".

(** [initDB()]: opens the database once. *)
Definition initDB (w : World) : M bool := fun this =>
  if ready this then (Resolved true, this)
  else
    match idb_open w with
    | Resolved d => (Resolved true, mkDBManager (Some d) true (itemIndex this))
    | Rejected e => (Rejected e, this)
    end.

(** [clearDatabase()]. *)
Definition clearDatabase (w : World) : M bool := fun this =>
  if negb (ready this) then (Rejected NotReady, this)
  else
    match db this with
    | None => (Rejected (null_db "transaction"), this)
    | Some d =>
        match idb_clear_error w with
        | None => (Resolved true, set_db empty_db this)
        | Some e => (Rejected e, this)
        end
    end.

(** [getWorkflows()]. *)
Definition getWorkflows : M (list value) := fun this =>
  if negb (ready this) then (Rejected NotReady, this)
  else
    match db this with
    | None => (Rejected (null_db "transaction"), this)
    | Some d => (Resolved (map snd (workflows d)), this)
    end.

(** [getWorkflowItems(workflowId)]: the records whose 'workflowId' is the
    key asked for. *)
Definition getWorkflowItems (workflowId : value) : M (list value) := fun this =>
  if negb (ready this) then (Rejected NotReady, this)
  else
    match db this with
    | None => (Rejected (null_db "transaction"), this)
    | Some d =>
        if valid_key workflowId
        then (Resolved
                (filter (fun r => value_eqb (prop r "workflowId") workflowId)
                        (map snd (items d))), this)
        else (Rejected DataError, this)
    end.

(** [getResult(uniqueId)]. *)
Definition getResult (uniqueId : value) : M value := fun this =>
  if negb (ready this) then (Rejected NotReady, this)
  else
    match db this with
    | None => (Rejected (null_db "transaction"), this)
    | Some d =>
        if valid_key uniqueId
        then (Resolved (coll_get uniqueId (items d)), this)
        else (Rejected DataError, this)
    end.

(** [storeAppInfo(appInfo)]. *)
Definition storeAppInfo (w : World) (appInfo_arg : value) : M unit := fun this =>
  match db this with
  | None => (Rejected (null_db "transaction"), this)
  | Some d =>
      match get_prop appInfo_arg "appInfo" with
      | Rejected e => (Rejected e, this)
      | Resolved nested =>
          let info := js_or nested appInfo_arg in
          let record := VObj
            [ ("key", VStr "appInfo");
              ("version", js_or (prop info "version") (VStr "1.0.0"));
              ("exportDate", js_or (prop info "exportDate") (VStr (now w)));
              ("name", js_or (prop info "name")
                         (js_or (prop info "title")
                                (VStr "HydroBlox Application")));
              ("title", prop info "title");
              ("description", prop info "description");
              ("layout", prop info "layout");
              ("workflowCount", prop info "workflowCount") ] in
          match idb_put_error w AppInfo (VStr "appInfo") with
          | None =>
              (Resolved tt,
               set_db (set_appInfo
                         (coll_put (VStr "appInfo") record (appInfo d)) d) this)
          | Some e => (Rejected e, this)
          end
      end
  end.

(** The requests of one read-write transaction are answered in the order
    they were issued.  [first_refused] finds the first put the engine
    refuses, with its position.  An error event that no handler cancels
    aborts the transaction: nothing it wrote is kept.  When every request
    succeeds the transaction commits all of them. *)
Fixpoint first_refused (w : World) (s : StoreName) (puts : list (value * value))
    (pos : nat) : option (nat * exn) :=
  match puts with
  | [] => None
  | (k, _) :: puts' =>
      match idb_put_error w s k with
      | Some e => Some (pos, e)
      | None => first_refused w s puts' (S pos)
      end
  end.

Definition commit (puts : list (value * value)) (c : Collection) : Collection :=
  fold_left (fun c' p => coll_put (fst p) (snd p) c') puts c.

Fixpoint map_filter {A B} (f : A -> option B) (l : list A) : list B :=
  match l with
  | [] => []
  | a :: l' =>
      match f a with
      | Some b => b :: map_filter f l'
      | None => map_filter f l'
      end
  end.

(** The callback of [items.map] in [storeWorkflows]; [None] is the [null]
    that the following [filter] removes. *)
Definition sanitize_item (item : value) : option value :=
  if negb (truthy item) || negb (typeof_object item) then None
  else Some (VObj
    [ ("uniqueId", prop item "uniqueId");
      ("name", prop item "name");
      ("itemName", prop item "itemName");
      ("type", prop item "type");
      ("parameters", js_or (prop item "parameters") (VObj []));
      ("arguments", js_or (prop item "arguments") (VObj []));
      ("data", js_or (prop item "data") (VArr []));
      ("settings", js_or (prop item "settings") (VObj []));
      ("status", prop item "status");
      ("results", js_or (prop item "results") VNull) ]).

(** The record [storeWorkflows] puts for one entry. *)
Definition workflow_record (workflowId : string) (workflow : value) : value :=
  let items :=
    match prop workflow "items" with
    | VArr l => l
    | _ => []
    end in
  VObj
    [ ("id", VStr workflowId);
      ("name", js_or (prop workflow "name") (VStr ("Workflow " ++ workflowId)));
      ("items", VArr (map_filter sanitize_item items));
      ("connections", js_or (prop workflow "connections") (VArr []));
      ("created", prop workflow "created") ].

(** The puts that the loop of [storeWorkflows] issues: an entry that is not
    an object is only counted. *)
Definition workflow_puts (entries : list (string * value))
  : list (value * value) :=
  map_filter
    (fun e : string * value =>
       let (workflowId, workflow) := e in
       if negb (truthy workflow) || negb (typeof_object workflow) then None
       else Some (VStr workflowId, workflow_record workflowId workflow))
    entries.

(** [storeWorkflows(workflows)].  [Object.entries] lists the properties in
    insertion order (names that look like array indices would come first;
    the order in which one transaction issues its puts does not change what it
    stores). *)
Definition storeWorkflows (w : World) (workflows_arg : value) : M unit :=
  fun this =>
  match db this with
  | None => (Rejected (null_db "transaction"), this)
  | Some d =>
      match workflows_arg with
      | VObj workflowEntries =>
          match first_refused w Workflows (workflow_puts workflowEntries) 0 with
          | Some (_, e) => (Rejected e, this)
          | None =>
              (Resolved tt,
               set_db (set_workflows
                         (commit (workflow_puts workflowEntries) (workflows d))
                         d) this)
          end
      | _ =>
          (Rejected (Error
             "Invalid workflows structure: expected object with workflow IDs as keys"),
           this)
      end
  end.

(** The URL of an item's file: [`./data/items/${itemMeta.id}.json`]. *)
Definition item_url (id : value) : string :=
  "./data/items/" ++ js_to_string id ++ ".json".

(** The callback of [itemBatch.map] in [storeItemBatch]: the record to store,
    or [None] for the [null] of every path that counts a load failure. *)
Definition loadItem (w : World) (itemMeta : value) : option value :=
  if negb (truthy itemMeta) || negb (truthy (prop itemMeta "id")) then None
  else
    match fst (fetchWithRetry (net w (item_url (prop itemMeta "id"))) 2) with
    | Rejected _ => None
    | Resolved None => None
    | Resolved (Some itemResponse) =>
        if negb (ok itemResponse) then None
        else
          match body itemResponse with
          | TextError _ => None
          | Blank => None
          | Malformed _ => None
          | Json itemData =>
              if negb (truthy itemData) || negb (typeof_object itemData)
              then None
              else Some (VObj
                [ ("uniqueId", prop itemMeta "id");
                  ("workflowId", prop itemMeta "workflowId");
                  ("itemName", prop itemMeta "itemName");
                  ("timestamp",
                     js_or (prop itemMeta "timestamp") (VStr (now w)));
                  ("data",
                     match prop itemData "data" with
                     | VUndef => itemData
                     | d => d
                     end);
                  ("settings", js_or (prop itemData "settings") (VObj []));
                  ("name", prop itemData "name");
                  ("type", prop itemData "type") ])
          end
    end.

Record BatchResult : Type := mkBatchResult { succeeded : nat; failed : nat }.

(** The puts of [validItems.forEach]: [put] throws on the first record whose
    'uniqueId' is not a valid key, and the requests issued before it stay. *)
Fixpoint issued_puts (validItems : list value) : list (value * value) :=
  match validItems with
  | [] => []
  | item :: rest =>
      if valid_key (prop item "uniqueId")
      then (prop item "uniqueId", item) :: issued_puts rest
      else []
  end.

(** [storeItemBatch(itemBatch)]. *)
Definition storeItemBatch (w : World) (itemBatch : list value) : M BatchResult :=
  fun this =>
  let loaded := map (loadItem w) itemBatch in
  let loadFailedCount :=
    List.length (filter (fun o => match o with None => true | Some _ => false end)
                   loaded) in
  match db this with
  | None => (Rejected (null_db "transaction"), this)
  | Some d =>
      let validItems := map_filter (fun o : option value => o) loaded in
      if (List.length validItems =? 0)%nat
      then (Resolved (mkBatchResult 0 loadFailedCount), this)
      else
        let puts := issued_puts validItems in
        let threw := (List.length puts <? List.length validItems)%nat in
        match first_refused w Items puts 0 with
        | None =>
            (* every request issued succeeds: the transaction commits *)
            let this' := set_db (set_items (commit puts (items d)) d) this in
            if threw then (Rejected DataError, this')
            else (Resolved (mkBatchResult (List.length validItems) loadFailedCount),
                  this')
        | Some (pos, e) =>
            (* request [pos] fails after [pos] successes: the transaction
               aborts; checkDone resolves only if it was the last request,
               otherwise transaction.onerror rejects *)
            if threw then (Rejected DataError, this)
            else if (pos + 1 =? List.length validItems)%nat
            then (Resolved (mkBatchResult pos (loadFailedCount + 1)), this)
            else (Rejected (Error ("Transaction failed: " ++ message e)), this)
        end
  end.

(** [`${response?.status || 'unknown'}`]. *)
Definition http_status (response : option Response) : string :=
  match response with
  | Some r => if (status r =? 0)%Z then "unknown" else string_of_Z (status r)
  | None => "unknown"
  end.

(** [!response || !response.ok]. *)
Definition unusable (response : option Response) : bool :=
  match response with
  | Some r => negb (ok r)
  | None => true
  end.

(** [await response.text()], the emptiness test and [JSON.parse]. *)
Definition read_json (response : option Response) (empty_msg : string)
  : outcome value :=
  match response with
  | None => Rejected (JsError "TypeError"
              "Cannot read properties of undefined (reading 'text')")
  | Some r =>
      match body r with
      | TextError e => Rejected e
      | Blank => Rejected (Error empty_msg)
      | Malformed e => Rejected e
      | Json v => Resolved v
      end
  end.

Definition set_itemIndex (v : value) : M unit := fun this =>
  (Resolved tt, mkDBManager (db this) (ready this) v).

(** Step "Clear existing data before importing"; the result is what the step
    pushes on [errors]. *)
Definition clearStep (w : World) : M (list string) :=
  try_catch
    (clearDatabase w ;;; ret [])
    (fun clearError =>
       ret ["Warning: Failed to clear database: " ++ message clearError]).

(** Step "fetch and store the item index". *)
Definition loadIndex (w : World) : M (list string) :=
  try_catch
    (itemIndexResponse <-
       lift (fst (fetchWithRetry (net w "./data/item-index.json") 3)) ;;
     if unusable itemIndexResponse
     then throw (Error ("Failed to fetch item index: HTTP " ++
                        http_status itemIndexResponse))
     else
       parsed <- lift (read_json itemIndexResponse "Item index file is empty") ;;
       set_itemIndex parsed ;;;
       if isArray parsed then ret []
       else throw (Error "Item index is not an array"))
    (fun fetchError =>
       set_itemIndex (VArr []) ;;;
       ret ["Failed to load item index: " ++ message fetchError]).

(** The record stored when the application information cannot be loaded. *)
Definition fallback_appInfo (w : World) : value :=
  VObj [ ("appInfo",
          VObj [ ("version", VStr "1.0.0");
                 ("exportDate", VStr (now w));
                 ("name", VStr "HydroBlox") ]) ].

(** Step "Store app info with fallback".  The fallback write sits in the
    [catch] block: if it rejects, the rejection leaves the step. *)
Definition loadAppInfo (w : World) : M (list string) :=
  try_catch
    (appInfoResponse <-
       lift (fst (fetchWithRetry (net w "./data/app-info.json") 3)) ;;
     if unusable appInfoResponse
     then throw (Error ("Failed to fetch: HTTP " ++ http_status appInfoResponse))
     else
       parsed <- lift (read_json appInfoResponse "App info file is empty") ;;
       storeAppInfo w parsed ;;;
       ret [])
    (fun appInfoError =>
       storeAppInfo w (fallback_appInfo w) ;;;
       ret ["Failed to load app info: " ++ message appInfoError]).

(** [workflow.id || workflow.workflowId || `workflow-${index}`], as the
    property name it becomes. *)
Definition workflow_key (workflow : value) (index : nat) : string :=
  js_to_string
    (js_or (prop workflow "id")
       (js_or (prop workflow "workflowId")
              (VStr ("workflow-" ++ string_of_nat index)))).

(** "Case 1": [workflows.forEach((workflow, index) => ...)] filling
    [normalizedWorkflows]; reading [workflow.id] throws on a [null] entry. *)
Fixpoint normalize_array (ws : list value) (index : nat)
    (normalizedWorkflows : list (string * value))
  : outcome (list (string * value)) :=
  match ws with
  | [] => Resolved normalizedWorkflows
  | workflow :: ws' =>
      match get_prop workflow "id" with
      | Rejected e => Rejected e
      | Resolved _ =>
          normalize_array ws' (S index)
            (if truthy (prop workflow "items") && isArray (prop workflow "items")
             then js_assign (workflow_key workflow index) workflow
                            normalizedWorkflows
             else normalizedWorkflows)
      end
  end.

(** "Case 2": the loop over [Object.entries(workflows)] filling
    [validatedWorkflows]; both [else] branches skip the entry. *)
Fixpoint validate_entries (entries : list (string * value))
    (validatedWorkflows : list (string * value))
  : outcome (list (string * value)) :=
  match entries with
  | [] => Resolved validatedWorkflows
  | (workflowId, workflow) :: rest =>
      match get_prop workflow "items" with
      | Rejected e => Rejected e
      | Resolved its =>
          validate_entries rest
            (if truthy its && isArray its
             then js_assign workflowId workflow validatedWorkflows
             else validatedWorkflows)
      end
  end.

(** From the parsed payload to the object given to [storeWorkflows]. *)
Definition normalize_workflows (parsed : value)
  : outcome (list (string * value)) :=
  if negb (truthy parsed) || negb (typeof_object parsed)
  then Rejected (Error "Invalid workflows format")
  else
    match parsed with
    | VArr ws =>
        match normalize_array ws 0 [] with
        | Rejected e => Rejected e
        | Resolved normalizedWorkflows =>
            validate_entries normalizedWorkflows []
        end
    | VObj entries => validate_entries entries []
    | _ => Rejected (Error "Invalid workflows format")
    end.

(** Step "Store workflows with fallback". *)
Definition loadWorkflows (w : World) : M (list string) :=
  try_catch
    (workflowsResponse <-
       lift (fst (fetchWithRetry (net w "./data/workflows.json") 3)) ;;
     if unusable workflowsResponse
     then throw (Error ("Failed to fetch: HTTP " ++
                        http_status workflowsResponse))
     else
       parsed <- lift (read_json workflowsResponse "Workflows file is empty") ;;
       validated <- lift (normalize_workflows parsed) ;;
       storeWorkflows w (VObj validated) ;;;
       ret [])
    (fun workflowsError =>
       ret ["Failed to load workflows: " ++ message workflowsError]).

(** The tallies and warnings of the item loop. *)
Record Tally : Type := mkTally {
  processedItems : nat;
  failedItems : nat;
  batchErrors : list string }.

(** [`Batch ${i}-${i + batchSize} failed: ${batchError.message}`]. *)
Definition batch_failed_msg (i : nat) (batchError : exn) : string :=
  "Batch " ++ string_of_nat i ++ "-" ++ string_of_nat (i + 5) ++
  " failed: " ++ message batchError.

(** [`Warning: ${failedItems} items failed to load`]. *)
Definition items_failed_msg (failedItems : nat) : string :=
  "Warning: " ++ string_of_nat failedItems ++ " items failed to load".

(** The loop [for (let i = 0; i < totalItems; i += batchSize)] with
    [batchSize = 5]; it runs at most [totalItems] times, which is the [fuel]
    it is started with. *)
Fixpoint item_batches (w : World) (index : list value) (totalItems : nat)
    (fuel i : nat) (acc : Tally) (this : DBManager) : Tally * DBManager :=
  match fuel with
  | 0 => (acc, this)
  | S fuel' =>
      if (i <? totalItems)%nat
      then
        let batch := firstn 5 (skipn i index) in
        match storeItemBatch w batch this with
        | (Resolved result, this') =>
            item_batches w index totalItems fuel' (i + 5)
              (mkTally (processedItems acc + succeeded result)
                       (failedItems acc + failed result)
                       (batchErrors acc))
              this'
        | (Rejected batchError, this') =>
            item_batches w index totalItems fuel' (i + 5)
              (mkTally (processedItems acc)
                       (failedItems acc + List.length batch)
                       (batchErrors acc ++ [batch_failed_msg i batchError])%list)
              this'
        end
      else (acc, this)
  end.

(** How a run ends: [return true] with the warnings and tallies it reached,
    or [return false] with the message reported. *)
Inductive ImportResult : Type :=
| Completed (errors : list string) (processed failedCount : nat)
| Failed (reason : string).

(** The value [importData] returns. *)
Definition returned (r : ImportResult) : bool :=
  match r with
  | Completed _ _ _ => true
  | Failed _ => false
  end.

Definition warnings (r : ImportResult) : list string :=
  match r with
  | Completed errors _ _ => errors
  | Failed _ => []
  end.

(** Step "Store items in batches", and the end of the outer [try] block.
    [this.itemIndex] is an array here: the index step always leaves one. *)
Definition loadItems (w : World) (errors : list string) : M ImportResult :=
  fun this =>
  let index := match itemIndex this with VArr l => l | _ => [] end in
  let totalItems := List.length index in
  if (0 <? totalItems)%nat
  then
    let (tally, this') :=
      item_batches w index totalItems totalItems 0 (mkTally 0 0 []) this in
    (Resolved
       (Completed
          (errors ++ batchErrors tally ++
           (if (0 <? failedItems tally)%nat
            then [items_failed_msg (failedItems tally)]
            else []))%list
          (processedItems tally) (failedItems tally)),
     this')
  else (Resolved (Completed errors 0 0), this).

(** The outer [try] block of [importData]. *)
Definition import_steps (w : World) : M ImportResult :=
  e1 <- clearStep w ;;
  e2 <- loadIndex w ;;
  e3 <- loadAppInfo w ;;
  e4 <- loadWorkflows w ;;
  loadItems w (e1 ++ e2 ++ e3 ++ e4)%list.

(** [importData(options)]. *)
Definition importData (w : World) (this : DBManager) : ImportResult * DBManager :=
  match (if ready this then (Resolved true, this) else initDB w this) with
  | (Rejected initError, this1) =>
      (Failed ("Failed to initialize database: " ++ message initError), this1)
  | (Resolved _, this1) =>
      match import_steps w this1 with
      | (Resolved r, this2) => (r, this2)
      | (Rejected error, this2) =>
          (Failed ("Critical error during import: " ++ message error), this2)
      end
  end.

(* ===================================================================== *)
(** ** The service worker (src/sw.js) *)
(* ===================================================================== *)

Module SW.

(** A response as the worker sees it: it never looks inside. *)
Record HttpResponse : Type := mkHttpResponse {
  http_status : nat;
  content_type : option string;
  http_body : string }.

Definition http_ok (r : HttpResponse) : bool :=
  (200 <=? http_status r)%nat && (http_status r <=? 299)%nat.

(** The request of a fetch event: [req.url] is [origin ++ pathname ++ search]
    and [new URL(req.url).pathname] is [pathname]. *)
Record Request : Type := mkRequest {
  origin : string;
  pathname : string;
  search : string;
  destination : string;
  mode : string }.

Definition url (req : Request) : string :=
  origin req ++ pathname req ++ search req.

(** Where the worker script lives: relative URLs resolve against it.
    [sw_dir] is the directory of sw.js, from the root, with both slashes. *)
Record Location : Type := mkLocation {
  sw_origin : string;
  sw_dir : string }.

(** [s.endsWith(suffix)]. *)
Definition endsWith (s suffix : string) : bool :=
  (String.length suffix <=? String.length s)%nat &&
  (substring (String.length s - String.length suffix)
             (String.length suffix) s =? suffix).

(** [s.includes(part)]. *)
Definition includes (s part : string) : bool :=
  match index 0 part s with
  | Some _ => true
  | None => false
  end.

(** The absolute URL of a reference used by the worker: './x' is relative to
    the script's directory, '/x' to the root of the origin. *)
Definition resolve (loc : Location) (ref : string) : string :=
  if prefix "./" ref
  then sw_origin loc ++ sw_dir loc ++
       substring 2 (String.length ref - 2) ref
  else if prefix "/" ref then sw_origin loc ++ ref
  else ref.

Definition CACHE_NAME : string := "hydroblox-offline-v2".

Definition PRECACHE_URLS : list string :=
  [ "./"; "./index.html"; "./offline.html"; "./manifest.json";
    "./js/app.js"; "./js/db-manager.js";
    "./js/hydrolang/hydrolang.js"; "./js/hydrolang/181.hydrolang.js";
    "./js/hydrolang/841.hydrolang.js"; "./js/hydrolang/972.hydrolang.js";
    "./js/hydrolang/utils/nn.worker.js";
    "./js/hydrolang/hydrolang_functions_schema2.json";
    "./js/hydrolang/hydrolang_datasources_schema.json";
    "./styles/results.css"; "./styles/data-visualizer.css";
    "./styles/exports.css";
    "./icons/icon-192.svg"; "./icons/icon-512.svg";
    "./icons/maskable-icon.svg";
    "./data/app-info.json"; "./data/item-index.json";
    "./data/workflows.json" ].

(** The cache [CACHE_NAME]: responses under the absolute URL of their
    request. *)
Definition Cache : Type := list (string * HttpResponse).

(** [caches.match(request)]: the entry, or [undefined]. *)
Fixpoint cache_match (u : string) (c : Cache) : option HttpResponse :=
  match c with
  | [] => None
  | (u', r) :: c' => if u' =? u then Some r else cache_match u c'
  end.

(** [cache.put(request, response)]. *)
Fixpoint cache_put (u : string) (r : HttpResponse) (c : Cache) : Cache :=
  match c with
  | [] => [(u, r)]
  | (u', r') :: c' =>
      if u' =? u then (u, r) :: c' else (u', r') :: cache_put u r c'
  end.

(** The network as the worker meets it: [fetch] rejects ([None]) or resolves
    to a response. *)
Definition Network : Type := string -> option HttpResponse.

(** The install listener: each [cache.add(url)] fetches, rejects unless the
    response is ok, and stores it; a rejection is caught and logged. *)
Definition install (loc : Location) (fetch : Network) : Cache :=
  fold_left
    (fun cache ref =>
       match fetch (resolve loc ref) with
       | Some resp =>
           if http_ok resp then cache_put (resolve loc ref) resp cache
           else cache
       | None => cache
       end)
    PRECACHE_URLS [].

Definition isScriptOrStyle (req : Request) : bool :=
  (destination req =? "script") || (destination req =? "style") ||
  endsWith (pathname req) ".js" || endsWith (pathname req) ".css".

(** What a fetch listener does with an event: it calls
    [event.respondWith(p)], and [p] resolves to a response or to [undefined]
    while the cache may change; or it returns without responding. *)
Inductive Handling : Type :=
| RespondedWith (response : option HttpResponse) (cache : Cache)
| NotHandled.

Definition Listener : Type := Location -> Network -> Cache -> Request -> Handling.

(** The first listener, "serve from cache or network". *)
Definition serve_listener : Listener := fun loc fetch cache req =>
  if isScriptOrStyle req
  then
    (* network-first for scripts and styles *)
    match fetch (url req) with
    | Some resp => RespondedWith (Some resp) (cache_put (url req) resp cache)
    | None => RespondedWith (cache_match (url req) cache) cache
    end
  else
    (* cache-first with network fallback *)
    match cache_match (url req) cache with
    | Some cached => RespondedWith (Some cached) cache
    | None =>
        match fetch (url req) with
        | Some resp => RespondedWith (Some resp) (cache_put (url req) resp cache)
        | None =>
            if mode req =? "navigate"
            then RespondedWith (cache_match (resolve loc "/offline.html") cache)
                               cache
            else RespondedWith None cache
        end
    end.

(** [new Response(JSON.stringify({}), { headers: { 'Content-Type':
    'application/json' } })]. *)
Definition empty_json : HttpResponse :=
  mkHttpResponse 200 (Some "application/json") "{}".

(** The second listener, "Handle data API requests". *)
Definition data_listener : Listener := fun loc fetch cache req =>
  if includes (url req) "/data/"
  then
    match cache_match (url req) cache with
    | Some response => RespondedWith (Some response) cache
    | None =>
        match fetch (url req) with
        | Some response => RespondedWith (Some response) cache
        | None =>
            if includes (url req) "workflows.json"
            then RespondedWith (Some empty_json) cache
            else RespondedWith None cache
        end
    end
  else NotHandled.

(** Dispatch of one fetch event.  Listeners run in the order in which
    [addEventListener] registered them.  [respondWith] sets the event's
    stop-immediate-propagation flag (and a second call would throw
    InvalidStateError), so the first listener that responds settles the
    event and the ones after it do not run.  With no response the browser
    handles the request itself. *)
Fixpoint dispatch (listeners : list Listener) (loc : Location)
    (fetch : Network) (cache : Cache) (req : Request) : Handling :=
  match listeners with
  | [] => NotHandled
  | l :: rest =>
      match l loc fetch cache req with
      | RespondedWith response cache' => RespondedWith response cache'
      | NotHandled => dispatch rest loc fetch cache req
      end
  end.

(** The two fetch listeners of sw.js, in source order. *)
Definition fetch_listeners : list Listener := [serve_listener; data_listener].

(** What the worker answers to an intercepted request. *)
Definition on_fetch : Location -> Network -> Cache -> Request -> Handling :=
  dispatch fetch_listeners.

End SW.

(* ===================================================================== *)
(** ** Vocabulary of the properties *)
(* ===================================================================== *)

(** Every one of the [retries] attempts is answered, none with an ok
    status. *)
Definition never_ok (fetch : nat -> Attempt) (retries : nat) : Prop :=
  forall i, i < retries -> exists r, fetch i = Answer r /\ ok r = false.

(** The 'items' store of a manager (empty when no database is open). *)
Definition items_of (this : DBManager) : Collection :=
  match db this with
  | Some d => items d
  | None => []
  end.

Definition workflows_of (this : DBManager) : Collection :=
  match db this with
  | Some d => workflows d
  | None => []
  end.

(** The database is open and the manager knows it. *)
Definition opened (this : DBManager) : Prop :=
  ready this = true /\ exists d, db this = Some d.

(** The state a manager is in between calls: [ready] is only ever set
    together with [db]. *)
Definition consistent (this : DBManager) : Prop :=
  ready this = true -> exists d, db this = Some d.

(** [this'] is [this] with the 'items' store replaced by [c]. *)
Definition stores_items (this this' : DBManager) (c : Collection) : Prop :=
  exists d,
    db this = Some d /\ db this' = Some (set_items c d) /\
    ready this' = ready this /\ itemIndex this' = itemIndex this.

(** The records a list of index entries loads, in order. *)
Definition loaded (w : World) (entries : list value) : list value :=
  map_filter (loadItem w) entries.

(** How many entries of a list fail to load. *)
Definition load_failures (w : World) (entries : list value) : nat :=
  List.length
    (filter (fun e => match loadItem w e with None => true | Some _ => false end)
            entries).

(** The put requests for a list of item records. *)
Definition puts_of (records : list value) : list (value * value) :=
  map (fun r => (prop r "uniqueId", r)) records.

(** The 'items' store takes the record: its key is valid and the engine does
    not refuse the request. *)
Definition accepted (w : World) (r : value) : Prop :=
  valid_key (prop r "uniqueId") = true /\
  idb_put_error w Items (prop r "uniqueId") = None.

(** [r] is the record built for an index entry whose id is [k]. *)
Definition loaded_record (w : World) (k r : value) : Prop :=
  exists e, loadItem w e = Some r /\ prop e "id" = k.

(** The batch in which the loop of [importData] processes position [p]. *)
Definition batch_of (index : list value) (p : nat) : list value :=
  firstn 5 (skipn (5 * (p / 5)) index).

(** The database a run works on is [d]: the manager has it open already, or
    [indexedDB.open] delivers it. *)
Definition opens (w : World) (this : DBManager) (d : Database) : Prop :=
  (ready this = true /\ db this = Some d) \/
  (ready this = false /\ idb_open w = Resolved d).

(** The database after the clearing step. *)
Definition after_clear (w : World) (d : Database) : Database :=
  match idb_clear_error w with
  | None => empty_db
  | Some _ => d
  end.

(** The index file is fetched and parses to the array [index]. *)
Definition index_is (w : World) (index : list value) : Prop :=
  exists r,
    fst (fetchWithRetry (net w "./data/item-index.json") 3) =
      Resolved (Some r) /\
    body r = Json (VArr index).

(** The own property [k] of an object, if it has one. *)
Fixpoint own (k : string) (ps : list (string * value)) : option value :=
  match ps with
  | [] => None
  | (k', v) :: ps' => if k' =? k then Some v else own k ps'
  end.

(** An array entry counts as a workflow when its 'items' is an array. *)
Definition is_workflow (e : value) : bool := isArray (prop e "items").



(* ===================================================================== *)
(** ** Scenarios *)
(* ===================================================================== *)

Definition ok_json (v : value) : Attempt := Answer (mkResponse 200 (Json v)).

(** Every attempt answers 500. *)
Definition always_500 : nat -> Attempt :=
  fun _ => Answer (mkResponse 500 Blank).

(** Two transport failures, then a 200. *)
Definition third_time_lucky : nat -> Attempt :=
  fun i =>
    if (i <? 2)%nat then NetFail (JsError "TypeError" "Failed to fetch")
    else Answer (mkResponse 200 (Json (VObj []))).

(** A world whose server answers 500 to everything. *)
Definition world_500 : World :=
  mkWorld (Resolved empty_db) None (fun _ _ => None)
          (fun _ => always_500) "2024-01-01T00:00:00.000Z".

Definition not_found : Attempt := Answer (mkResponse 404 Blank).

(** The scenario of the specification: the index lists items "a" and "b" of
    workflow "w1"; the file of "a" holds [{data: {v: 1}}]; every other file,
    the one of "b" included, is answered 404. *)
Definition scenario_index : list value :=
  [ VObj [("id", VStr "a"); ("workflowId", VStr "w1")];
    VObj [("id", VStr "b"); ("workflowId", VStr "w1")] ].

Definition scenario_net (u : string) (i : nat) : Attempt :=
  if u =? "./data/item-index.json" then ok_json (VArr scenario_index)
  else if u =? "./data/items/a.json"
       then ok_json (VObj [("data", VObj [("v", VNum 1)])])
       else not_found.

Definition scenario_world (clock : string) : World :=
  mkWorld (Resolved empty_db) None (fun _ _ => None) scenario_net clock.

Definition scenario : World := scenario_world "2024-01-01T00:00:00.000Z".

(** Two clock readings, five seconds apart, over the same remote files. *)
Definition first_run : World := scenario_world "2024-01-01T00:00:00.000Z".
Definition second_run : World := scenario_world "2024-01-01T00:00:05.000Z".


(** Two valid entries under the same id. *)
Definition twin_workflows : list value :=
  [ VObj [("id", VStr "a"); ("name", VStr "first"); ("items", VArr [])];
    VObj [("id", VStr "a"); ("name", VStr "second"); ("items", VArr [])] ].


(** Scenarios for the service worker. *)
Module SWScenario.
Import SW.

Definition root : Location := mkLocation "https://example.org" "/".
Definition below_root : Location := mkLocation "https://example.org" "/app/".

Definition page (body : string) : HttpResponse :=
  mkHttpResponse 200 (Some "text/html") body.

(** The server at install time: every file is there. *)
Definition complete_site : Network := fun u => Some (page u).

(** The server at install time, with offline.html missing. *)
Definition site_without_offline_page : Network := fun u =>
  if endsWith u "/offline.html" then Some (mkHttpResponse 404 None "")
  else Some (page u).

(** No network. *)
Definition offline : Network := fun _ => None.

(** A navigation to a page that was never cached. *)
Definition navigation (loc : Location) : Request :=
  mkRequest (sw_origin loc) (sw_dir loc ++ "results") "" "document" "navigate".

(** The import engine's request for the workflow collection. *)
Definition workflows_request (loc : Location) : Request :=
  mkRequest (sw_origin loc) (sw_dir loc ++ "data/workflows.json") "" "" "cors".

End SWScenario.

(* ===================================================================== *)
(** ** Vocabulary of the further properties *)
(* ===================================================================== *)

(** The delays [fetchWithRetry] waited, in order. *)
Fixpoint waits (tr : list FetchEvent) : list nat :=
  match tr with
  | [] => []
  | Fetched _ :: tr' => waits tr'
  | Waited ms :: tr' => ms :: waits tr'
  end.

(** The delay after the attempt of loop index [i]. *)
Definition backoff (i : nat) : nat := 1000 * (i + 1).

(** The 'appInfo' store of a manager (empty when no database is open). *)
Definition appInfo_of (this : DBManager) : Collection :=
  match db this with
  | Some d => appInfo d
  | None => []
  end.

(** A manager with an open, empty database. *)
Definition fresh_manager : DBManager := mkDBManager (Some empty_db) true VNull.

(** Application information as app-info.json carries it. *)
Definition sample_appInfo : value :=
  VObj [ ("version", VStr "2.1.0"); ("title", VStr "Flood study");
         ("exportDate", VStr "2023-06-01T12:00:00.000Z") ].

(** [!(!v || typeof v !== 'object')]: an object or an array. *)
Definition is_object (v : value) : bool := truthy v && typeof_object v.

(** The records [storeWorkflows] writes for the entries of an object, in
    order: one for every entry whose value is an object. *)
Definition workflow_records (entries : list (string * value)) : list value :=
  map_filter
    (fun e : string * value =>
       if is_object (snd e) then Some (workflow_record (fst e) (snd e))
       else None)
    entries.

(** A workflow collection with two workflows, one of them with items that
    are not objects. *)
Definition sample_workflows : list (string * value) :=
  [ ("w1", VObj [ ("name", VStr "Rainfall");
                  ("items", VArr [ VObj [("uniqueId", VStr "a")]; VNull;
                                   VNum 7 ]) ]);
    ("w2", VObj [ ("items", VStr "none") ]);
    ("note", VStr "not a workflow") ].

(** An item as a stored workflow inlines it: an object whose 'parameters',
    'arguments', 'data' and 'settings' are never missing and whose 'results'
    is never [undefined]. *)
Definition complete_item (item : value) : Prop :=
  (exists ps, item = VObj ps) /\
  truthy (prop item "parameters") = true /\
  truthy (prop item "arguments") = true /\
  truthy (prop item "data") = true /\
  truthy (prop item "settings") = true /\
  prop item "results" <> VUndef.

(** A workflow record as stored: a truthy 'name', 'items' an array of
    complete items, a truthy 'connections'. *)
Definition complete_workflow (record : value) : Prop :=
  truthy (prop record "name") = true /\
  truthy (prop record "connections") = true /\
  exists items, prop record "items" = VArr items /\ Forall complete_item items.

(** A world like [scenario] whose index lists "a", "b" and "c", all three
    files being there, and whose 'items' store refuses the record of "c". *)
Definition refusing_world : World :=
  mkWorld (Resolved empty_db) None
    (fun s k =>
       match s, k with
       | Items, VStr "c" => Some (JsError "QuotaExceededError" "quota exceeded")
       | _, _ => None
       end)
    (fun u _ => ok_json (VObj [("data", VNum 1)]))
    "2024-01-01T00:00:00.000Z".

Definition abc_batch : list value :=
  [ VObj [("id", VStr "a")]; VObj [("id", VStr "b")]; VObj [("id", VStr "c")] ].

(** The index cannot be used: the file is not fetched, or it does not parse
    to an array. *)
Definition index_fails (w : World) : Prop :=
  forall r,
    fst (fetchWithRetry (net w "./data/item-index.json") 3) = Resolved (Some r) ->
    forall l, body r <> Json (VArr l).

(* ===================================================================== *)
(** ** The worker's caches by name (src/sw.js, activate) *)
(* ===================================================================== *)

Module SWCaches.
Import SW.

(** [caches]: the caches of the origin in creation order, one per name. *)
Definition CacheStorage : Type := list (string * Cache).

(** [caches.keys()]. *)
Definition caches_keys (caches : CacheStorage) : list string := map fst caches.

(** The cache of a given name, if there is one. *)
Fixpoint caches_get (cacheName : string) (caches : CacheStorage)
  : option Cache :=
  match caches with
  | [] => None
  | (name, c) :: caches' =>
      if name =? cacheName then Some c else caches_get cacheName caches'
  end.

(** [caches.delete(cacheName)]. *)
Definition caches_delete (cacheName : string) (caches : CacheStorage)
  : CacheStorage :=
  filter (fun e => negb (fst e =? cacheName)) caches.

(** [caches.match(request)]: the entry of the first cache, in creation
    order, that has one. *)
Fixpoint caches_match (u : string) (caches : CacheStorage)
  : option HttpResponse :=
  match caches with
  | [] => None
  | (_, c) :: caches' =>
      match cache_match u c with
      | Some r => Some r
      | None => caches_match u caches'
      end
  end.

(** The activate listener: every cache whose name is not [CACHE_NAME] is
    deleted. *)
Definition activate (caches : CacheStorage) : CacheStorage :=
  fold_left
    (fun remaining cacheName => caches_delete cacheName remaining)
    (filter (fun cacheName => negb (cacheName =? CACHE_NAME))
            (caches_keys caches))
    caches.

(** [cache.put] takes the response to a GET request unless it is partial
    content. *)
Definition cacheable (r : HttpResponse) : Prop := http_status r <> 206.

(** What [cache.add(u)] has to store: the answer to [u] when it is ok. *)
Definition fetched_ok (fetch : Network) (u : string) : option HttpResponse :=
  match fetch u with
  | Some r => if http_ok r then Some r else None
  | None => None
  end.

(** Two caches of earlier versions and the current one. *)
Definition three_generations : CacheStorage :=
  [ ("hydroblox-offline-v0",
       [("https://example.org/", SWScenario.page "v0")]);
    (CACHE_NAME,
       [("https://example.org/index.html", SWScenario.page "v2")]);
    ("hydroblox-offline-v1",
       [("https://example.org/", SWScenario.page "v1")]) ].

(** The page asks for its main script. *)
Definition script_request : Request :=
  mkRequest "https://example.org" "/js/app.js" "" "script" "no-cors".

(** A server in trouble: every request is answered 503. *)
Definition unavailable : Network := fun _ =>
  Some (mkHttpResponse 503 (Some "text/html") "Service Unavailable").

End SWCaches.

(* ===================================================================== *)
(** ** The page's loaders (src/js/app.js) *)
(* ===================================================================== *)

Module App.

(** [await response.json()]. *)
Definition json (response : Response) : outcome value :=
  match body response with
  | TextError e => Rejected e
  | Blank => Rejected (JsError "SyntaxError" "Unexpected end of JSON input")
  | Malformed e => Rejected e
  | Json v => Resolved v
  end.

(** The loop over [Object.entries(parsedData)] filling [this.workflows]: an
    entry whose value is not an object is passed over. *)
Fixpoint select_workflows (entries : list (string * value))
    (workflows : list (string * value)) : list (string * value) :=
  match entries with
  | [] => workflows
  | (key, v) :: rest =>
      select_workflows rest
        (if truthy v && typeof_object v
         then
           if truthy (prop v "items") && isArray (prop v "items")
           then js_assign key v workflows
           else workflows
         else workflows)
  end.

(** [loadWorkflows], from the parsed payload to [this.workflows]; the array
    case is written as in [importData]. *)
Definition collect_workflows (parsedData : value)
  : outcome (list (string * value)) :=
  if negb (truthy parsedData) || negb (typeof_object parsedData)
  then Rejected (Error "Invalid workflow data format")
  else
    match parsedData with
    | VArr ws => normalize_array ws 0 []
    | VObj entries => Resolved (select_workflows entries [])
    | _ => Rejected (Error "Invalid workflow data format")
    end.

(** [loadWorkflows()]: what the call settles to, and [this.workflows]
    afterwards.  [statusText] is the status text of the response. *)
Definition loadWorkflows (w : World) (statusText : string)
  : outcome value * value :=
  let attempt :=
    match net w "data/workflows.json" 0 with
    | NetFail e => Rejected e
    | Answer response =>
        if negb (ok response)
        then Rejected (Error ("HTTP " ++ string_of_Z (status response) ++
                              ": " ++ statusText))
        else
          match body response with
          | TextError e => Rejected e
          | Blank => Rejected (Error "Workflows file is empty")
          | Malformed e => Rejected e
          | Json parsedData => collect_workflows parsedData
          end
    end in
  match attempt with
  | Resolved workflows => (Resolved (VObj workflows), VObj workflows)
  | Rejected error =>
      (Rejected (Error ("Failed to load workflows: " ++ message error)),
       VObj [])
  end.

(** The URL of an item's file as the page asks for it:
    [`data/items/${uniqueId}.json`]. *)
Definition item_file (uniqueId : value) : string :=
  "data/items/" ++ js_to_string uniqueId ++ ".json".

(** "Fallback: try to load from data/items folder", with the [return null]
    that follows it. *)
Definition file_fallback (w : World) (uniqueId : value) : value :=
  match net w (item_file uniqueId) 0 with
  | NetFail _ => VNull
  | Answer response =>
      if ok response
      then
        match json response with
        | Rejected _ => VNull
        | Resolved j =>
            match get_prop j "data" with
            | Rejected _ => VNull
            | Resolved data => js_or data VNull
            end
        end
      else VNull
  end.

(** [loadItemDataFromIndexedDB(uniqueId)].  [dbManager] is [this.dbManager]:
    [null], or the manager the page shares with the import ([window.db]),
    whose state the call may change. *)
Definition loadItemDataFromIndexedDB (w : World) (uniqueId : value)
    (dbManager : option DBManager) : value * option DBManager :=
  match dbManager with
  | None => (file_fallback w uniqueId, None)
  | Some manager =>
      match (if ready manager then (Resolved true, manager)
             else initDB w manager) with
      | (Rejected _, manager1) => (VNull, Some manager1)
      | (Resolved _, manager1) =>
          match getResult uniqueId manager1 with
          | (Rejected _, manager2) => (VNull, Some manager2)
          | (Resolved result, manager2) =>
              if truthy result
              then (match prop result "data" with
                    | VUndef => VNull
                    | data => data
                    end, Some manager2)
              else (file_fallback w uniqueId, Some manager2)
          end
      end
  end.


(** A workflow collection with a [null] entry. *)
Definition workflows_with_null : list (string * value) :=
  [ ("w1", VObj [("items", VArr [])]); ("w2", VNull);
    ("w3", VObj [("items", VArr [VNum 1])]) ].

(** A world whose item files carry no 'data' property: the payload is the
    data.  Both spellings of a file's URL name the same file. *)
Definition flat_items_world : World :=
  mkWorld (Resolved empty_db) None (fun _ _ => None)
    (fun _ _ => ok_json (VObj [("v", VNum 1)]))
    "2024-01-01T00:00:00.000Z".

End App.

(* ===================================================================== *)
(** ** The data explorer (src/js/metadata-explorer.js, MetadataExplorer) *)
(* ===================================================================== *)

Module Explorer.

(** A step of a path: the explorer pushes the index of an array element (a
    number) or the name of a property (a string). *)
Inductive segment : Type :=
| Idx (i : nat)
| Key (k : string).

Definition segment_eqb (a b : segment) : bool :=
  match a, b with
  | Idx i, Idx j => (i =? j)%nat
  | Key k, Key l => k =? l
  | _, _ => false
  end.

(** [JSON.stringify(p) === JSON.stringify(q)] for two paths: the same
    numbers and strings in the same order. *)
Fixpoint path_eqb (p q : list segment) : bool :=
  match p, q with
  | [], [] => true
  | a :: p', b :: q' => segment_eqb a b && path_eqb p' q'
  | _, _ => false
  end.

(** The names every object inherits from [Object.prototype]. *)
Definition inherited (k : string) : bool :=
  existsb (String.eqb k)
    [ "constructor"; "hasOwnProperty"; "isPrototypeOf";
      "propertyIsEnumerable"; "toLocaleString"; "toString"; "valueOf";
      "__proto__"; "__defineGetter__"; "__defineSetter__";
      "__lookupGetter__"; "__lookupSetter__" ].

(** [current[segment]] on an array or an object.  The answer is [None] where
    JavaScript gives something that is not a JSON value or that this model
    does not follow: a member inherited from a prototype, or an array read
    by a name other than 'length'. *)
Definition member (current : value) (s : segment) : option value :=
  match current, s with
  | VArr l, Idx i => Some (nth i l VUndef)
  | VArr l, Key k =>
      if k =? "length" then Some (VNum (Z.of_nat (List.length l))) else None
  | VObj ps, Idx i => Some (assoc (string_of_nat i) ps)
  | VObj ps, Key k =>
      match own k ps with
      | Some v => Some v
      | None => if inherited k then None else Some VUndef
      end
  | _, _ => None
  end.

(** [getDataAtPath(data, path)]. *)
Fixpoint getDataAtPath (data : value) (path : list segment) : option value :=
  match path with
  | [] => Some data
  | s :: rest =>
      if truthy data && (isArray data || typeof_object data)
      then
        match member data s with
        | Some next => getDataAtPath next rest
        | None => None
        end
      else Some VNull
  end.

Record ExplorerState : Type := mkExplorerState {
  id : string;
  rootData : value;
  currentPath : list segment;
  currentData : value;
  title : string;
  sourceItemId : value;
  history : list (list segment * value) }.

(** [this.activeExplorers]: a Map from explorer ids to states. *)
Definition Explorers : Type := list (string * ExplorerState).

Fixpoint explorers_get (explorerId : string) (m : Explorers)
  : option ExplorerState :=
  match m with
  | [] => None
  | (k, s) :: m' =>
      if k =? explorerId then Some s else explorers_get explorerId m'
  end.

Fixpoint explorers_set (explorerId : string) (s : ExplorerState)
    (m : Explorers) : Explorers :=
  match m with
  | [] => [(explorerId, s)]
  | (k, s') :: m' =>
      if k =? explorerId then (explorerId, s) :: m'
      else (k, s') :: explorers_set explorerId s m'
  end.

(** The state [openDataExplorer(data, title, sourceItemId)] creates and
    registers; [explorerId] is the id it draws from the clock and the random
    generator. *)
Definition openDataExplorer (explorerId : string) (data : value)
    (title : string) (sourceItemId : value) (activeExplorers : Explorers)
  : Explorers :=
  explorers_set explorerId
    (mkExplorerState explorerId data [] data title sourceItemId [([], data)])
    activeExplorers.

(** [navigateToPath(explorerId, newPath)]: the explorers afterwards, or
    [None] when [getDataAtPath] leaves the model. *)
Definition navigateToPath (explorerId : string) (newPath : list segment)
    (activeExplorers : Explorers) : option Explorers :=
  match explorers_get explorerId activeExplorers with
  | None => Some activeExplorers
  | Some explorerState =>
      match getDataAtPath (rootData explorerState) newPath with
      | None => None
      | Some VUndef => Some activeExplorers
      | Some targetData =>
          Some (explorers_set explorerId
                  (mkExplorerState (id explorerState) (rootData explorerState)
                     newPath targetData
                     (title explorerState) (sourceItemId explorerState)
                     (if existsb (fun h => path_eqb (fst h) newPath)
                                 (history explorerState)
                      then history explorerState
                      else (history explorerState ++
                            [(newPath, targetData)])%list))
                  activeExplorers)
      end
  end.

(** A series of navigations in one explorer. *)
Fixpoint visits (explorerId : string) (paths : list (list segment))
    (activeExplorers : Explorers) : option Explorers :=
  match paths with
  | [] => Some activeExplorers
  | newPath :: rest =>
      match navigateToPath explorerId newPath activeExplorers with
      | Some next => visits explorerId rest next
      | None => None
      end
  end.

(** The view of an explorer agrees with its data: the current data is
    what the current path leads to from the root, and so is every entry of
    the history, which lists each path once, the current one included. *)
Definition coherent (s : ExplorerState) : Prop :=
  getDataAtPath (rootData s) (currentPath s) = Some (currentData s) /\
  Forall (fun h => getDataAtPath (rootData s) (fst h) = Some (snd h))
         (history s) /\
  NoDup (map fst (history s)) /\
  In (currentPath s) (map fst (history s)).

(** A result as the explorer shows it. *)
Definition sample_result : value :=
  VObj [ ("station", VStr "USGS-05454500");
         ("series", VArr [ VObj [("t", VNum 0); ("q", VNum 12)];
                           VObj [("t", VNum 1); ("q", VNum 15)] ]) ].

End Explorer.

(* ===================================================================== *)
(** * Properties *)
(* ===================================================================== *)

(** ** Values and keys *)

Section ValueInduction.
Variable P : value -> Prop.
Hypothesis P_undef : P VUndef.
Hypothesis P_null : P VNull.
Hypothesis P_bool : forall b, P (VBool b).
Hypothesis P_num : forall z, P (VNum z).
Hypothesis P_str : forall s, P (VStr s).
Hypothesis P_arr : forall l, Forall P l -> P (VArr l).
Hypothesis P_obj : forall ps, Forall (fun p => P (snd p)) ps -> P (VObj ps).

Fixpoint value_nested_ind (v : value) : P v :=
  match v with
  | VUndef => P_undef
  | VNull => P_null
  | VBool b => P_bool b
  | VNum z => P_num z
  | VStr s => P_str s
  | VArr l =>
      P_arr l
        ((fix all (l : list value) : Forall P l :=
            match l with
            | [] => Forall_nil P
            | x :: l' => Forall_cons x (value_nested_ind x) (all l')
            end) l)
  | VObj ps =>
      P_obj ps
        ((fix all (ps : list (string * value))
            : Forall (fun p => P (snd p)) ps :=
            match ps with
            | [] => Forall_nil _
            | p :: ps' =>
                Forall_cons (P := fun p => P (snd p)) p
                  (value_nested_ind (snd p)) (all ps')
            end) ps)
  end.
End ValueInduction.

Lemma value_eqb_eq (a b : value) : value_eqb a b = true <-> a = b.
Proof.
  revert b. induction a as [| |x|x|x|l H|l H] using value_nested_ind;
    intros [| |y|y|y|elems|props]; simpl;
    try (split; congruence).
  - split.
    + intros E. apply Bool.eqb_prop in E. congruence.
    + intros E. inversion E. apply Bool.eqb_reflx.
  - split.
    + intros E. apply Z.eqb_eq in E. congruence.
    + intros E. inversion E. apply Z.eqb_refl.
  - split.
    + intros E. apply String.eqb_eq in E. congruence.
    + intros E. inversion E. apply String.eqb_refl.
  - revert elems. induction H as [|x l Hx Hl IH]; intros [|y elems].
    + split; reflexivity.
    + split; [discriminate | congruence].
    + split; [discriminate | congruence].
    + rewrite andb_true_iff, (Hx y), (IH elems). split.
      * intros [-> E]. inversion E. reflexivity.
      * intros E. inversion E. split; reflexivity.
  - revert props. induction H as [|[k x] l Hx Hl IH]; intros [|[k' y] props].
    + split; reflexivity.
    + split; [discriminate | congruence].
    + split; [discriminate | congruence].
    + simpl in Hx. rewrite !andb_true_iff, (Hx y), (IH props), String.eqb_eq.
      split.
      * intros [[-> ->] E]. inversion E. reflexivity.
      * intros E. inversion E. repeat split; reflexivity.
Qed.

Lemma value_eqb_refl (a : value) : value_eqb a a = true.
Proof. apply value_eqb_eq. reflexivity. Qed.

Lemma coll_get_put (k k' r : value) (c : Collection) :
  coll_get k (coll_put k' r c) =
  if value_eqb k' k then r else coll_get k c.
Proof.
  induction c as [|[k0 r0] c IH]; simpl.
  - reflexivity.
  - destruct (value_eqb k0 k') eqn:E0; simpl.
    + apply value_eqb_eq in E0. subst k0.
      destruct (value_eqb k' k); reflexivity.
    + rewrite IH. destruct (value_eqb k0 k) eqn:E1; [|reflexivity].
      apply value_eqb_eq in E1. subst k0.
      destruct (value_eqb k' k) eqn:E2; [|reflexivity].
      apply value_eqb_eq in E2. subst k'.
      rewrite value_eqb_refl in E0. discriminate.
Qed.

(** ** The retrying fetcher *)

Lemma fetch_loop_step (fetch : nat -> Attempt) (retries i fuel : nat) :
  fetch_loop fetch retries i (S fuel) =
  let continue :=
    (fst (fetch_loop fetch retries (S i) fuel),
     Fetched i :: Waited (1000 * (i + 1)) ::
       snd (fetch_loop fetch retries (S i) fuel)) in
  match fetch i with
  | Answer response =>
      if ok response then (Resolved (Some response), [Fetched i]) else continue
  | NetFail error =>
      if (i =? retries - 1)%nat then (Rejected error, [Fetched i]) else continue
  end.
Proof.
  cbn [fetch_loop]. destruct (fetch_loop fetch retries (S i) fuel). reflexivity.
Qed.

Lemma fetch_loop_exhausted (fetch : nat -> Attempt) (retries fuel i : nat) :
  retries = i + S fuel ->
  (forall j, i <= j < retries -> attempt_fails (fetch j) = true) ->
  fst (fetch_loop fetch retries i (S fuel)) =
  match fetch (retries - 1) with
  | NetFail e => Rejected e
  | Answer _ => Resolved None
  end.
Proof.
  revert i. induction fuel as [|fuel IH]; intros i Hr Hfail.
  - assert (Hi : retries - 1 = i) by lia. rewrite Hi.
    rewrite fetch_loop_step. cbv zeta.
    assert (Hf := Hfail i ltac:(lia)).
    destruct (fetch i) as [e|r]; simpl in Hf.
    + rewrite Hi, Nat.eqb_refl. reflexivity.
    + apply negb_true_iff in Hf. rewrite Hf. reflexivity.
  - rewrite fetch_loop_step. cbv zeta.
    assert (Hf := Hfail i ltac:(lia)).
    assert (Hnext := IH (S i) ltac:(lia) ltac:(intros; apply Hfail; lia)).
    destruct (fetch i) as [e|r]; simpl in Hf.
    + destruct (i =? retries - 1)%nat eqn:E.
      * apply Nat.eqb_eq in E. lia.
      * exact Hnext.
    + apply negb_true_iff in Hf. rewrite Hf. exact Hnext.
Qed.

Lemma fetch_loop_success (fetch : nat -> Attempt) (retries k : nat)
    (r : Response) :
  k < retries ->
  fetch k = Answer r -> ok r = true ->
  forall fuel i, i <= k < i + fuel ->
  (forall j, i <= j < k -> attempt_fails (fetch j) = true) ->
  fst (fetch_loop fetch retries i fuel) = Resolved (Some r) /\
  fetched (snd (fetch_loop fetch retries i fuel)) = seq i (S k - i).
Proof.
  intros Hk Hfetch Hok. induction fuel as [|fuel IH]; intros i Hi Hfail.
  - lia.
  - rewrite fetch_loop_step. cbv zeta.
    destruct (Nat.eq_dec i k) as [->|Hne].
    + rewrite Hfetch, Hok. replace (S k - k) with 1 by lia. split; reflexivity.
    + assert (Hf := Hfail i ltac:(lia)).
      destruct (IH (S i) ltac:(lia) ltac:(intros; apply Hfail; lia))
        as [IH1 IH2].
      replace (S k - i) with (S (S k - S i)) by lia.
      destruct (fetch i) as [e|r']; simpl in Hf.
      * destruct (i =? retries - 1)%nat eqn:E.
        -- apply Nat.eqb_eq in E. lia.
        -- simpl. rewrite IH2. split; [exact IH1 | reflexivity].
      * apply negb_true_iff in Hf. rewrite Hf. simpl. rewrite IH2.
        split; [exact IH1 | reflexivity].
Qed.

Lemma fetch_loop_not_ok (fetch : nat -> Attempt) (retries : nat) :
  forall fuel i,
  (forall j, i <= j < i + fuel ->
     exists r, fetch j = Answer r /\ ok r = false) ->
  fst (fetch_loop fetch retries i fuel) = Resolved None.
Proof.
  induction fuel as [|fuel IH]; intros i H.
  - reflexivity.
  - rewrite fetch_loop_step. cbv zeta.
    destruct (H i ltac:(lia)) as [r [-> ->]]. simpl.
    apply IH. intros j Hj. apply H. lia.
Qed.

(** C2, as stated, fails: when every attempt answers with an error status,
    every attempt has failed, and yet the call does not reject: it resolves
    to [undefined], so the last failure never reaches the caller as an
    error. *)
Lemma fetchWithRetry_swallows_http_failure :
  (forall i, i < 3 -> attempt_fails (always_500 i) = true) /\
  fst (fetchWithRetry always_500 3) = Resolved None /\
  (forall e, fst (fetchWithRetry always_500 3) <> Rejected e).
Proof.
  split; [intros; reflexivity|]. split; [reflexivity|].
  intros e. cbv. discriminate.
Qed.

(** C2, amended.  When every attempt fails, the call rejects with the last
    attempt's error if that attempt was a transport failure, and resolves to
    [undefined] if it was an answer with an error status.  The first attempt
    that is answered with an ok status is returned at once: [fetch] is called
    on the loop indices up to that one and on no other. *)
Theorem fetchWithRetry_last_failure_and_first_success
    (fetch : nat -> Attempt) (retries : nat) :
  0 < retries ->
  ((forall i, i < retries -> attempt_fails (fetch i) = true) ->
   fst (fetchWithRetry fetch retries) =
   match fetch (retries - 1) with
   | NetFail e => Rejected e
   | Answer _ => Resolved None
   end) /\
  (forall k r,
     k < retries ->
     (forall j, j < k -> attempt_fails (fetch j) = true) ->
     fetch k = Answer r -> ok r = true ->
     fst (fetchWithRetry fetch retries) = Resolved (Some r) /\
     fetched (snd (fetchWithRetry fetch retries)) = seq 0 (S k)).
Proof.
  intros Hpos. unfold fetchWithRetry. split.
  - intros Hfail. destruct retries as [|n]; [lia|].
    apply fetch_loop_exhausted; [lia|]. intros j Hj. apply Hfail. lia.
  - intros k r Hk Hfail Hfetch Hok.
    replace (seq 0 (S k)) with (seq 0 (S k - 0)) by (f_equal; lia).
    apply (fetch_loop_success fetch retries k r Hk Hfetch Hok retries 0).
    + lia.
    + intros j Hj. apply Hfail. lia.
Qed.

Lemma fetchWithRetry_last_failure_and_first_success_witness :
  fst (fetchWithRetry always_500 3) = Resolved None /\
  fst (fetchWithRetry third_time_lucky 3) =
    Resolved (Some (mkResponse 200 (Json (VObj [])))) /\
  fetched (snd (fetchWithRetry third_time_lucky 3)) = [0; 1; 2].
Proof.
  split.
  - apply (proj1 (fetchWithRetry_last_failure_and_first_success
                    always_500 3 ltac:(lia))).
    intros i _. reflexivity.
  - apply (proj2 (fetchWithRetry_last_failure_and_first_success
                    third_time_lucky 3 ltac:(lia)) 2).
    + lia.
    + intros j Hj. destruct j as [|[|j]]; [reflexivity | reflexivity | lia].
    + reflexivity.
    + reflexivity.
Defined.

(** C10.  When every attempt of [fetchWithRetry] is answered with a status
    that is not ok and none throws, the promise resolves to [undefined]: no
    response and no rejection.  The caller has to test the result, as the
    index step of [importData] does: it turns the [undefined] into the
    warning "HTTP unknown" and goes on with an empty index. *)
Theorem fetchWithRetry_resolves_undefined_when_never_ok :
  (forall fetch retries,
     never_ok fetch retries ->
     fst (fetchWithRetry fetch retries) = Resolved None) /\
  (forall w this,
     never_ok (net w "./data/item-index.json") 3 ->
     loadIndex w this =
     (Resolved
        ["Failed to load item index: Failed to fetch item index: HTTP unknown"],
      mkDBManager (db this) (ready this) (VArr []))).
Proof.
  assert (A : forall fetch retries,
             never_ok fetch retries ->
             fst (fetchWithRetry fetch retries) = Resolved None).
  { intros fetch retries H. unfold fetchWithRetry.
    apply fetch_loop_not_ok. intros j Hj. apply H. lia. }
  split; [exact A|].
  intros w this H. apply A in H.
  unfold loadIndex, try_catch, bind, lift. rewrite H. reflexivity.
Qed.

Lemma fetchWithRetry_resolves_undefined_when_never_ok_witness :
  fst (fetchWithRetry always_500 3) = Resolved None /\
  loadIndex world_500 new_DBManager =
  (Resolved
     ["Failed to load item index: Failed to fetch item index: HTTP unknown"],
   mkDBManager None false (VArr [])).
Proof.
  split.
  - apply (proj1 fetchWithRetry_resolves_undefined_when_never_ok).
    intros i _. exists (mkResponse 500 Blank). split; reflexivity.
  - apply (proj2 fetchWithRetry_resolves_undefined_when_never_ok
             world_500 new_DBManager).
    intros i _. exists (mkResponse 500 Blank). split; reflexivity.
Defined.

(** ** The store before initialization *)

(** C9 on the code.  On a manager whose database has not been opened, the
    four query operations reject with the error 'Database not initialized'.
    The three write operations have no such test: they call
    [this.db.transaction] on [null] and reject with a TypeError. *)
Theorem operations_before_initDB
    (w : World) (this : DBManager) (key payload : value) (batch : list value) :
  db this = None -> ready this = false ->
  fst (getWorkflows this) = Rejected NotReady /\
  fst (getWorkflowItems key this) = Rejected NotReady /\
  fst (getResult key this) = Rejected NotReady /\
  fst (clearDatabase w this) = Rejected NotReady /\
  fst (storeAppInfo w payload this) = Rejected (null_db "transaction") /\
  fst (storeWorkflows w payload this) = Rejected (null_db "transaction") /\
  fst (storeItemBatch w batch this) = Rejected (null_db "transaction") /\
  name (null_db "transaction") = "TypeError" /\
  null_db "transaction" <> NotReady.
Proof.
  intros Hdb Hready.
  unfold getWorkflows, getWorkflowItems, getResult, clearDatabase,
    storeAppInfo, storeWorkflows, storeItemBatch.
  rewrite Hdb, Hready. simpl.
  repeat split; try reflexivity. discriminate.
Qed.

Lemma operations_before_initDB_witness :
  fst (getResult (VStr "a") new_DBManager) = Rejected NotReady /\
  fst (storeAppInfo world_500 (VObj []) new_DBManager) =
    Rejected (null_db "transaction") /\
  null_db "transaction" <> NotReady.
Proof.
  pose proof (operations_before_initDB world_500 new_DBManager
                (VStr "a") (VObj []) [] eq_refl eq_refl) as H.
  split; [apply H|]. split; apply H.
Defined.

(** ** The steps of an import run *)

(** Case analysis on an innermost scrutinee of the goal. *)
Ltac break_match :=
  match goal with
  | |- context [match ?x with _ => _ end] =>
      lazymatch x with
      | context [match _ with _ => _ end] => fail
      | _ => destruct x eqn:?
      end
  end.

Lemma fetch_loop_some_ok (fetch : nat -> Attempt) (retries : nat)
    (r : Response) :
  forall fuel i,
  fst (fetch_loop fetch retries i fuel) = Resolved (Some r) -> ok r = true.
Proof.
  induction fuel as [|fuel IH]; intros i.
  - discriminate.
  - rewrite fetch_loop_step. cbv zeta.
    destruct (fetch i) as [e|r'].
    + destruct (i =? retries - 1)%nat; [discriminate|]. simpl. apply IH.
    + destruct (ok r') eqn:E; simpl.
      * intros H. inversion H. subst. exact E.
      * apply IH.
Qed.

Lemma fetchWithRetry_some_ok (fetch : nat -> Attempt) (retries : nat)
    (r : Response) :
  fst (fetchWithRetry fetch retries) = Resolved (Some r) -> ok r = true.
Proof. apply fetch_loop_some_ok. Qed.

Lemma clearStep_opened (w : World) (this : DBManager) (d : Database) :
  ready this = true -> db this = Some d ->
  clearStep w this =
  match idb_clear_error w with
  | None => (Resolved [], set_db empty_db this)
  | Some e =>
      (Resolved ["Warning: Failed to clear database: " ++ message e], this)
  end.
Proof.
  intros Hr Hd. unfold clearStep, try_catch, bind, ret, clearDatabase.
  rewrite Hr, Hd. simpl. destruct (idb_clear_error w); reflexivity.
Qed.

Lemma loadIndex_resolves (w : World) (this : DBManager) :
  exists es l,
    loadIndex w this =
    (Resolved es, mkDBManager (db this) (ready this) (VArr l)).
Proof.
  unfold loadIndex, try_catch, bind, lift, throw, ret, set_itemIndex,
    read_json, unusable.
  destruct (fst (fetchWithRetry (net w "./data/item-index.json") 3))
    as [[r|]|e]; simpl; try (eexists; eexists; reflexivity).
  destruct (ok r); simpl; try (eexists; eexists; reflexivity).
  destruct (body r) as [e| |e|v]; simpl; try (eexists; eexists; reflexivity).
  destruct v; simpl; eexists; eexists; reflexivity.
Qed.

Lemma loadIndex_loaded (w : World) (this : DBManager) (r : Response)
    (index : list value) :
  fst (fetchWithRetry (net w "./data/item-index.json") 3) = Resolved (Some r) ->
  body r = Json (VArr index) ->
  loadIndex w this =
  (Resolved [], mkDBManager (db this) (ready this) (VArr index)).
Proof.
  intros Hf Hb. pose proof (fetchWithRetry_some_ok _ _ _ Hf) as Hok.
  unfold loadIndex, try_catch, bind, lift, throw, ret, set_itemIndex,
    read_json, unusable.
  rewrite Hf. simpl. rewrite Hok, Hb. reflexivity.
Qed.

Lemma loadIndex_ignores_itemIndex (w : World) (d : option Database)
    (r : bool) (ix ix' : value) :
  loadIndex w (mkDBManager d r ix) = loadIndex w (mkDBManager d r ix').
Proof.
  unfold loadIndex, try_catch, bind, lift, throw, ret, set_itemIndex,
    read_json, unusable.
  repeat (break_match; simpl in *; try congruence).
Qed.

Lemma loadAppInfo_cases (w : World) (this : DBManager) (d : Database) :
  db this = Some d ->
  (idb_put_error w AppInfo (VStr "appInfo") = None /\
   exists es c,
     loadAppInfo w this = (Resolved es, set_db (set_appInfo c d) this)) \/
  (exists e,
     idb_put_error w AppInfo (VStr "appInfo") = Some e /\
     loadAppInfo w this = (Rejected e, this)).
Proof.
  intros Hd.
  unfold loadAppInfo, try_catch, bind, lift, throw, ret, storeAppInfo,
    read_json, unusable, get_prop.
  destruct (idb_put_error w AppInfo (VStr "appInfo")) as [e|] eqn:Hput.
  - right. exists e. split; [reflexivity|].
    repeat (break_match; simpl in *; rewrite ?Hd in *; try congruence).
  - left. split; [reflexivity|].
    repeat (break_match; simpl in *; rewrite ?Hd in *; try congruence);
      try (eexists; eexists; reflexivity).
Qed.

Lemma loadWorkflows_cases (w : World) (this : DBManager) (d : Database) :
  db this = Some d ->
  exists es,
    loadWorkflows w this = (Resolved es, this) \/
    es = [] /\
    exists validated,
      fst (fetchWithRetry (net w "./data/workflows.json") 3) <> Resolved None /\
      loadWorkflows w this =
      (Resolved [],
       set_db (set_workflows
                 (commit (workflow_puts validated) (workflows d)) d) this).
Proof.
  intros Hd.
  unfold loadWorkflows, try_catch, bind, lift, throw, ret, storeWorkflows,
    read_json, unusable.
  destruct (fst (fetchWithRetry (net w "./data/workflows.json") 3))
    as [[r|]|e]; simpl; try (eexists; left; reflexivity).
  destruct (ok r); simpl; try (eexists; left; reflexivity).
  destruct (body r) as [e| |e|v]; simpl; try (eexists; left; reflexivity).
  destruct (normalize_workflows v) as [validated|e]; simpl;
    try (eexists; left; reflexivity).
  rewrite Hd.
  destruct (first_refused w Workflows (workflow_puts validated) 0)
    as [[pos e]|]; simpl; try (eexists; left; reflexivity).
  exists []. right. split; [reflexivity|]. exists validated.
  split; [discriminate | reflexivity].
Qed.

(** ** Item batches *)

Lemma map_filter_map {A B} (f : A -> option B) (l : list A) :
  map_filter (fun o : option B => o) (map f l) = map_filter f l.
Proof.
  induction l as [|a l IH]; simpl; [reflexivity|].
  destruct (f a); rewrite IH; reflexivity.
Qed.

Lemma map_filter_app {A B} (f : A -> option B) (l1 l2 : list A) :
  map_filter f (l1 ++ l2)%list = (map_filter f l1 ++ map_filter f l2)%list.
Proof.
  induction l1 as [|a l1 IH]; simpl; [reflexivity|].
  destruct (f a); rewrite IH; reflexivity.
Qed.

Lemma map_filter_In {A B} (f : A -> option B) (l : list A) (b : B) :
  In b (map_filter f l) <-> exists a, In a l /\ f a = Some b.
Proof.
  induction l as [|a l IH]; simpl.
  - split; [contradiction | intros [a [[] _]]].
  - destruct (f a) as [b'|] eqn:E; simpl; rewrite IH; split.
    + intros [->|[a' [Hin Hf]]]; [exists a; auto | exists a'; auto].
    + intros [a' [[->|Hin] Hf]]; [left; congruence | right; exists a'; auto].
    + intros [a' [Hin Hf]]. exists a'. auto.
    + intros [a' [[->|Hin] Hf]]; [congruence | exists a'; auto].
Qed.

Lemma load_failures_map (w : World) (batch : list value) :
  List.length
    (filter (fun o : option value =>
               match o with None => true | Some _ => false end)
            (map (loadItem w) batch)) = load_failures w batch.
Proof.
  unfold load_failures. induction batch as [|e batch IH]; simpl.
  - reflexivity.
  - destruct (loadItem w e); simpl; rewrite IH; reflexivity.
Qed.

Lemma load_failures_app (w : World) (l1 l2 : list value) :
  load_failures w (l1 ++ l2)%list = load_failures w l1 + load_failures w l2.
Proof.
  unfold load_failures. rewrite filter_app, length_app. reflexivity.
Qed.

Lemma loaded_plus_failures (w : World) (l : list value) :
  List.length (loaded w l) + load_failures w l = List.length l.
Proof.
  unfold loaded, load_failures. induction l as [|e l IH]; simpl.
  - reflexivity.
  - destruct (loadItem w e); simpl; lia.
Qed.

Lemma issued_puts_accepted (w : World) (records : list value) :
  Forall (accepted w) records -> issued_puts records = puts_of records.
Proof.
  induction 1 as [|r records [Hkey _] _ IH]; simpl.
  - reflexivity.
  - rewrite Hkey, IH. reflexivity.
Qed.

Lemma first_refused_accepted (w : World) (records : list value) (pos : nat) :
  Forall (accepted w) records ->
  first_refused w Items (puts_of records) pos = None.
Proof.
  intros H. revert pos. induction H as [|r records [_ Hput] _ IH]; intros pos.
  - reflexivity.
  - simpl. rewrite Hput. apply IH.
Qed.

Lemma issued_puts_from (records : list value) :
  Forall (fun p => fst p = prop (snd p) "uniqueId" /\ In (snd p) records)
         (issued_puts records).
Proof.
  induction records as [|r records IH]; simpl.
  - constructor.
  - destruct (valid_key (prop r "uniqueId")); constructor.
    + simpl. auto.
    + eapply Forall_impl; [|exact IH]. simpl. intros p [H1 H2]. auto.
Qed.

Lemma stores_items_refl (this : DBManager) (d : Database) :
  db this = Some d -> stores_items this this (items d).
Proof.
  intros Hd. exists d. rewrite Hd. destruct d. repeat split; reflexivity.
Qed.

Lemma stores_items_set (this : DBManager) (d : Database) (c : Collection) :
  db this = Some d -> stores_items this (set_db (set_items c d) this) c.
Proof. intros Hd. exists d. repeat split; auto. Qed.

Lemma stores_items_trans (this1 this2 this3 : DBManager) (c c' : Collection) :
  stores_items this1 this2 c -> stores_items this2 this3 c' ->
  stores_items this1 this3 c'.
Proof.
  intros [d [Hd [Hd' [Hr Hi]]]] [d2 [Hd2 [Hd2' [Hr2 Hi2]]]].
  exists d. rewrite Hd' in Hd2. inversion Hd2. subst d2.
  split; [exact Hd|]. split; [exact Hd2'|]. split; congruence.
Qed.

Lemma stores_items_items (this this' : DBManager) (c : Collection) :
  stores_items this this' c -> items_of this' = c.
Proof.
  intros [d [_ [Hd' _]]]. unfold items_of. rewrite Hd'. reflexivity.
Qed.

(** A batch whose loaded records are all accepted by the store: the tallies
    are the numbers of loaded and of failed entries, and the transaction
    commits the loaded records. *)
Lemma storeItemBatch_accepted (w : World) (batch : list value)
    (this : DBManager) (d : Database) :
  db this = Some d ->
  Forall (accepted w) (loaded w batch) ->
  exists this',
    storeItemBatch w batch this =
    (Resolved (mkBatchResult (List.length (loaded w batch))
                             (load_failures w batch)), this') /\
    stores_items this this' (commit (puts_of (loaded w batch)) (items d)).
Proof.
  intros Hd Hacc. unfold storeItemBatch.
  rewrite Hd, map_filter_map, load_failures_map. fold (loaded w batch).
  destruct (loaded w batch) as [|r records] eqn:Hl.
  - simpl. exists this. split; [reflexivity|]. apply stores_items_refl, Hd.
  - rewrite (issued_puts_accepted w _ Hacc).
    rewrite (first_refused_accepted w _ 0 Hacc).
    unfold puts_of at 1. rewrite length_map, Nat.ltb_irrefl.
    cbn [List.length Nat.eqb].
    eexists. split; [reflexivity|]. apply stores_items_set, Hd.
Qed.

(** Any batch, whatever the store answers: the 'items' store afterwards is
    the one before with some records of the batch put in it, and nothing
    else of the manager changes. *)
Lemma storeItemBatch_frame (w : World) (batch : list value)
    (this : DBManager) (d : Database) :
  db this = Some d ->
  exists o this' puts,
    storeItemBatch w batch this = (o, this') /\
    stores_items this this' (commit puts (items d)) /\
    Forall (fun p => fst p = prop (snd p) "uniqueId" /\
                     In (snd p) (loaded w batch)) puts.
Proof.
  intros Hd. unfold storeItemBatch.
  rewrite Hd, map_filter_map, load_failures_map. fold (loaded w batch).
  assert (Hsame : forall o : outcome BatchResult,
            exists o' this' puts,
              (o, this) = (o', this') /\
              stores_items this this' (commit puts (items d)) /\
              Forall (fun p => fst p = prop (snd p) "uniqueId" /\
                               In (snd p) (loaded w batch)) puts).
  { intros o. exists o, this, []. split; [reflexivity|].
    split; [apply stores_items_refl, Hd | constructor]. }
  destruct (List.length (loaded w batch) =? 0)%nat; [apply Hsame|].
  destruct (first_refused w Items (issued_puts (loaded w batch)) 0)
    as [[pos e]|].
  - repeat break_match; apply Hsame.
  - break_match;
      (eexists; eexists; exists (issued_puts (loaded w batch));
       split; [reflexivity|];
       split; [apply stores_items_set, Hd | apply issued_puts_from]).
Qed.

Lemma commit_app (p1 p2 : list (value * value)) (c : Collection) :
  commit (p1 ++ p2)%list c = commit p2 (commit p1 c).
Proof. unfold commit. apply fold_left_app. Qed.

Lemma skipn_batch (index : list value) (i : nat) :
  skipn i index = (firstn 5 (skipn i index) ++ skipn (i + 5) index)%list.
Proof.
  rewrite (Nat.add_comm i 5), <- skipn_skipn. symmetry. apply firstn_skipn.
Qed.

Lemma loaded_skipn_In (w : World) (index : list value) (i : nat) (r : value) :
  In r (loaded w (skipn i index)) -> In r (loaded w index).
Proof.
  intros H. rewrite <- (firstn_skipn i index). unfold loaded in *.
  rewrite map_filter_app. apply in_or_app. right. exact H.
Qed.

Lemma loaded_batch_In (w : World) (index : list value) (i : nat) (r : value) :
  In r (loaded w (firstn 5 (skipn i index))) -> In r (loaded w index).
Proof.
  intros H. apply (loaded_skipn_In w index i). rewrite (skipn_batch index i).
  unfold loaded in *. rewrite map_filter_app. apply in_or_app. left. exact H.
Qed.

(** The loop, whatever the store answers: it only puts loaded records into
    the 'items' store. *)
Lemma item_batches_frame (w : World) (index : list value) (totalItems : nat) :
  forall fuel i acc this d,
  db this = Some d ->
  exists acc' this' puts,
    item_batches w index totalItems fuel i acc this = (acc', this') /\
    stores_items this this' (commit puts (items d)) /\
    Forall (fun p => fst p = prop (snd p) "uniqueId" /\
                     In (snd p) (loaded w index)) puts.
Proof.
  induction fuel as [|fuel IH]; intros i acc this d Hd.
  - exists acc, this, []. split; [reflexivity|].
    split; [apply stores_items_refl, Hd | constructor].
  - cbn [item_batches]. destruct (i <? totalItems)%nat.
    + destruct (storeItemBatch_frame w (firstn 5 (skipn i index)) this d Hd)
        as [o [this1 [puts1 [Hrun [Hst Hfrom]]]]].
      rewrite Hrun.
      assert (Hd1 : db this1 = Some (set_items (commit puts1 (items d)) d)).
      { destruct Hst as [d0 [Hd0 [Hd1 _]]]. congruence. }
      assert (Hfrom1 : Forall (fun p => fst p = prop (snd p) "uniqueId" /\
                                        In (snd p) (loaded w index)) puts1).
      { eapply Forall_impl; [|exact Hfrom]. simpl. intros p [H1 H2].
        split; [exact H1|]. eapply loaded_batch_In. exact H2. }
      destruct o as [result|batchError];
        match goal with
        | |- context [item_batches w index totalItems fuel (i + 5) ?a this1] =>
            destruct (IH (i + 5) a this1 _ Hd1)
              as [acc' [this' [puts2 [Hrun2 [Hst2 Hfrom2]]]]]
        end;
        exists acc', this', (puts1 ++ puts2)%list;
        (split; [exact Hrun2|]);
        (split; [| apply Forall_app; split; assumption]);
        rewrite commit_app;
        (eapply stores_items_trans; [exact Hst | exact Hst2]).
    + exists acc, this, []. split; [reflexivity|].
      split; [apply stores_items_refl, Hd | constructor].
Qed.

(** The loop over an index whose loaded records the store accepts. *)
Lemma item_batches_accepted (w : World) (index : list value) :
  forall fuel i acc this d,
  db this = Some d ->
  List.length index - i <= fuel ->
  Forall (accepted w) (loaded w (skipn i index)) ->
  exists acc' this',
    item_batches w index (List.length index) fuel i acc this = (acc', this') /\
    processedItems acc' =
      processedItems acc + List.length (loaded w (skipn i index)) /\
    failedItems acc' = failedItems acc + load_failures w (skipn i index) /\
    batchErrors acc' = batchErrors acc /\
    stores_items this this'
      (commit (puts_of (loaded w (skipn i index))) (items d)).
Proof.
  assert (Hdone : forall i acc this d,
            db this = Some d -> List.length index <= i ->
            exists acc' this',
              (acc, this) = (acc', this') /\
              processedItems acc' =
                processedItems acc + List.length (loaded w (skipn i index)) /\
              failedItems acc' =
                failedItems acc + load_failures w (skipn i index) /\
              batchErrors acc' = batchErrors acc /\
              stores_items this this'
                (commit (puts_of (loaded w (skipn i index))) (items d))).
  { intros i acc this d Hd Hi. exists acc, this.
    rewrite (skipn_all2 index Hi). cbn.
    repeat split; try lia. apply stores_items_refl, Hd. }
  induction fuel as [|fuel IH]; intros i acc this d Hd Hfuel Hacc.
  - apply Hdone; [exact Hd | lia].
  - cbn [item_batches]. destruct (i <? List.length index)%nat eqn:Hi.
    + assert (Hl : loaded w (skipn i index) =
                   (loaded w (firstn 5 (skipn i index)) ++
                    loaded w (skipn (i + 5) index))%list).
      { rewrite (skipn_batch index i) at 1. apply map_filter_app. }
      assert (Hlf : load_failures w (skipn i index) =
                    load_failures w (firstn 5 (skipn i index)) +
                    load_failures w (skipn (i + 5) index)).
      { rewrite (skipn_batch index i) at 1. apply load_failures_app. }
      rewrite Hl in Hacc. apply Forall_app in Hacc.
      destruct Hacc as [Hacc1 Hacc2].
      destruct (storeItemBatch_accepted w (firstn 5 (skipn i index)) this d
                  Hd Hacc1) as [this1 [Hrun Hst]].
      rewrite Hrun.
      assert (Hd1 : db this1 = Some (set_items
                (commit (puts_of (loaded w (firstn 5 (skipn i index))))
                        (items d)) d)).
      { destruct Hst as [d0 [Hd0 [Hd1 _]]]. congruence. }
      match goal with
      | |- context [item_batches w index _ fuel (i + 5) ?a this1] =>
          destruct (IH (i + 5) a this1 _ Hd1 ltac:(lia) Hacc2)
            as [acc' [this' [Hrun2 [Hp [Hf [He Hst2]]]]]]
      end.
      exists acc', this'. split; [exact Hrun2|].
      cbn [processedItems failedItems batchErrors succeeded failed] in Hp, Hf, He.
      rewrite Hl, Hlf, length_app.
      unfold puts_of. rewrite map_app, commit_app.
      split; [lia|]. split; [lia|]. split; [exact He|].
      eapply stores_items_trans; [exact Hst | exact Hst2].
    + apply Hdone; [exact Hd|]. apply Nat.ltb_ge in Hi. exact Hi.
Qed.

(** ** The whole run *)

(** The run up to the application information, on an open database. *)
Lemma import_steps_opened (w : World) (this : DBManager) (d : Database) :
  ready this = true -> db this = Some d ->
  exists e1 e2 l,
    loadIndex w (mkDBManager (Some (after_clear w d)) true (itemIndex this)) =
      (Resolved e2, mkDBManager (Some (after_clear w d)) true (VArr l)) /\
    import_steps w this =
    match loadAppInfo w (mkDBManager (Some (after_clear w d)) true (VArr l)) with
    | (Resolved e3, this3) =>
        match loadWorkflows w this3 with
        | (Resolved e4, this4) => loadItems w (e1 ++ e2 ++ e3 ++ e4)%list this4
        | (Rejected e, this4) => (Rejected e, this4)
        end
    | (Rejected e, this3) => (Rejected e, this3)
    end.
Proof.
  intros Hr Hd. unfold import_steps, bind at 1.
  rewrite (clearStep_opened w this d Hr Hd).
  assert (Hstate : exists e1,
            (match idb_clear_error w with
             | None => (Resolved [], set_db empty_db this)
             | Some e =>
                 (Resolved ["Warning: Failed to clear database: " ++ message e],
                  this)
             end) =
            (Resolved e1,
             mkDBManager (Some (after_clear w d)) true (itemIndex this))).
  { unfold after_clear, set_db. destruct (idb_clear_error w).
    - eexists. destruct this as [d0 r0 i0]. simpl in *. subst. reflexivity.
    - eexists. rewrite Hr. reflexivity. }
  destruct Hstate as [e1 ->].
  destruct (loadIndex_resolves w
              (mkDBManager (Some (after_clear w d)) true (itemIndex this)))
    as [e2 [l Hix]].
  simpl in Hix. exists e1, e2, l. split; [exact Hix|].
  unfold bind at 1. rewrite Hix. unfold bind at 1.
  destruct (loadAppInfo w _) as [[e3|e] this3]; [|reflexivity].
  unfold bind at 1. destruct (loadWorkflows w this3) as [[e4|e] this4];
    reflexivity.
Qed.

Lemma loadItems_completes (w : World) (errors : list string)
    (this : DBManager) :
  exists r this',
    loadItems w errors this = (Resolved r, this') /\ returned r = true.
Proof.
  unfold loadItems.
  destruct (0 <? _)%nat.
  - destruct (item_batches w _ _ _ 0 (mkTally 0 0 []) this) as [tally this'].
    eexists. eexists. split; reflexivity.
  - eexists. eexists. split; reflexivity.
Qed.

Lemma import_steps_result (w : World) (this : DBManager) (d : Database) :
  ready this = true -> db this = Some d ->
  match idb_put_error w AppInfo (VStr "appInfo") with
  | None =>
      exists r this',
        import_steps w this = (Resolved r, this') /\ returned r = true
  | Some e => exists this', import_steps w this = (Rejected e, this')
  end.
Proof.
  intros Hr Hd.
  destruct (import_steps_opened w this d Hr Hd) as [e1 [e2 [l [_ ->]]]].
  destruct (loadAppInfo_cases w
              (mkDBManager (Some (after_clear w d)) true (VArr l))
              (after_clear w d) eq_refl)
    as [[Hput [e3 [c Happ]]] | [e [Hput Happ]]]; rewrite Hput, Happ.
  - destruct (loadWorkflows_cases w
                (set_db (set_appInfo c (after_clear w d))
                   (mkDBManager (Some (after_clear w d)) true (VArr l)))
                _ eq_refl) as [e4 [Hwf | [_ [validated [_ Hwf]]]]];
      rewrite Hwf; apply loadItems_completes.
  - eexists. reflexivity.
Qed.

Lemma importData_opened (w : World) (this : DBManager) :
  ready this = true ->
  importData w this =
  match import_steps w this with
  | (Resolved r, this2) => (r, this2)
  | (Rejected error, this2) =>
      (Failed ("Critical error during import: " ++ message error), this2)
  end.
Proof. intros Hr. unfold importData. rewrite Hr. reflexivity. Qed.

Lemma importData_closed (w : World) (this : DBManager) :
  ready this = false ->
  importData w this =
  match idb_open w with
  | Resolved d => importData w (mkDBManager (Some d) true (itemIndex this))
  | Rejected e =>
      (Failed ("Failed to initialize database: " ++ message e), this)
  end.
Proof.
  intros Hr. unfold importData, initDB. rewrite Hr.
  destruct (idb_open w); reflexivity.
Qed.

Lemma importData_opened_returned (w : World) (this : DBManager) (d : Database) :
  ready this = true -> db this = Some d ->
  returned (fst (importData w this)) =
  match idb_put_error w AppInfo (VStr "appInfo") with
  | None => true
  | Some _ => false
  end.
Proof.
  intros Hr Hd. rewrite (importData_opened w this Hr).
  pose proof (import_steps_result w this d Hr Hd) as H.
  destruct (idb_put_error w AppInfo (VStr "appInfo")) as [e|].
  - destruct H as [this' ->]. reflexivity.
  - destruct H as [r [this' [-> Hret]]]. exact Hret.
Qed.

(** C1.  On a manager whose database opens (it is ready already, or
    [indexedDB.open] succeeds), [importData] returns [true] whatever the
    clearing transaction, the three fetches, the workflow write and the item
    batches do, as long as the store takes the application-information
    record.  It returns [false] in two cases only: the database does not
    open, or the store refuses that record, which is the one rejection no
    step catches (the fallback write sits in the [catch] block itself). *)
Theorem importData_returns_true_once_opened (w : World) (this : DBManager) :
  consistent this ->
  ((ready this = true \/ exists d, idb_open w = Resolved d) ->
   idb_put_error w AppInfo (VStr "appInfo") = None ->
   returned (fst (importData w this)) = true) /\
  (returned (fst (importData w this)) = false ->
   (ready this = false /\ exists e, idb_open w = Rejected e) \/
   (exists e, idb_put_error w AppInfo (VStr "appInfo") = Some e)).
Proof.
  intros Hcons. destruct (ready this) eqn:Hr.
  - destruct (Hcons Hr) as [d Hd].
    rewrite (importData_opened_returned w this d Hr Hd).
    destruct (idb_put_error w AppInfo (VStr "appInfo")) as [e|]; split;
      try congruence.
    intros _. right. exists e. reflexivity.
  - rewrite (importData_closed w this Hr). destruct (idb_open w) as [d|e].
    + rewrite (importData_opened_returned w
                 (mkDBManager (Some d) true (itemIndex this)) d
                 eq_refl eq_refl).
      destruct (idb_put_error w AppInfo (VStr "appInfo")) as [e|]; split;
        try congruence.
      intros _. right. exists e. reflexivity.
    + split.
      * intros [H|[d H]]; discriminate.
      * intros _. left. split; [reflexivity|]. exists e. reflexivity.
Qed.

Lemma importData_opens (w : World) (this : DBManager) (d : Database) :
  opens w this d ->
  exists this0,
    importData w this = importData w this0 /\
    ready this0 = true /\ db this0 = Some d.
Proof.
  intros [[Hr Hd] | [Hr Ho]].
  - exists this. auto.
  - exists (mkDBManager (Some d) true (itemIndex this)).
    rewrite (importData_closed w this Hr), Ho. auto.
Qed.

(** The run up to the item loop, when the index loads and the store takes
    the application information. *)
Lemma import_steps_prefix (w : World) (this : DBManager) (d : Database)
    (index : list value) :
  ready this = true -> db this = Some d ->
  idb_put_error w AppInfo (VStr "appInfo") = None ->
  index_is w index ->
  exists errs this4 d4,
    import_steps w this = loadItems w errs this4 /\
    db this4 = Some d4 /\ items d4 = items (after_clear w d) /\
    itemIndex this4 = VArr index /\ ready this4 = true.
Proof.
  intros Hr Hd Hput [r [Hfetch Hbody]].
  destruct (import_steps_opened w this d Hr Hd) as [e1 [e2 [l [Hix ->]]]].
  rewrite (loadIndex_loaded w _ r index Hfetch Hbody) in Hix.
  simpl in Hix. inversion Hix. subst e2 l. clear Hix.
  destruct (loadAppInfo_cases w
              (mkDBManager (Some (after_clear w d)) true (VArr index))
              (after_clear w d) eq_refl)
    as [[_ [e3 [c Happ]]] | [e [Hput' _]]]; [|congruence].
  rewrite Happ.
  destruct (loadWorkflows_cases w
              (set_db (set_appInfo c (after_clear w d))
                 (mkDBManager (Some (after_clear w d)) true (VArr index)))
              _ eq_refl) as [e4 [Hwf | [_ [validated [_ Hwf]]]]];
    rewrite Hwf; eexists; eexists; eexists;
    (split; [reflexivity|]); repeat split; reflexivity.
Qed.

(** A run in which the store accepts every record that loads. *)
Lemma importData_accepted (w : World) (this : DBManager) (d : Database)
    (index : list value) :
  opens w this d ->
  idb_put_error w AppInfo (VStr "appInfo") = None ->
  index_is w index ->
  Forall (accepted w) (loaded w index) ->
  exists errs this',
    importData w this =
    (Completed
       (errs ++ if (0 <? load_failures w index)%nat
                then [items_failed_msg (load_failures w index)] else [])%list
       (List.length (loaded w index)) (load_failures w index), this') /\
    items_of this' =
      commit (puts_of (loaded w index)) (items (after_clear w d)) /\
    opened this'.
Proof.
  intros Hopens Hput Hindex Hacc.
  destruct (importData_opens w this d Hopens) as [this0 [-> [Hr Hd]]].
  rewrite (importData_opened w this0 Hr).
  destruct (import_steps_prefix w this0 d index Hr Hd Hput Hindex)
    as [errs [this4 [d4 [-> [Hd4 [Hitems [Hix Hr4]]]]]]].
  unfold loadItems. rewrite Hix.
  destruct (0 <? List.length index)%nat eqn:Hlen.
  - destruct (item_batches_accepted w index (List.length index) 0
                (mkTally 0 0 []) this4 d4 Hd4 ltac:(lia) Hacc)
      as [acc' [this' [Hrun [Hp [Hf [He Hst]]]]]].
    rewrite Hrun. simpl in Hp, Hf, He. rewrite Hp, Hf, He.
    cbn [skipn app]. exists errs, this'. split; [reflexivity|].
    split.
    + rewrite (stores_items_items _ _ _ Hst), Hitems. reflexivity.
    + destruct Hst as [d0 [_ [Hd' [Hr' _]]]]. split; [congruence|].
      eexists. exact Hd'.
  - apply Nat.ltb_ge in Hlen.
    assert (index = []) as -> by (destruct index; [reflexivity | simpl in Hlen; lia]).
    cbn. exists errs, this4. rewrite app_nil_r. split; [reflexivity|].
    split.
    + unfold items_of. rewrite Hd4. exact Hitems.
    + split; [exact Hr4|]. eexists. exact Hd4.
Qed.

(** C3.  Take a run whose index has N entries of which exactly one fails to
    load, the store accepting the N-1 records that load.  The run completes
    with tallies N-1 and 1 and a warning list that is not empty, and the
    'items' store ends as the store left by the clearing step with the N-1
    loaded records put in it, in index order.  The same holds of a single
    call of [storeItemBatch] on these entries. *)
Theorem one_failed_item_still_completes
    (w : World) (this : DBManager) (d : Database) (index : list value) :
  opens w this d ->
  idb_put_error w AppInfo (VStr "appInfo") = None ->
  index_is w index ->
  load_failures w index = 1 ->
  Forall (accepted w) (loaded w index) ->
  (exists errors this',
     importData w this = (Completed errors (List.length index - 1) 1, this') /\
     errors <> [] /\
     items_of this' =
       commit (puts_of (loaded w index)) (items (after_clear w d))) /\
  List.length (loaded w index) = List.length index - 1 /\
  (forall this0 d0,
     db this0 = Some d0 ->
     exists this1,
       storeItemBatch w index this0 =
         (Resolved (mkBatchResult (List.length index - 1) 1), this1) /\
       stores_items this0 this1
         (commit (puts_of (loaded w index)) (items d0))).
Proof.
  intros Hopens Hput Hindex Hone Hacc.
  assert (Hlen : List.length (loaded w index) = List.length index - 1).
  { pose proof (loaded_plus_failures w index). lia. }
  split; [|split; [exact Hlen|]].
  - destruct (importData_accepted w this d index Hopens Hput Hindex Hacc)
      as [errs [this' [Hrun [Hitems _]]]].
    rewrite Hone, Hlen in Hrun. simpl in Hrun.
    eexists. exists this'. split; [exact Hrun|]. split; [|exact Hitems].
    intros H. apply app_eq_nil in H. destruct H as [_ H]. discriminate.
  - intros this0 d0 Hd0.
    destruct (storeItemBatch_accepted w index this0 d0 Hd0 Hacc)
      as [this1 [Hrun Hst]].
    rewrite Hone, Hlen in Hrun. exists this1. split; assumption.
Qed.

Lemma one_failed_item_still_completes_witness :
  exists errors this',
    importData scenario new_DBManager = (Completed errors 1 1, this') /\
    errors <> [] /\
    items_of this' =
      [ (VStr "a",
         VObj [ ("uniqueId", VStr "a"); ("workflowId", VStr "w1");
                ("itemName", VUndef);
                ("timestamp", VStr "2024-01-01T00:00:00.000Z");
                ("data", VObj [("v", VNum 1)]); ("settings", VObj []);
                ("name", VUndef); ("type", VUndef) ]) ].
Proof.
  refine (proj1 (one_failed_item_still_completes
                   scenario new_DBManager empty_db scenario_index
                   _ _ _ _ _)).
  - right. split; reflexivity.
  - reflexivity.
  - eexists. split; reflexivity.
  - reflexivity.
  - repeat constructor.
Defined.

(** ** Reading back what a run stored *)

Lemma commit_snoc (puts : list (value * value)) (k r : value) (c : Collection) :
  commit (puts ++ [(k, r)])%list c = coll_put k r (commit puts c).
Proof. rewrite commit_app. reflexivity. Qed.

Lemma commit_get_cases (k : value) (puts : list (value * value))
    (c : Collection) :
  coll_get k (commit puts c) = coll_get k c \/
  exists r, In (k, r) puts /\ coll_get k (commit puts c) = r.
Proof.
  induction puts as [|[k' r'] puts IH] using rev_ind.
  - left. reflexivity.
  - rewrite commit_snoc, coll_get_put.
    destruct (value_eqb k' k) eqn:E.
    + apply value_eqb_eq in E. subst k'. right. exists r'.
      split; [apply in_or_app; right; left; reflexivity | reflexivity].
    + destruct IH as [IH | [r [Hin IH]]]; [left; exact IH|].
      right. exists r. split; [apply in_or_app; left; exact Hin | exact IH].
Qed.

Lemma commit_get_put (k r0 : value) (puts : list (value * value))
    (c : Collection) :
  In (k, r0) puts ->
  exists r, In (k, r) puts /\ coll_get k (commit puts c) = r.
Proof.
  induction puts as [|[k' r'] puts IH] using rev_ind; [contradiction|].
  intros Hin. rewrite commit_snoc, coll_get_put.
  destruct (value_eqb k' k) eqn:E.
  - apply value_eqb_eq in E. subst k'. exists r'.
    split; [apply in_or_app; right; left; reflexivity | reflexivity].
  - apply in_app_or in Hin. destruct Hin as [Hin | [Heq | []]].
    + destruct (IH Hin) as [r [Hr Hget]]. exists r.
      split; [apply in_or_app; left; exact Hr | exact Hget].
    + inversion Heq. subst. rewrite value_eqb_refl in E. discriminate.
Qed.

(** What [loadItem] builds. *)
Lemma loadItem_record (w : World) (e r : value) :
  loadItem w e = Some r ->
  prop r "uniqueId" = prop e "id" /\
  prop r "data" <> VUndef /\
  exists response payload,
    fst (fetchWithRetry (net w (item_url (prop e "id"))) 2) =
      Resolved (Some response) /\
    body response = Json payload /\
    prop r "data" =
      match prop payload "data" with
      | VUndef => payload
      | d => d
      end.
Proof.
  unfold loadItem.
  destruct (negb (truthy e) || negb (truthy (prop e "id"))); [discriminate|].
  destruct (fst (fetchWithRetry (net w (item_url (prop e "id"))) 2))
    as [[response|]|err] eqn:Hfetch; try discriminate.
  destruct (negb (ok response)); [discriminate|].
  destruct (body response) as [err| |err|payload] eqn:Hbody; try discriminate.
  destruct (negb (truthy payload) || negb (typeof_object payload)) eqn:Hp;
    [discriminate|].
  intros H. inversion H. subst r. clear H.
  split; [reflexivity|]. split.
  - cbn. apply orb_false_iff in Hp. destruct Hp as [Hp _].
    destruct (prop payload "data") eqn:Hd; try discriminate.
    intros ->. discriminate.
  - exists response, payload. split; [reflexivity|]. split; [exact Hbody|].
    reflexivity.
Qed.

Lemma loaded_record_of_put (w : World) (entries : list value) (k r : value) :
  k = prop r "uniqueId" -> In r (loaded w entries) -> loaded_record w k r.
Proof.
  intros -> Hin. apply map_filter_In in Hin. destruct Hin as [e [_ He]].
  exists e. split; [exact He|].
  symmetry. apply (loadItem_record w e r He).
Qed.

Lemma batch_of_position (index : list value) (p q : nat) :
  5 * q <= p < 5 * q + 5 -> batch_of index p = firstn 5 (skipn (5 * q) index).
Proof.
  intros H. unfold batch_of.
  replace (p / 5) with q; [reflexivity|].
  apply (Nat.div_unique p 5 q (p - 5 * q)); lia.
Qed.

Lemma nth_error_batch (index : list value) (i p : nat) (e : value) :
  i <= p < i + 5 -> nth_error index p = Some e ->
  In e (firstn 5 (skipn i index)).
Proof.
  intros H He. apply (nth_error_In _ (p - i)).
  rewrite nth_error_firstn.
  replace (p - i <? 5)%nat with true by (symmetry; apply Nat.ltb_lt; lia).
  rewrite nth_error_skipn. replace (i + (p - i)) with p by lia. exact He.
Qed.

(** The loop from a batch boundary at or before position [p]: if the batch
    of [p] is accepted by the store, the record found afterwards under the
    id of entry [p] is one built for an entry with that id, whatever the
    store did with the other batches. *)
Lemma item_batches_imports (w : World) (index : list value) (p : nat)
    (e r : value) :
  nth_error index p = Some e ->
  loadItem w e = Some r ->
  Forall (accepted w) (loaded w (batch_of index p)) ->
  forall fuel q acc this d,
  5 * q <= p ->
  List.length index - 5 * q <= fuel ->
  db this = Some d ->
  exists acc' this' c,
    item_batches w index (List.length index) fuel (5 * q) acc this
      = (acc', this') /\
    stores_items this this' c /\
    loaded_record w (prop e "id") (coll_get (prop e "id") c).
Proof.
  intros He Hr Hacc.
  assert (Hp : p < List.length index).
  { apply nth_error_Some. congruence. }
  induction fuel as [|fuel IH]; intros q acc this d Hq Hfuel Hd; [lia|].
  cbn [item_batches].
  replace (5 * q <? List.length index)%nat with true
    by (symmetry; apply Nat.ltb_lt; lia).
  destruct (Nat.lt_ge_cases p (5 * q + 5)) as [Hin | Hlater].
  - (* this is the batch of position p *)
    rewrite (batch_of_position index p q ltac:(lia)) in Hacc.
    destruct (storeItemBatch_accepted w _ this d Hd Hacc) as [this1 [-> Hst]].
    assert (Hd1 : exists d1, db this1 = Some d1 /\
                             items d1 = commit
                               (puts_of (loaded w (firstn 5 (skipn (5 * q) index))))
                               (items d)).
    { destruct Hst as [d0 [Hd0 [Hd1 _]]]. eexists. split; [exact Hd1|].
      reflexivity. }
    destruct Hd1 as [d1 [Hd1 Hitems1]].
    match goal with
    | |- context [item_batches w index _ fuel _ ?a this1] =>
        destruct (item_batches_frame w index (List.length index) fuel
                    (5 * q + 5) a this1 d1 Hd1)
          as [acc' [this' [puts2 [Hrun [Hst2 Hfrom]]]]]
    end.
    exists acc', this', (commit puts2 (items d1)).
    split; [exact Hrun|]. split; [eapply stores_items_trans; eassumption|].
    assert (Hput : In (prop e "id", r)
                      (puts_of (loaded w (firstn 5 (skipn (5 * q) index))))).
    { unfold puts_of. apply in_map_iff. exists r. split.
      - f_equal. apply (loadItem_record w e r Hr).
      - apply map_filter_In. exists e. split; [|exact Hr].
        apply (nth_error_batch index (5 * q) p e); [lia | exact He]. }
    destruct (commit_get_cases (prop e "id") puts2 (items d1))
      as [Hsame | [r2 [Hin2 Hget2]]].
    + rewrite Hsame, Hitems1.
      destruct (commit_get_put _ _ _ (items d) Hput) as [r1 [Hin1 ->]].
      unfold puts_of in Hin1. apply in_map_iff in Hin1.
      destruct Hin1 as [r1' [Heq Hin1]]. inversion Heq. subst r1'.
      eapply loaded_record_of_put; [|exact Hin1]. congruence.
    + rewrite Hget2. rewrite Forall_forall in Hfrom.
      destruct (Hfrom _ Hin2) as [Hk Hl]. simpl in Hk, Hl.
      eapply loaded_record_of_put; eassumption.
  - (* an earlier batch *)
    destruct (storeItemBatch_frame w (firstn 5 (skipn (5 * q) index)) this d Hd)
      as [o [this1 [puts1 [-> [Hst _]]]]].
    assert (Hd1 : exists d1, db this1 = Some d1).
    { destruct Hst as [d0 [_ [Hd1 _]]]. eexists. exact Hd1. }
    destruct Hd1 as [d1 Hd1].
    replace (5 * q + 5) with (5 * S q) by lia.
    destruct o as [result|batchError];
      match goal with
      | |- context [item_batches w index _ fuel _ ?a this1] =>
          destruct (IH (S q) a this1 d1 ltac:(lia) ltac:(lia) Hd1)
            as [acc' [this' [c [Hrun [Hst2 Hrec]]]]]
      end;
      exists acc', this', c;
      (split; [exact Hrun|]);
      (split; [eapply stores_items_trans; eassumption | exact Hrec]).
Qed.

(** C5.  Let entry [p] of the index load, in a run that completes and whose
    store accepts the records of that entry's batch.  After the run,
    [getResult] on the entry's id resolves to a record whose 'uniqueId' is
    that id and whose 'data' is defined: it is the 'data' property of the
    item's file, or the whole payload when the file has none. *)
Theorem getResult_returns_imported_item
    (w : World) (this : DBManager) (d : Database) (index : list value)
    (p : nat) (e r : value) :
  opens w this d ->
  idb_put_error w AppInfo (VStr "appInfo") = None ->
  index_is w index ->
  nth_error index p = Some e ->
  loadItem w e = Some r ->
  Forall (accepted w) (loaded w (batch_of index p)) ->
  exists stored,
    fst (getResult (prop e "id") (snd (importData w this))) = Resolved stored /\
    prop stored "uniqueId" = prop e "id" /\
    prop stored "data" <> VUndef /\
    exists response payload,
      fst (fetchWithRetry (net w (item_url (prop e "id"))) 2) =
        Resolved (Some response) /\
      body response = Json payload /\
      prop stored "data" =
        match prop payload "data" with
        | VUndef => payload
        | data => data
        end.
Proof.
  intros Hopens Hput Hindex He Hr Hacc.
  assert (Hp : p < List.length index).
  { apply nth_error_Some. congruence. }
  assert (Hkey : valid_key (prop e "id") = true).
  { rewrite Forall_forall in Hacc.
    destruct (Hacc r) as [Hv _].
    - apply map_filter_In. exists e. split; [|exact Hr].
      unfold batch_of.
      apply (nth_error_batch index (5 * (p / 5)) p e); [|exact He].
      pose proof (Nat.div_mod_eq p 5) as Hdm.
      pose proof (Nat.mod_upper_bound p 5 ltac:(lia)). lia.
    - destruct (loadItem_record w e r Hr) as [<- _]. exact Hv. }
  destruct (importData_opens w this d Hopens) as [this0 [-> [Hr0 Hd0]]].
  rewrite (importData_opened w this0 Hr0).
  destruct (import_steps_prefix w this0 d index Hr0 Hd0 Hput Hindex)
    as [errs [this4 [d4 [-> [Hd4 [Hitems [Hix Hr4]]]]]]].
  unfold loadItems. rewrite Hix.
  replace (0 <? List.length index)%nat with true
    by (symmetry; apply Nat.ltb_lt; lia).
  pose proof (item_batches_imports w index p e r He Hr Hacc
                (List.length index) 0 (mkTally 0 0 []) this4 d4
                ltac:(lia) ltac:(lia) Hd4) as Hloop.
  change (5 * 0) with 0 in Hloop.
  destruct Hloop as [acc' [this' [c [Hrun [Hst Hrec]]]]].
  rewrite Hrun. cbn [fst snd].
  destruct Hst as [d0 [Hd40 [Hd' [Hr' _]]]].
  unfold getResult. rewrite Hr', Hr4, Hd', Hkey. cbn [negb fst items set_items].
  exists (coll_get (prop e "id") c). split; [reflexivity|].
  destruct Hrec as [e' [Hl' Hid']].
  destruct (loadItem_record w e' _ Hl')
    as [Hu [Hdata [response [payload [Hf [Hb Hdef]]]]]].
  rewrite Hid' in Hu, Hf.
  split; [exact Hu|]. split; [exact Hdata|].
  exists response, payload. auto.
Qed.

Lemma getResult_returns_imported_item_witness :
  exists stored,
    fst (getResult (VStr "a") (snd (importData scenario new_DBManager)))
      = Resolved stored /\
    prop stored "uniqueId" = VStr "a" /\
    prop stored "data" <> VUndef /\
    exists response payload,
      fst (fetchWithRetry (net scenario (item_url (VStr "a"))) 2) =
        Resolved (Some response) /\
      body response = Json payload /\
      prop stored "data" =
        match prop payload "data" with
        | VUndef => payload
        | data => data
        end.
Proof.
  refine (getResult_returns_imported_item
            scenario new_DBManager empty_db scenario_index 0
            (VObj [("id", VStr "a"); ("workflowId", VStr "w1")])
            (VObj [ ("uniqueId", VStr "a"); ("workflowId", VStr "w1");
                    ("itemName", VUndef);
                    ("timestamp", VStr "2024-01-01T00:00:00.000Z");
                    ("data", VObj [("v", VNum 1)]); ("settings", VObj []);
                    ("name", VUndef); ("type", VUndef) ])
            _ _ _ _ _ _).
  - right. split; reflexivity.
  - reflexivity.
  - eexists. split; reflexivity.
  - reflexivity.
  - reflexivity.
  - repeat constructor.
Defined.

Lemma importData_returns_true_once_opened_witness :
  consistent new_DBManager /\
  (exists d, idb_open world_500 = Resolved d) /\
  idb_put_error world_500 AppInfo (VStr "appInfo") = None /\
  returned (fst (importData world_500 new_DBManager)) = true.
Proof.
  assert (Hc : consistent new_DBManager) by (intros H; discriminate H).
  assert (Ho : exists d, idb_open world_500 = Resolved d)
    by (exists empty_db; reflexivity).
  split; [exact Hc|]. split; [exact Ho|]. split; [reflexivity|].
  apply (proj1 (importData_returns_true_once_opened world_500 new_DBManager Hc)).
  - right. exact Ho.
  - reflexivity.
Defined.

(** ** Importing twice *)

Lemma stores_items_opened (this this' : DBManager) (c : Collection) :
  ready this = true -> stores_items this this' c -> opened this'.
Proof.
  intros Hr [d [_ [Hd' [Hr' _]]]]. split; [congruence|]. eexists. exact Hd'.
Qed.

Lemma loadItems_keeps_open (w : World) (errors : list string)
    (this : DBManager) :
  opened this -> opened (snd (loadItems w errors this)).
Proof.
  intros [Hr [d Hd]]. unfold loadItems.
  destruct (0 <? _)%nat; [|split; [exact Hr | exists d; exact Hd]].
  match goal with
  | |- context [item_batches w ?ix ?t ?f 0 ?a this] =>
      destruct (item_batches_frame w ix t f 0 a this d Hd)
        as [acc' [this' [puts [-> [Hst _]]]]]
  end.
  simpl. eapply stores_items_opened; eassumption.
Qed.

Lemma import_steps_keeps_open (w : World) (this : DBManager) (d : Database) :
  ready this = true -> db this = Some d ->
  opened (snd (import_steps w this)).
Proof.
  intros Hr Hd.
  destruct (import_steps_opened w this d Hr Hd) as [e1 [e2 [l [_ ->]]]].
  destruct (loadAppInfo_cases w
              (mkDBManager (Some (after_clear w d)) true (VArr l))
              (after_clear w d) eq_refl)
    as [[_ [e3 [c ->]]] | [e [_ ->]]].
  - destruct (loadWorkflows_cases w
                (set_db (set_appInfo c (after_clear w d))
                   (mkDBManager (Some (after_clear w d)) true (VArr l)))
                _ eq_refl) as [e4 [-> | [_ [validated [_ ->]]]]];
      apply loadItems_keeps_open; (split; [reflexivity | eexists; reflexivity]).
  - split; [reflexivity | eexists; reflexivity].
Qed.

(** After a successful clearing step the run no longer depends on what the
    manager held. *)
Lemma import_steps_from_scratch (w : World) (this : DBManager) (d : Database) :
  ready this = true -> db this = Some d ->
  idb_clear_error w = None ->
  import_steps w this =
  (e2 <- loadIndex w ;;
   e3 <- loadAppInfo w ;;
   e4 <- loadWorkflows w ;;
   loadItems w ([] ++ e2 ++ e3 ++ e4)%list)
    (mkDBManager (Some empty_db) true VNull).
Proof.
  intros Hr Hd Hclear. unfold import_steps. unfold bind at 1.
  rewrite (clearStep_opened w this d Hr Hd), Hclear.
  unfold set_db. rewrite Hr.
  unfold bind at 1 5.
  rewrite (loadIndex_ignores_itemIndex w (Some empty_db) true
             (itemIndex this) VNull).
  reflexivity.
Qed.

Lemma importData_keeps_open (w : World) (this : DBManager) (d : Database) :
  ready this = true -> db this = Some d -> opened (snd (importData w this)).
Proof.
  intros Hr Hd. rewrite (importData_opened w this Hr).
  pose proof (import_steps_keeps_open w this d Hr Hd) as H.
  destruct (import_steps w this) as [[r|e] this']; exact H.
Qed.

(** C6, as stated, fails: the remote files and the store's behaviour are the
    same in both runs, but the index entries carry no timestamp and the
    application information falls back, so the records are stamped with the
    time of the run, and the second run leaves other records than the
    first. *)
Lemma importData_twice_differs_by_clock :
  net first_run = net second_run /\
  idb_clear_error second_run = None /\
  db (snd (importData second_run (snd (importData first_run new_DBManager))))
  <> db (snd (importData first_run new_DBManager)).
Proof.
  split; [reflexivity|]. split; [reflexivity|].
  vm_compute. discriminate.
Qed.

(** C6, amended.  In one and the same world (remote files, store behaviour
    and clock reading) in which the clearing transaction succeeds, a second
    run of [importData] ends with the result and with the manager, store
    contents included, of the first. *)
Theorem importData_twice_is_once (w : World) (this : DBManager) :
  consistent this ->
  idb_clear_error w = None ->
  importData w (snd (importData w this)) = importData w this.
Proof.
  intros Hcons Hclear.
  assert (Hopened : forall this0 d,
            ready this0 = true -> db this0 = Some d ->
            importData w (snd (importData w this0)) = importData w this0).
  { intros this0 d Hr Hd.
    destruct (importData_keeps_open w this0 d Hr Hd) as [Hr1 [d1 Hd1]].
    rewrite (importData_opened w _ Hr1).
    rewrite (import_steps_from_scratch w _ d1 Hr1 Hd1 Hclear).
    rewrite (importData_opened w this0 Hr).
    rewrite (import_steps_from_scratch w this0 d Hr Hd Hclear).
    reflexivity. }
  destruct (ready this) eqn:Hr.
  - destruct (Hcons Hr) as [d Hd]. apply (Hopened this d Hr Hd).
  - rewrite (importData_closed w this Hr). destruct (idb_open w) as [d|e] eqn:Ho.
    + apply (Hopened (mkDBManager (Some d) true (itemIndex this)) d);
        reflexivity.
    + simpl. rewrite (importData_closed w this Hr), Ho. reflexivity.
Qed.

Lemma importData_twice_is_once_witness :
  consistent new_DBManager /\
  idb_clear_error scenario = None /\
  importData scenario (snd (importData scenario new_DBManager)) =
  importData scenario new_DBManager.
Proof.
  assert (Hc : consistent new_DBManager) by (intros H; discriminate H).
  split; [exact Hc|]. split; [reflexivity|].
  apply (importData_twice_is_once scenario new_DBManager Hc). reflexivity.
Defined.

(** ** Workflows given as an array *)


Lemma obj_set_keys (k k' : string) (v : value) (ps : list (string * value)) :
  In k (map fst (obj_set k' v ps)) <-> k = k' \/ In k (map fst ps).
Proof.
  induction ps as [|[k0 v0] ps IH]; simpl.
  - intuition.
  - destruct (k0 =? k') eqn:E0; simpl.
    + apply String.eqb_eq in E0. subst k0. intuition.
    + rewrite IH. intuition.
Qed.

Lemma obj_set_NoDup (k : string) (v : value) (ps : list (string * value)) :
  NoDup (map fst ps) -> NoDup (map fst (obj_set k v ps)).
Proof.
  induction ps as [|[k0 v0] ps IH]; simpl; intros H.
  - constructor; [intros [] | constructor].
  - inversion H as [|? ? Hnot Hrest]. subst.
    destruct (k0 =? k) eqn:E0; simpl.
    + apply String.eqb_eq in E0. subst k0. constructor; assumption.
    + constructor; [|apply IH, Hrest].
      rewrite obj_set_keys. intros [->|Hin]; [|contradiction].
      rewrite String.eqb_refl in E0. discriminate.
Qed.

Lemma obj_set_values (P : value -> Prop) (k : string) (v : value)
    (ps : list (string * value)) :
  P v -> Forall P (map snd ps) -> Forall P (map snd (obj_set k v ps)).
Proof.
  intros Hv. induction ps as [|[k0 v0] ps IH]; simpl; intros H.
  - constructor; [exact Hv | constructor].
  - inversion H. subst. destruct (k0 =? k); simpl; constructor; auto.
Qed.

Lemma obj_set_fresh (k : string) (v : value) (ps : list (string * value)) :
  ~ In k (map fst ps) -> obj_set k v ps = (ps ++ [(k, v)])%list.
Proof.
  induction ps as [|[k0 v0] ps IH]; simpl; intros H.
  - reflexivity.
  - destruct (k0 =? k) eqn:E0.
    + apply String.eqb_eq in E0. subst k0. exfalso. apply H. left. reflexivity.
    + rewrite IH; [reflexivity|]. intros Hin. apply H. right. exact Hin.
Qed.



Lemma js_assign_NoDup (k : string) (v : value) (ps : list (string * value)) :
  NoDup (map fst ps) -> NoDup (map fst (js_assign k v ps)).
Proof.
  unfold js_assign. destruct (k =? "__proto__"); [auto|]. apply obj_set_NoDup.
Qed.

Lemma js_assign_values (P : value -> Prop) (k : string) (v : value)
    (ps : list (string * value)) :
  P v -> Forall P (map snd ps) -> Forall P (map snd (js_assign k v ps)).
Proof.
  unfold js_assign. destruct (k =? "__proto__"); [auto|]. apply obj_set_values.
Qed.

Lemma js_assign_no_proto (k : string) (v : value) (ps : list (string * value)) :
  ~ In "__proto__" (map fst ps) ->
  ~ In "__proto__" (map fst (js_assign k v ps)).
Proof.
  unfold js_assign. destruct (k =? "__proto__") eqn:E; [auto|].
  intros H Hin. apply obj_set_keys in Hin. destruct Hin as [Hk | Hin]; [|auto].
  subst k. rewrite String.eqb_refl in E. discriminate.
Qed.

Lemma is_workflow_test (e : value) :
  truthy (prop e "items") && isArray (prop e "items") = is_workflow e.
Proof.
  unfold is_workflow. destruct (prop e "items"); simpl;
    try reflexivity; apply andb_false_r.
Qed.

Lemma is_workflow_object (e : value) :
  is_workflow e = true -> exists ps, e = VObj ps.
Proof.
  unfold is_workflow. destruct e; simpl; try discriminate.
  intros _. eexists. reflexivity.
Qed.


Lemma fold_js_assign_fresh (l acc : list (string * value)) :
  NoDup (map fst (acc ++ l)%list) ->
  ~ In "__proto__" (map fst l) ->
  fold_left (fun a p => js_assign (fst p) (snd p) a) l acc = (acc ++ l)%list.
Proof.
  revert acc. induction l as [|[k v] l IH]; intros acc H Hnp; simpl.
  - rewrite app_nil_r. reflexivity.
  - assert (Hfresh : ~ In k (map fst acc)).
    { rewrite map_app in H. simpl in H. apply NoDup_remove_2 in H.
      intros Hin. apply H. apply in_or_app. left. exact Hin. }
    assert (Hk : (k =? "__proto__") = false).
    { apply String.eqb_neq. intros ->. apply Hnp. left. reflexivity. }
    unfold js_assign at 2. rewrite Hk.
    rewrite (obj_set_fresh k v acc Hfresh).
    rewrite IH; rewrite <- ?app_assoc; [reflexivity | exact H |].
    intros Hin. apply Hnp. right. exact Hin.
Qed.

Lemma validate_entries_valid (l : list (string * value)) :
  Forall (fun e => is_workflow e = true) (map snd l) ->
  forall acc,
  validate_entries l acc =
  Resolved (fold_left (fun a p => js_assign (fst p) (snd p) a) l acc).
Proof.
  induction l as [|[k v] l IH]; simpl; intros H acc.
  - reflexivity.
  - inversion H as [|? ? Hv Hrest]. subst.
    destruct (is_workflow_object v Hv) as [ps ->].
    unfold get_prop. cbn [nullish]. rewrite is_workflow_test, Hv.
    apply IH, Hrest.
Qed.


Lemma first_refused_none (w : World) (s : StoreName)
    (puts : list (value * value)) :
  (forall p, In p puts -> idb_put_error w s (fst p) = None) ->
  forall pos, first_refused w s puts pos = None.
Proof.
  induction puts as [|[k r] puts IH]; simpl; intros H pos.
  - reflexivity.
  - pose proof (H (k, r) (or_introl eq_refl)) as Hk. simpl in Hk.
    rewrite Hk. apply IH.
    intros p Hp. apply H. right. exact Hp.
Qed.







(** ** The service worker *)

(** C7, as stated, fails.  Install tolerates a file that cannot be
    precached.  With offline.html missing at install time, a navigation that
    finds neither a cache entry nor the network is answered with nothing. *)
Lemma navigation_without_cached_offline_page :
  SW.isScriptOrStyle (SWScenario.navigation SWScenario.root) = false /\
  SW.mode (SWScenario.navigation SWScenario.root) = "navigate" /\
  SW.cache_match (SW.url (SWScenario.navigation SWScenario.root))
    (SW.install SWScenario.root SWScenario.site_without_offline_page) = None /\
  SW.on_fetch SWScenario.root SWScenario.offline
    (SW.install SWScenario.root SWScenario.site_without_offline_page)
    (SWScenario.navigation SWScenario.root) =
  SW.RespondedWith None
    (SW.install SWScenario.root SWScenario.site_without_offline_page).
Proof. repeat split; vm_compute; reflexivity. Qed.

Lemma resolve_at_root (loc : SW.Location) :
  SW.sw_dir loc = "/" ->
  SW.resolve loc "/offline.html" = SW.resolve loc "./offline.html".
Proof.
  intros H. unfold SW.resolve. cbn. rewrite H.
  destruct (SW.sw_origin loc); reflexivity.
Qed.

(** C7, amended.  For a worker served from the root of its origin: a
    navigation that is neither a script nor a style, has no cache entry and
    cannot reach the network, is answered with what the cache holds for the
    precached './offline.html': that document when it is there, nothing when
    it is not. *)
Theorem navigation_falls_back_to_cached_offline_page
    (loc : SW.Location) (fetch : SW.Network) (cache : SW.Cache)
    (req : SW.Request) :
  SW.sw_dir loc = "/" ->
  SW.isScriptOrStyle req = false ->
  SW.mode req = "navigate" ->
  SW.cache_match (SW.url req) cache = None ->
  fetch (SW.url req) = None ->
  SW.on_fetch loc fetch cache req =
  SW.RespondedWith
    (SW.cache_match (SW.resolve loc "./offline.html") cache) cache.
Proof.
  intros Hroot Hkind Hmode Hmiss Hnet.
  unfold SW.on_fetch, SW.fetch_listeners, SW.dispatch, SW.serve_listener.
  rewrite Hkind, Hmiss, Hnet, Hmode, (resolve_at_root loc Hroot).
  reflexivity.
Qed.

Lemma navigation_falls_back_to_cached_offline_page_witness :
  SW.on_fetch SWScenario.root SWScenario.offline
    (SW.install SWScenario.root SWScenario.complete_site)
    (SWScenario.navigation SWScenario.root) =
  SW.RespondedWith
    (Some (SWScenario.page "https://example.org/offline.html"))
    (SW.install SWScenario.root SWScenario.complete_site).
Proof.
  exact (navigation_falls_back_to_cached_offline_page
           SWScenario.root SWScenario.offline
           (SW.install SWScenario.root SWScenario.complete_site)
           (SWScenario.navigation SWScenario.root)
           eq_refl eq_refl eq_refl eq_refl eq_refl).
Defined.

(** Below the root the handler looks up '/offline.html' while install stored
    './offline.html': the lookup misses although every file was precached. *)
Example offline_page_missed_below_root :
  SW.on_fetch SWScenario.below_root SWScenario.offline
    (SW.install SWScenario.below_root SWScenario.complete_site)
    (SWScenario.navigation SWScenario.below_root) =
  SW.RespondedWith None
    (SW.install SWScenario.below_root SWScenario.complete_site).
Proof. vm_compute. reflexivity. Qed.

(** C8 on the code.  The first fetch listener responds to every event, so
    the event is settled before the data listener is reached: what the
    worker answers is what the first listener answers.  For a request for
    workflows.json under '/data/' that is no navigation, with no cache entry
    and no network, that answer is nothing, although the data listener on its
    own would have synthesized the empty JSON object. *)
Theorem data_listener_never_answers
    (loc : SW.Location) (fetch : SW.Network) (cache : SW.Cache)
    (req : SW.Request) :
  SW.on_fetch loc fetch cache req = SW.serve_listener loc fetch cache req /\
  (SW.includes (SW.url req) "/data/" = true ->
   SW.includes (SW.url req) "workflows.json" = true ->
   SW.isScriptOrStyle req = false ->
   SW.mode req <> "navigate" ->
   SW.cache_match (SW.url req) cache = None ->
   fetch (SW.url req) = None ->
   SW.on_fetch loc fetch cache req = SW.RespondedWith None cache /\
   SW.data_listener loc fetch cache req =
     SW.RespondedWith (Some SW.empty_json) cache).
Proof.
  assert (Hfirst : SW.on_fetch loc fetch cache req =
                   SW.serve_listener loc fetch cache req).
  { unfold SW.on_fetch, SW.fetch_listeners. cbn [SW.dispatch].
    unfold SW.serve_listener.
    repeat break_match; reflexivity. }
  split; [exact Hfirst|].
  intros Hdata Hwf Hkind Hmode Hmiss Hnet. split.
  - rewrite Hfirst. unfold SW.serve_listener.
    rewrite Hkind, Hmiss, Hnet.
    apply String.eqb_neq in Hmode. rewrite Hmode. reflexivity.
  - unfold SW.data_listener. rewrite Hdata, Hmiss, Hnet, Hwf. reflexivity.
Qed.

Lemma data_listener_never_answers_witness :
  SW.on_fetch SWScenario.root SWScenario.offline []
    (SWScenario.workflows_request SWScenario.root) =
    SW.RespondedWith None [] /\
  SW.data_listener SWScenario.root SWScenario.offline []
    (SWScenario.workflows_request SWScenario.root) =
    SW.RespondedWith (Some SW.empty_json) [].
Proof.
  apply (proj2 (data_listener_never_answers
                  SWScenario.root SWScenario.offline []
                  (SWScenario.workflows_request SWScenario.root)));
    try reflexivity.
  discriminate.
Defined.

(* ===================================================================== *)
(** * Further properties of the code *)
(* ===================================================================== *)

(** ** The retrying fetcher *)

Lemma fetch_loop_trace (fetch : nat -> Attempt) (retries : nat) :
  forall fuel i,
  exists n,
    n <= fuel /\
    fetched (snd (fetch_loop fetch retries i fuel)) = seq i n /\
    waits (snd (fetch_loop fetch retries i fuel)) =
      map backoff
        (seq i (match fst (fetch_loop fetch retries i fuel) with
                | Resolved None => n
                | _ => n - 1
                end)) /\
    (fst (fetch_loop fetch retries i fuel) = Resolved None -> n = fuel) /\
    (fst (fetch_loop fetch retries i fuel) <> Resolved None -> 0 < n).
Proof.
  induction fuel as [|fuel IH]; intros i.
  - exists 0. cbn. repeat split; auto. congruence.
  - rewrite fetch_loop_step. cbv zeta.
    destruct (IH (S i)) as [n [Hn [Hf [Hw [Hu Hp]]]]].
    assert (Hcont :
      exists n0,
        n0 <= S fuel /\
        fetched (Fetched i :: Waited (1000 * (i + 1)) ::
                 snd (fetch_loop fetch retries (S i) fuel)) = seq i n0 /\
        waits (Fetched i :: Waited (1000 * (i + 1)) ::
               snd (fetch_loop fetch retries (S i) fuel)) =
          map backoff
            (seq i (match fst (fetch_loop fetch retries (S i) fuel) with
                    | Resolved None => n0
                    | _ => n0 - 1
                    end)) /\
        (fst (fetch_loop fetch retries (S i) fuel) = Resolved None ->
         n0 = S fuel) /\
        (fst (fetch_loop fetch retries (S i) fuel) <> Resolved None -> 0 < n0)).
    { exists (S n). split; [lia|]. split; [cbn; rewrite Hf; reflexivity|].
      split; [|split; [intros H; rewrite (Hu H); reflexivity | lia]].
      cbn [waits]. rewrite Hw.
      destruct (fst (fetch_loop fetch retries (S i) fuel)) as [[r|]|e] eqn:E.
      - assert (0 < n) by (apply Hp; discriminate).
        replace (S n - 1) with (S (n - 1)) by lia. reflexivity.
      - reflexivity.
      - assert (0 < n) by (apply Hp; discriminate).
        replace (S n - 1) with (S (n - 1)) by lia. reflexivity. }
    assert (Hstop : forall o : outcome (option Response),
      o <> Resolved None ->
      exists n0,
        n0 <= S fuel /\
        fetched [Fetched i] = seq i n0 /\
        waits [Fetched i] =
          map backoff (seq i (match o with
                              | Resolved None => n0
                              | _ => n0 - 1
                              end)) /\
        (o = Resolved None -> n0 = S fuel) /\
        (o <> Resolved None -> 0 < n0)).
    { intros o Ho. exists 1. split; [lia|]. split; [reflexivity|].
      split; [|split; [contradiction | lia]].
      destruct o as [[r|]|e]; try reflexivity. contradiction. }
    destruct (fetch i) as [e|r].
    + destruct (i =? retries - 1)%nat.
      * apply Hstop. discriminate.
      * exact Hcont.
    + destruct (ok r).
      * apply Hstop. discriminate.
      * exact Hcont.
Qed.

(** X1.  Whatever the network does, [fetchWithRetry] calls [fetch] on the
    loop indices 0, 1, ..., n-1 for some n not above the retry budget, and
    the delays it waits are 1000, 2000, ... milliseconds: one after every
    attempt but the one it returns or throws from.  It resolves to
    [undefined] only after using the whole budget. *)
Theorem fetchWithRetry_bounded_with_linear_backoff
    (fetch : nat -> Attempt) (retries : nat) :
  exists n,
    n <= retries /\
    fetched (snd (fetchWithRetry fetch retries)) = seq 0 n /\
    waits (snd (fetchWithRetry fetch retries)) =
      map backoff
        (seq 0 (match fst (fetchWithRetry fetch retries) with
                | Resolved None => n
                | _ => n - 1
                end)) /\
    (fst (fetchWithRetry fetch retries) = Resolved None -> n = retries).
Proof.
  unfold fetchWithRetry.
  destruct (fetch_loop_trace fetch retries retries 0) as [n [H1 [H2 [H3 [H4 _]]]]].
  exists n. auto.
Qed.

Lemma fetch_loop_some_from (fetch : nat -> Attempt) (retries : nat)
    (r : Response) :
  forall fuel i,
  fst (fetch_loop fetch retries i fuel) = Resolved (Some r) ->
  exists k, i <= k < i + fuel /\ fetch k = Answer r.
Proof.
  induction fuel as [|fuel IH]; intros i.
  - discriminate.
  - rewrite fetch_loop_step. cbv zeta.
    destruct (fetch i) as [e|r'] eqn:Hi.
    + destruct (i =? retries - 1)%nat; [discriminate|]. simpl.
      intros H. destruct (IH (S i) H) as [k [Hk Hf]]. exists k. split; [lia|auto].
    + destruct (ok r') eqn:E; simpl.
      * intros H. inversion H. subst. exists i. split; [lia | exact Hi].
      * intros H. destruct (IH (S i) H) as [k [Hk Hf]]. exists k.
        split; [lia|auto].
Qed.

(** X2.  A response that [fetchWithRetry] resolves to is the answer of one of
    its attempts and has an ok status: a caller never receives a response
    with an error status from it. *)
Theorem fetchWithRetry_returns_only_ok_responses
    (fetch : nat -> Attempt) (retries : nat) (r : Response) :
  fst (fetchWithRetry fetch retries) = Resolved (Some r) ->
  ok r = true /\ exists k, k < retries /\ fetch k = Answer r.
Proof.
  intros H. split; [exact (fetchWithRetry_some_ok _ _ _ H)|].
  destruct (fetch_loop_some_from fetch retries r retries 0 H) as [k [Hk Hf]].
  exists k. split; [lia | exact Hf].
Qed.

Lemma fetchWithRetry_returns_only_ok_responses_witness :
  ok (mkResponse 200 (Json (VObj []))) = true /\
  exists k, k < 3 /\ third_time_lucky k = Answer (mkResponse 200 (Json (VObj []))).
Proof.
  exact (fetchWithRetry_returns_only_ok_responses third_time_lucky 3
           (mkResponse 200 (Json (VObj []))) eq_refl).
Defined.

(** ** Opening and clearing the store *)

(** X3.  [initDB] opens the database once.  After a call that resolved, the
    manager is ready with an open database, and any later call resolves to
    [true] without touching the manager, whatever [indexedDB.open] would
    answer then.  A call that rejects leaves the manager as it was. *)
Theorem initDB_opens_once (w w' : World) (this : DBManager) :
  consistent this ->
  (fst (initDB w this) = Resolved true ->
   opened (snd (initDB w this)) /\
   initDB w' (snd (initDB w this)) = (Resolved true, snd (initDB w this))) /\
  (forall e, fst (initDB w this) = Rejected e -> snd (initDB w this) = this).
Proof.
  intros Hcons. unfold initDB. destruct (ready this) eqn:Hr.
  - split.
    + intros _. cbn [snd]. rewrite Hr. split; [|reflexivity].
      split; [exact Hr | exact (Hcons Hr)].
    + intros e H. discriminate.
  - destruct (idb_open w) as [d|e0]; split.
    + intros _. cbn. split; [|reflexivity]. split; [reflexivity|].
      exists d. reflexivity.
    + intros e H. discriminate.
    + intros H. discriminate.
    + intros e _. reflexivity.
Qed.

Lemma initDB_opens_once_witness :
  opened (snd (initDB scenario new_DBManager)) /\
  initDB world_500 (snd (initDB scenario new_DBManager)) =
    (Resolved true, snd (initDB scenario new_DBManager)).
Proof.
  apply (proj1 (initDB_opens_once scenario world_500 new_DBManager
                  ltac:(intros H; discriminate H))).
  reflexivity.
Defined.

(** X4.  After a [clearDatabase] that resolved, the three stores are empty:
    [getWorkflows] gives no record, and for every valid key
    [getWorkflowItems] gives no record and [getResult] gives [undefined].  A
    [clearDatabase] that rejects has removed nothing. *)
Theorem clearDatabase_empties_every_store (w : World) (this : DBManager) :
  (fst (clearDatabase w this) = Resolved true ->
   fst (getWorkflows (snd (clearDatabase w this))) = Resolved [] /\
   appInfo_of (snd (clearDatabase w this)) = [] /\
   forall key, valid_key key = true ->
     fst (getWorkflowItems key (snd (clearDatabase w this))) = Resolved [] /\
     fst (getResult key (snd (clearDatabase w this))) = Resolved VUndef) /\
  (forall e, fst (clearDatabase w this) = Rejected e ->
             snd (clearDatabase w this) = this).
Proof.
  unfold clearDatabase. destruct (ready this) eqn:Hr; cbn [negb].
  - destruct (db this) as [d|] eqn:Hd.
    + destruct (idb_clear_error w) as [e0|]; split.
      * intros H. discriminate.
      * intros e _. reflexivity.
      * intros _. cbn [snd].
        unfold getWorkflows, getWorkflowItems, getResult, appInfo_of, set_db.
        cbn [ready db]. rewrite Hr. cbn.
        split; [reflexivity|]. split; [reflexivity|].
        intros key Hkey. rewrite Hkey. split; reflexivity.
      * intros e H. discriminate.
    + split; [intros H; discriminate | intros e _; reflexivity].
  - split; [intros H; discriminate | intros e _; reflexivity].
Qed.

Lemma clearDatabase_empties_every_store_witness :
  fst (getWorkflows
         (snd (clearDatabase scenario
                 (snd (importData scenario new_DBManager))))) = Resolved [] /\
  fst (getResult (VStr "a")
         (snd (clearDatabase scenario
                 (snd (importData scenario new_DBManager))))) = Resolved VUndef.
Proof.
  destruct (proj1 (clearDatabase_empties_every_store scenario
                     (snd (importData scenario new_DBManager))) eq_refl)
    as [H1 [_ H2]].
  split; [exact H1|]. exact (proj2 (H2 (VStr "a") eq_refl)).
Defined.

(** ** Application information *)

Lemma storeAppInfo_resolved (w : World) (payload : value) (this : DBManager) :
  fst (storeAppInfo w payload this) = Resolved tt ->
  exists d,
    db this = Some d /\ nullish payload = false /\
    appInfo_of (snd (storeAppInfo w payload this)) =
    coll_put (VStr "appInfo")
      (VObj
         [ ("key", VStr "appInfo");
           ("version",
              js_or (prop (js_or (prop payload "appInfo") payload) "version")
                    (VStr "1.0.0"));
           ("exportDate",
              js_or (prop (js_or (prop payload "appInfo") payload) "exportDate")
                    (VStr (now w)));
           ("name",
              js_or (prop (js_or (prop payload "appInfo") payload) "name")
                (js_or (prop (js_or (prop payload "appInfo") payload) "title")
                       (VStr "HydroBlox Application")));
           ("title", prop (js_or (prop payload "appInfo") payload) "title");
           ("description",
              prop (js_or (prop payload "appInfo") payload) "description");
           ("layout", prop (js_or (prop payload "appInfo") payload) "layout");
           ("workflowCount",
              prop (js_or (prop payload "appInfo") payload) "workflowCount") ])
      (appInfo d).
Proof.
  unfold storeAppInfo, get_prop, appInfo_of.
  destruct (db this) as [d|]; [|discriminate].
  destruct (nullish payload); [discriminate|].
  destruct (idb_put_error w AppInfo (VStr "appInfo")); [discriminate|].
  intros _. exists d. split; [reflexivity|]. split; reflexivity.
Qed.

Lemma truthy_js_or (a b : value) :
  truthy b = true -> truthy (js_or a b) = true.
Proof. intros H. unfold js_or. destruct (truthy a) eqn:E; assumption. Qed.

Lemma coll_put_length_present (k r : value) (c : Collection) :
  coll_get k c <> VUndef -> List.length (coll_put k r c) = List.length c.
Proof.
  induction c as [|[k0 r0] c IH]; simpl; intros H.
  - contradiction.
  - destruct (value_eqb k0 k); simpl; [reflexivity|]. rewrite IH; auto.
Qed.

Lemma coll_put_put (k r r0 : value) (c : Collection) :
  coll_put k r (coll_put k r0 c) = coll_put k r c.
Proof.
  induction c as [|[k0 r1] c IH]; simpl.
  - rewrite value_eqb_refl. reflexivity.
  - destruct (value_eqb k0 k) eqn:E; simpl.
    + rewrite value_eqb_refl. reflexivity.
    + rewrite E, IH. reflexivity.
Qed.

(** X5.  A [storeAppInfo] that resolved leaves, under the key 'appInfo', a
    record whose 'version' and 'name' are truthy whatever the payload lacked
    (the defaults are "1.0.0" and "HydroBlox Application").  The record is
    written whole: what an earlier call had stored under the key is gone,
    and the store holds no more records than before if the key was there. *)
Theorem storeAppInfo_keeps_one_complete_record
    (w : World) (payload : value) (this : DBManager) :
  fst (storeAppInfo w payload this) = Resolved tt ->
  prop (coll_get (VStr "appInfo") (appInfo_of (snd (storeAppInfo w payload this))))
       "key" = VStr "appInfo" /\
  truthy (prop (coll_get (VStr "appInfo")
                  (appInfo_of (snd (storeAppInfo w payload this)))) "version")
    = true /\
  truthy (prop (coll_get (VStr "appInfo")
                  (appInfo_of (snd (storeAppInfo w payload this)))) "name")
    = true /\
  (forall earlier this0,
     storeAppInfo w earlier this0 = (Resolved tt, this) ->
     appInfo_of (snd (storeAppInfo w payload this)) =
     appInfo_of (snd (storeAppInfo w payload this0)) /\
     List.length (appInfo_of (snd (storeAppInfo w payload this))) =
     List.length (appInfo_of this)).
Proof.
  intros H. destruct (storeAppInfo_resolved w payload this H) as [d [Hd [Hn Hs]]].
  split; [|split; [|split]].
  - rewrite Hs, coll_get_put. cbn [value_eqb]. rewrite String.eqb_refl.
    reflexivity.
  - rewrite Hs, coll_get_put. cbn [value_eqb]. rewrite String.eqb_refl.
    apply truthy_js_or. reflexivity.
  - rewrite Hs, coll_get_put. cbn [value_eqb]. rewrite String.eqb_refl.
    cbn [prop assoc String.eqb Ascii.eqb Bool.eqb].
    apply truthy_js_or, truthy_js_or. reflexivity.
  - intros earlier this0 H0.
    assert (H0' : fst (storeAppInfo w earlier this0) = Resolved tt)
      by (rewrite H0; reflexivity).
    destruct (storeAppInfo_resolved w earlier this0 H0') as [d0 [Hd0 [Hn0 Hs0]]].
    rewrite H0 in Hs0. cbn [snd] in Hs0.
    assert (Hput : idb_put_error w AppInfo (VStr "appInfo") = None).
    { revert H. unfold storeAppInfo, get_prop. rewrite Hd, Hn.
      destruct (idb_put_error w AppInfo (VStr "appInfo")); [discriminate|auto]. }
    assert (Hs1 : exists rec,
              appInfo_of (snd (storeAppInfo w payload this0)) =
              coll_put (VStr "appInfo") rec (appInfo d0) /\
              appInfo_of (snd (storeAppInfo w payload this)) =
              coll_put (VStr "appInfo") rec (appInfo d)).
    { eexists. split; [|exact Hs].
      unfold storeAppInfo, get_prop, appInfo_of. rewrite Hd0, Hn, Hput.
      reflexivity. }
    destruct Hs1 as [rec [Hs1 Hs2]].
    assert (Hd' : appInfo d = appInfo_of this)
      by (unfold appInfo_of; rewrite Hd; reflexivity).
    rewrite Hs1, Hs2, Hd', Hs0. split.
    + apply coll_put_put.
    + apply coll_put_length_present. rewrite coll_get_put. cbn [value_eqb].
      rewrite String.eqb_refl. discriminate.
Qed.

Lemma storeAppInfo_keeps_one_complete_record_witness :
  prop (coll_get (VStr "appInfo")
          (appInfo_of (snd (storeAppInfo scenario sample_appInfo fresh_manager))))
       "name" = VStr "Flood study" /\
  truthy (prop (coll_get (VStr "appInfo")
                  (appInfo_of
                     (snd (storeAppInfo scenario sample_appInfo fresh_manager))))
               "version") = true.
Proof.
  split; [reflexivity|].
  exact (proj1 (proj2 (storeAppInfo_keeps_one_complete_record
                         scenario sample_appInfo fresh_manager eq_refl))).
Defined.

(** X6.  [storeAppInfo] takes the information nested under 'appInfo' or
    flat: for information that is truthy and has no truthy 'appInfo' property
    of its own, both calls do the same. *)
Theorem storeAppInfo_nested_or_flat
    (w : World) (info : value) (this : DBManager) :
  truthy info = true ->
  truthy (prop info "appInfo") = false ->
  storeAppInfo w (VObj [("appInfo", info)]) this = storeAppInfo w info this.
Proof.
  intros Hinfo Hflat. unfold storeAppInfo, get_prop.
  assert (Hn : nullish info = false) by (destruct info; auto; discriminate).
  assert (H1 : js_or info (VObj [("appInfo", info)]) = info)
    by (unfold js_or; rewrite Hinfo; reflexivity).
  assert (H2 : js_or (prop info "appInfo") info = info)
    by (unfold js_or; rewrite Hflat; reflexivity).
  rewrite Hn. cbn [nullish].
  change (prop (VObj [("appInfo", info)]) "appInfo") with info.
  rewrite H1, H2. reflexivity.
Qed.

Lemma storeAppInfo_nested_or_flat_witness :
  storeAppInfo scenario (VObj [("appInfo", sample_appInfo)]) fresh_manager =
  storeAppInfo scenario sample_appInfo fresh_manager.
Proof.
  exact (storeAppInfo_nested_or_flat scenario sample_appInfo fresh_manager
           eq_refl eq_refl).
Defined.

(** ** Storing workflows *)

Lemma coll_put_fresh (k r : value) (c : Collection) :
  ~ In k (map fst c) -> coll_put k r c = (c ++ [(k, r)])%list.
Proof.
  induction c as [|[k0 r0] c IH]; simpl; intros H.
  - reflexivity.
  - destruct (value_eqb k0 k) eqn:E.
    + apply value_eqb_eq in E. subst k0. exfalso. apply H. left. reflexivity.
    + rewrite IH; [reflexivity|]. intros Hin. apply H. right. exact Hin.
Qed.

Lemma commit_distinct (puts : list (value * value)) :
  forall c, NoDup (map fst (c ++ puts)%list) -> commit puts c = (c ++ puts)%list.
Proof.
  induction puts as [|[k r] puts IH]; intros c H.
  - rewrite app_nil_r. reflexivity.
  - cbn [commit fold_left fst snd].
    fold (commit puts (coll_put k r c)).
    assert (Hfresh : ~ In k (map fst c)).
    { rewrite map_app in H. simpl in H. apply NoDup_remove_2 in H.
      intros Hin. apply H. apply in_or_app. left. exact Hin. }
    rewrite (coll_put_fresh k r c Hfresh).
    rewrite IH; rewrite <- app_assoc; [reflexivity | exact H].
Qed.

Lemma workflow_puts_records (entries : list (string * value)) :
  map snd (workflow_puts entries) = workflow_records entries.
Proof.
  unfold workflow_puts, workflow_records, is_object.
  induction entries as [|[k v] entries IH]; simpl; [reflexivity|].
  destruct (truthy v); simpl; [|exact IH].
  destruct (typeof_object v); simpl; [|exact IH].
  rewrite IH. reflexivity.
Qed.

Lemma workflow_puts_keys (entries : list (string * value)) (k : value) :
  In k (map fst (workflow_puts entries)) ->
  exists name, k = VStr name /\ In name (map fst entries).
Proof.
  unfold workflow_puts.
  induction entries as [|[k0 v] entries IH]; simpl; [contradiction|].
  destruct (negb (truthy v) || negb (typeof_object v)); simpl.
  - intros H. destruct (IH H) as [name [Hk Hin]]. exists name. auto.
  - intros [H|H].
    + exists k0. auto.
    + destruct (IH H) as [name [Hk Hin]]. exists name. auto.
Qed.

Lemma workflow_puts_NoDup (entries : list (string * value)) :
  NoDup (map fst entries) -> NoDup (map fst (workflow_puts entries)).
Proof.
  unfold workflow_puts.
  induction entries as [|[k0 v] entries IH]; simpl; intros H.
  - constructor.
  - inversion H as [|? ? Hnot Hrest]. subst.
    destruct (negb (truthy v) || negb (typeof_object v)); simpl.
    + apply IH, Hrest.
    + constructor; [|apply IH, Hrest].
      intros Hin. apply workflow_puts_keys in Hin.
      destruct Hin as [name [Hk Hin]]. inversion Hk. subst. contradiction.
Qed.

(** The write of a whole collection into an empty 'workflows' store. *)
Lemma storeWorkflows_on_empty (w : World) (entries : list (string * value))
    (this : DBManager) (d : Database) :
  ready this = true -> db this = Some d -> workflows d = [] ->
  NoDup (map fst entries) ->
  (forall k, idb_put_error w Workflows (VStr k) = None) ->
  exists this',
    storeWorkflows w (VObj entries) this = (Resolved tt, this') /\
    fst (getWorkflows this') = Resolved (workflow_records entries).
Proof.
  intros Hr Hd He Hnd Hput. unfold storeWorkflows. rewrite Hd.
  rewrite first_refused_none.
  - eexists. split; [reflexivity|].
    unfold getWorkflows, set_db. cbn [ready db negb workflows set_workflows fst].
    rewrite Hr. cbn [negb fst]. rewrite He.
    rewrite commit_distinct; [|apply workflow_puts_NoDup, Hnd].
    cbn [app]. rewrite workflow_puts_records. reflexivity.
  - intros [k r] Hin.
    destruct (workflow_puts_keys entries k
                (in_map fst _ _ Hin)) as [name [-> _]].
    apply Hput.
Qed.

(** X7.  On an open database [storeWorkflows] takes an object only: given
    [null], an array or a primitive it rejects with 'Invalid workflows
    structure'.  Whenever it rejects, for that reason or because the store
    refuses one of the records, the manager is left as it was: no part of
    the collection is stored. *)
Theorem storeWorkflows_rejects_without_storing
    (w : World) (payload : value) (this : DBManager) :
  (forall e, fst (storeWorkflows w payload this) = Rejected e ->
             snd (storeWorkflows w payload this) = this) /\
  (forall d, db this = Some d ->
     (forall entries, payload <> VObj entries) ->
     fst (storeWorkflows w payload this) =
     Rejected (Error
       "Invalid workflows structure: expected object with workflow IDs as keys")).
Proof.
  unfold storeWorkflows. split.
  - intros e. destruct (db this) as [d|]; [|reflexivity].
    destruct payload; try reflexivity.
    destruct (first_refused w Workflows (workflow_puts props) 0) as [[pos e0]|];
      [reflexivity | discriminate].
  - intros d Hd Hno. rewrite Hd. destruct payload; try reflexivity.
    exfalso. apply (Hno props). reflexivity.
Qed.

Lemma storeWorkflows_rejects_without_storing_witness :
  fst (storeWorkflows scenario (VArr []) fresh_manager) =
  Rejected (Error
    "Invalid workflows structure: expected object with workflow IDs as keys") /\
  snd (storeWorkflows scenario (VArr []) fresh_manager) = fresh_manager.
Proof.
  pose proof (storeWorkflows_rejects_without_storing
                scenario (VArr []) fresh_manager) as [H1 H2].
  assert (H : fst (storeWorkflows scenario (VArr []) fresh_manager) =
              Rejected (Error
    "Invalid workflows structure: expected object with workflow IDs as keys")).
  { apply (H2 empty_db eq_refl). intros entries. discriminate. }
  split; [exact H|]. exact (H1 _ H).
Defined.

(** X8.  Round trip through an empty 'workflows' store that takes every
    record: after [storeWorkflows] on an object, [getWorkflows] gives
    exactly one record for every entry whose value is an object, built from
    that entry under its name, and nothing else.  (The order in which the
    store lists the records is left open.) *)
Theorem storeWorkflows_then_getWorkflows
    (w : World) (entries : list (string * value)) (this : DBManager)
    (d : Database) :
  ready this = true -> db this = Some d -> workflows d = [] ->
  NoDup (map fst entries) ->
  (forall k, idb_put_error w Workflows (VStr k) = None) ->
  exists this' records,
    storeWorkflows w (VObj entries) this = (Resolved tt, this') /\
    fst (getWorkflows this') = Resolved records /\
    List.length records =
      List.length (filter (fun e => is_object (snd e)) entries) /\
    forall r,
      In r records <->
      exists k v,
        In (k, v) entries /\ is_object v = true /\ r = workflow_record k v.
Proof.
  intros Hr Hd He Hnd Hput.
  destruct (storeWorkflows_on_empty w entries this d Hr Hd He Hnd Hput)
    as [this' [Hrun Hget]].
  exists this', (workflow_records entries).
  split; [exact Hrun|]. split; [exact Hget|]. split.
  - unfold workflow_records. clear.
    induction entries as [|[k v] entries IH]; simpl; [reflexivity|].
    destruct (is_object v); simpl; rewrite IH; reflexivity.
  - intros r. unfold workflow_records. rewrite map_filter_In. split.
    + intros [[k v] [Hin Hsome]]. cbn [fst snd] in Hsome.
      destruct (is_object v) eqn:E; [|discriminate].
      exists k, v. inversion Hsome. auto.
    + intros [k [v [Hin [Hobj ->]]]]. exists (k, v). split; [exact Hin|].
      cbn [fst snd]. rewrite Hobj. reflexivity.
Qed.

Lemma storeWorkflows_then_getWorkflows_witness :
  exists this' records,
    storeWorkflows scenario (VObj sample_workflows) fresh_manager =
      (Resolved tt, this') /\
    fst (getWorkflows this') = Resolved records /\
    List.length records = 2 /\
    forall r,
      In r records <->
      exists k v,
        In (k, v) sample_workflows /\ is_object v = true /\
        r = workflow_record k v.
Proof.
  exact (storeWorkflows_then_getWorkflows scenario sample_workflows
           fresh_manager empty_db eq_refl eq_refl eq_refl
           ltac:(repeat constructor; simpl; intuition discriminate)
           (fun k => eq_refl)).
Defined.

Lemma js_or_defined (a b : value) : b <> VUndef -> js_or a b <> VUndef.
Proof.
  intros H. unfold js_or. destruct (truthy a) eqn:E; [|exact H].
  intros ->. discriminate.
Qed.

Lemma sanitize_item_complete (item stored : value) :
  sanitize_item item = Some stored -> complete_item stored.
Proof.
  unfold sanitize_item.
  destruct (negb (truthy item) || negb (typeof_object item)); [discriminate|].
  intros H. inversion H. subst stored. clear H.
  split; [eexists; reflexivity|].
  cbn [prop assoc String.eqb Ascii.eqb Bool.eqb].
  repeat split; try (apply truthy_js_or; reflexivity).
  apply js_or_defined. discriminate.
Qed.

(** X9.  What [storeWorkflows] stores is complete: every record read back
    has a truthy 'name' and 'connections', and its 'items' is an array whose
    elements are all objects with 'parameters', 'arguments', 'data' and
    'settings' filled in; elements of the source array that are [null] or
    primitives have been dropped. *)
Theorem storeWorkflows_stores_complete_records
    (w : World) (entries : list (string * value)) (this : DBManager)
    (d : Database) :
  ready this = true -> db this = Some d -> workflows d = [] ->
  NoDup (map fst entries) ->
  (forall k, idb_put_error w Workflows (VStr k) = None) ->
  exists this' records,
    storeWorkflows w (VObj entries) this = (Resolved tt, this') /\
    fst (getWorkflows this') = Resolved records /\
    Forall complete_workflow records.
Proof.
  intros Hr Hd He Hnd Hput.
  destruct (storeWorkflows_on_empty w entries this d Hr Hd He Hnd Hput)
    as [this' [Hrun Hget]].
  exists this', (workflow_records entries).
  split; [exact Hrun|]. split; [exact Hget|].
  unfold workflow_records. clear.
  induction entries as [|[k v] entries IH]; simpl; [constructor|].
  destruct (is_object v); [|exact IH].
  constructor; [|exact IH].
  unfold workflow_record, complete_workflow.
  cbn [prop assoc String.eqb Ascii.eqb Bool.eqb].
  split; [|split].
  - apply truthy_js_or. simpl. reflexivity.
  - apply truthy_js_or. reflexivity.
  - eexists. split; [reflexivity|].
    generalize (match prop v "items" with VArr l => l | _ => [] end).
    intros l. induction l as [|item l IHl]; simpl; [constructor|].
    destruct (sanitize_item item) eqn:E; [|exact IHl].
    constructor; [eapply sanitize_item_complete; exact E | exact IHl].
Qed.

Lemma storeWorkflows_stores_complete_records_witness :
  exists this' records,
    storeWorkflows scenario (VObj sample_workflows) fresh_manager =
      (Resolved tt, this') /\
    fst (getWorkflows this') = Resolved records /\
    Forall complete_workflow records.
Proof.
  exact (storeWorkflows_stores_complete_records scenario sample_workflows
           fresh_manager empty_db eq_refl eq_refl eq_refl
           ltac:(repeat constructor; simpl; intuition discriminate)
           (fun k => eq_refl)).
Defined.

(** ** Tallies *)

Lemma storeItemBatch_tally (w : World) (batch : list value)
    (this this' : DBManager) (result : BatchResult) :
  storeItemBatch w batch this = (Resolved result, this') ->
  succeeded result + failed result = List.length batch.
Proof.
  unfold storeItemBatch.
  rewrite map_filter_map, load_failures_map. fold (loaded w batch).
  pose proof (loaded_plus_failures w batch) as Hsum.
  destruct (db this) as [d|]; [|discriminate].
  destruct (List.length (loaded w batch) =? 0)%nat eqn:Hz.
  - apply Nat.eqb_eq in Hz. intros H. inversion H. subst. simpl. lia.
  - destruct (first_refused w Items (issued_puts (loaded w batch)) 0)
      as [[pos e]|].
    + destruct (_ <? _)%nat; [discriminate|].
      destruct (pos + 1 =? List.length (loaded w batch))%nat eqn:Hlast;
        [|discriminate].
      apply Nat.eqb_eq in Hlast. intros H. inversion H. subst. simpl. lia.
    + destruct (_ <? _)%nat; [discriminate|].
      intros H. inversion H. subst. simpl. lia.
Qed.

Lemma storeItemBatch_keeps_rest (w : World) (batch : list value)
    (this : DBManager) :
  itemIndex (snd (storeItemBatch w batch this)) = itemIndex this /\
  ready (snd (storeItemBatch w batch this)) = ready this /\
  appInfo_of (snd (storeItemBatch w batch this)) = appInfo_of this /\
  workflows_of (snd (storeItemBatch w batch this)) = workflows_of this.
Proof.
  destruct (db this) as [d|] eqn:Hd.
  - destruct (storeItemBatch_frame w batch this d Hd)
      as [o [this' [puts [-> [[d0 [Hd0 [Hd' [Hr Hi]]]] _]]]]].
    cbn [snd]. unfold appInfo_of, workflows_of. rewrite Hd', Hd0.
    repeat split; assumption.
  - unfold storeItemBatch. rewrite Hd. cbn [snd]. auto.
Qed.

(** X10.  A [storeItemBatch] that resolves accounts for every entry of the
    batch exactly once: its 'succeeded' and 'failed' counts add up to the
    length of the batch. *)
Theorem storeItemBatch_counts_every_entry
    (w : World) (batch : list value) (this this' : DBManager)
    (result : BatchResult) :
  storeItemBatch w batch this = (Resolved result, this') ->
  succeeded result + failed result = List.length batch.
Proof. apply storeItemBatch_tally. Qed.

Lemma storeItemBatch_counts_every_entry_witness :
  succeeded (mkBatchResult 1 1) + failed (mkBatchResult 1 1) =
  List.length scenario_index.
Proof.
  exact (storeItemBatch_counts_every_entry scenario scenario_index
           fresh_manager _ (mkBatchResult 1 1) eq_refl).
Defined.

Lemma batch_lengths (index : list value) (i : nat) :
  List.length (firstn 5 (skipn i index)) + List.length (skipn (i + 5) index) =
  List.length (skipn i index).
Proof.
  rewrite <- length_app, <- (skipn_batch index i). reflexivity.
Qed.

Lemma item_batches_tally (w : World) (index : list value) :
  forall fuel i acc this,
  List.length index - i <= fuel ->
  processedItems (fst (item_batches w index (List.length index) fuel i acc this)) +
  failedItems (fst (item_batches w index (List.length index) fuel i acc this)) =
  processedItems acc + failedItems acc + List.length (skipn i index) /\
  itemIndex (snd (item_batches w index (List.length index) fuel i acc this)) =
  itemIndex this /\
  appInfo_of (snd (item_batches w index (List.length index) fuel i acc this)) =
  appInfo_of this /\
  workflows_of (snd (item_batches w index (List.length index) fuel i acc this)) =
  workflows_of this.
Proof.
  assert (Hdone : forall i acc (this : DBManager),
            List.length index <= i ->
            processedItems acc + failedItems acc =
            processedItems acc + failedItems acc + List.length (skipn i index)).
  { intros i acc this Hi. rewrite (skipn_all2 index Hi). simpl. lia. }
  induction fuel as [|fuel IH]; intros i acc this Hfuel.
  - cbn. split; [apply (Hdone i acc this); lia | auto].
  - cbn [item_batches]. destruct (i <? List.length index)%nat eqn:Hi.
    + pose proof (batch_lengths index i) as Hlen.
      pose proof (storeItemBatch_keeps_rest w (firstn 5 (skipn i index)) this)
        as [Hk1 [_ [Hk2 Hk3]]].
      destruct (storeItemBatch w (firstn 5 (skipn i index)) this)
        as [[result|e] this1] eqn:Hrun; cbn [snd] in Hk1, Hk2, Hk3.
      * pose proof (storeItemBatch_tally w _ this this1 result Hrun) as Ht.
        match goal with
        | |- context [item_batches w index _ fuel (i + 5) ?a this1] =>
            destruct (IH (i + 5) a this1 ltac:(lia)) as [H1 [H2 [H3 H4]]]
        end.
        cbn [processedItems failedItems] in H1.
        split; [lia|]. split; [congruence|]. split; congruence.
      * match goal with
        | |- context [item_batches w index _ fuel (i + 5) ?a this1] =>
            destruct (IH (i + 5) a this1 ltac:(lia)) as [H1 [H2 [H3 H4]]]
        end.
        cbn [processedItems failedItems] in H1.
        split; [lia|]. split; [congruence|]. split; congruence.
    + apply Nat.ltb_ge in Hi. cbn [fst snd].
      split; [apply (Hdone i acc this Hi) | auto].
Qed.

Lemma bind_resolved {A B} (c : M A) (k : A -> M B) (this this' : DBManager)
    (b : B) :
  bind c k this = (Resolved b, this') ->
  exists a this1, c this = (Resolved a, this1) /\ k a this1 = (Resolved b, this').
Proof.
  unfold bind. destruct (c this) as [[a|e] this1]; [|discriminate].
  intros H. exists a, this1. auto.
Qed.

(** When a run completes, it ended in the item step. *)
Lemma importData_completed (w : World) (this this' : DBManager)
    (r : ImportResult) :
  importData w this = (r, this') -> returned r = true ->
  exists this0 this1 this2 this3 this4 e1 e2 e3 e4,
    clearStep w this0 = (Resolved e1, this1) /\
    loadIndex w this1 = (Resolved e2, this2) /\
    loadAppInfo w this2 = (Resolved e3, this3) /\
    loadWorkflows w this3 = (Resolved e4, this4) /\
    loadItems w (e1 ++ e2 ++ e3 ++ e4)%list this4 = (Resolved r, this').
Proof.
  unfold importData. intros H Hret.
  destruct (if ready this then (Resolved true, this) else initDB w this)
    as [[b|e] this0]; [|inversion H; subst; discriminate].
  destruct (import_steps w this0) as [[r0|e] this9] eqn:Hsteps;
    [|inversion H; subst; discriminate].
  inversion H. subst r0 this9. clear H.
  unfold import_steps in Hsteps.
  apply bind_resolved in Hsteps. destruct Hsteps as [e1 [this1 [H1 Hsteps]]].
  apply bind_resolved in Hsteps. destruct Hsteps as [e2 [this2 [H2 Hsteps]]].
  apply bind_resolved in Hsteps. destruct Hsteps as [e3 [this3 [H3 Hsteps]]].
  apply bind_resolved in Hsteps. destruct Hsteps as [e4 [this4 [H4 Hsteps]]].
  exists this0, this1, this2, this3, this4, e1, e2, e3, e4. auto.
Qed.

(** X11.  A run that completes accounts for every entry of the index it
    worked on exactly once, whatever the network and the store did: the
    tallies of processed and failed items add up to the length of
    [this.itemIndex]. *)
Theorem importData_counts_every_index_entry
    (w : World) (this this' : DBManager) (errors : list string)
    (processed failedCount : nat) :
  importData w this = (Completed errors processed failedCount, this') ->
  exists index,
    itemIndex this' = VArr index /\
    processed + failedCount = List.length index.
Proof.
  intros H.
  destruct (importData_completed w this this' _ H eq_refl)
    as [this0 [this1 [this2 [this3 [this4 [e1 [e2 [e3 [e4
         [_ [Hix [Happ [Hwf Hitems]]]]]]]]]]]]].
  destruct (loadIndex_resolves w this1) as [es [l Hl]].
  rewrite Hl in Hix. inversion Hix. subst es this2. clear Hix.
  assert (Hi3 : itemIndex this3 = VArr l).
  { revert Happ. unfold loadAppInfo, try_catch, bind, lift, throw, ret,
      storeAppInfo, read_json, unusable, get_prop.
    repeat (break_match; try discriminate);
      intros H0; inversion H0; subst; reflexivity. }
  assert (Hi4 : itemIndex this4 = VArr l).
  { revert Hwf. unfold loadWorkflows, try_catch, bind, lift, throw, ret,
      storeWorkflows, read_json, unusable.
    repeat (break_match; try discriminate);
      intros H0; inversion H0; subst; exact Hi3. }
  exists l. revert Hitems. unfold loadItems. rewrite Hi4.
  destruct (0 <? List.length l)%nat eqn:Hlen.
  - pose proof (item_batches_tally w l (List.length l) 0 (mkTally 0 0 []) this4
                  ltac:(lia)) as [Ht [Hi _]].
    destruct (item_batches w l (List.length l) (List.length l) 0
                (mkTally 0 0 []) this4) as [tally this9].
    cbn [fst snd processedItems failedItems skipn] in Ht, Hi.
    intros H0. inversion H0. subst. split; [congruence | lia].
  - apply Nat.ltb_ge in Hlen. intros H0. inversion H0. subst.
    split; [exact Hi4 | lia].
Qed.

Lemma importData_counts_every_index_entry_witness :
  exists index,
    itemIndex (snd (importData scenario new_DBManager)) = VArr index /\
    1 + 1 = List.length index.
Proof.
  exact (importData_counts_every_index_entry scenario new_DBManager _ _ 1 1
           eq_refl).
Defined.

(** ** A batch is one transaction *)

Lemma issued_puts_valid (records : list value) :
  Forall (fun r => valid_key (prop r "uniqueId") = true) records ->
  issued_puts records = puts_of records.
Proof.
  induction 1 as [|r records Hkey _ IH]; simpl.
  - reflexivity.
  - rewrite Hkey, IH. reflexivity.
Qed.

(** X12.  A batch whose loaded records all have valid keys is stored in one
    transaction, all or nothing.  If the store takes every put, all loaded
    records are committed and the tallies are exact.  If it refuses one, the
    'items' store is left as it was; the call then rejects with 'Transaction
    failed', unless the refused put was the last one: then it resolves and
    still reports the puts before it as succeeded. *)
Theorem storeItemBatch_all_or_nothing
    (w : World) (batch : list value) (this : DBManager) (d : Database) :
  db this = Some d ->
  Forall (fun r => valid_key (prop r "uniqueId") = true) (loaded w batch) ->
  match first_refused w Items (puts_of (loaded w batch)) 0 with
  | None =>
      fst (storeItemBatch w batch this) =
        Resolved (mkBatchResult (List.length (loaded w batch))
                                (load_failures w batch)) /\
      items_of (snd (storeItemBatch w batch this)) =
        commit (puts_of (loaded w batch)) (items d)
  | Some (pos, e) =>
      items_of (snd (storeItemBatch w batch this)) = items d /\
      fst (storeItemBatch w batch this) =
        if (pos + 1 =? List.length (loaded w batch))%nat
        then Resolved (mkBatchResult pos (load_failures w batch + 1))
        else Rejected (Error ("Transaction failed: " ++ message e))
  end.
Proof.
  intros Hd Hvalid. unfold storeItemBatch.
  rewrite Hd, map_filter_map, load_failures_map. fold (loaded w batch).
  rewrite (issued_puts_valid _ Hvalid).
  assert (Hlen : (List.length (puts_of (loaded w batch)) <?
                  List.length (loaded w batch))%nat = false).
  { unfold puts_of. rewrite length_map. apply Nat.ltb_irrefl. }
  rewrite Hlen. clear Hlen.
  destruct (loaded w batch) as [|r records] eqn:Hl.
  - simpl. unfold items_of. rewrite Hd. split; reflexivity.
  - change (List.length (r :: records) =? 0)%nat with false. cbv iota.
    destruct (first_refused w Items (puts_of (r :: records)) 0) as [[pos e]|].
    + destruct (pos + 1 =? List.length (r :: records))%nat; cbn [fst snd];
        unfold items_of; rewrite Hd; split; reflexivity.
    + cbn [fst snd]. unfold items_of. split; reflexivity.
Qed.

Lemma storeItemBatch_all_or_nothing_witness :
  items_of (snd (storeItemBatch refusing_world abc_batch fresh_manager)) = [] /\
  fst (storeItemBatch refusing_world abc_batch fresh_manager) =
    Resolved (mkBatchResult 2 1).
Proof.
  exact (storeItemBatch_all_or_nothing refusing_world abc_batch fresh_manager
           empty_db eq_refl ltac:(repeat constructor)).
Defined.

(** ** What a completed run leaves in the store *)

Lemma storeAppInfo_record (w : World) (payload : value) (this : DBManager) :
  fst (storeAppInfo w payload this) = Resolved tt ->
  prop (coll_get (VStr "appInfo") (appInfo_of (snd (storeAppInfo w payload this))))
       "key" = VStr "appInfo" /\
  truthy (prop (coll_get (VStr "appInfo")
                  (appInfo_of (snd (storeAppInfo w payload this)))) "version")
    = true /\
  truthy (prop (coll_get (VStr "appInfo")
                  (appInfo_of (snd (storeAppInfo w payload this)))) "name")
    = true.
Proof.
  intros H. destruct (storeAppInfo_resolved w payload this H) as [d [Hd [Hn Hs]]].
  rewrite Hs, coll_get_put. cbn [value_eqb]. rewrite String.eqb_refl.
  split; [reflexivity|]. split; [apply truthy_js_or; reflexivity|].
  cbn [prop assoc String.eqb Ascii.eqb Bool.eqb].
  apply truthy_js_or, truthy_js_or. reflexivity.
Qed.

Lemma loadAppInfo_resolved (w : World) (this this' : DBManager)
    (es : list string) :
  loadAppInfo w this = (Resolved es, this') ->
  exists payload,
    fst (storeAppInfo w payload this) = Resolved tt /\
    this' = snd (storeAppInfo w payload this).
Proof.
  unfold loadAppInfo, try_catch, bind, lift, throw, ret, read_json, unusable.
  assert (Hrej : forall payload e s,
            storeAppInfo w payload this = (Rejected e, s) -> s = this).
  { intros payload e s. unfold storeAppInfo, get_prop.
    repeat break_match; intros H; inversion H; reflexivity. }
  assert (Hfallback :
            forall msg : string,
            match storeAppInfo w (fallback_appInfo w) this with
            | (Resolved _, s) => (Resolved [msg], s)
            | (Rejected e, s) => (Rejected e, s)
            end = (Resolved es, this') ->
            exists payload,
              fst (storeAppInfo w payload this) = Resolved tt /\
              this' = snd (storeAppInfo w payload this)).
  { intros msg H. exists (fallback_appInfo w).
    destruct (storeAppInfo w (fallback_appInfo w) this) as [[[]|e] s];
      inversion H. subst. auto. }
  destruct (fst (fetchWithRetry (net w "./data/app-info.json") 3))
    as [[r|]|e]; cbn [negb]; try (apply Hfallback).
  destruct (ok r); cbn [negb]; try (apply Hfallback).
  destruct (body r) as [e| |e|v]; try (apply Hfallback).
  destruct (storeAppInfo w v this) as [[[]|e] s] eqn:Hs.
  - intros H. inversion H. subst. exists v. rewrite Hs. auto.
  - rewrite (Hrej v e s Hs). apply Hfallback.
Qed.

Lemma loadWorkflows_keeps_rest (w : World) (this : DBManager) :
  appInfo_of (snd (loadWorkflows w this)) = appInfo_of this /\
  items_of (snd (loadWorkflows w this)) = items_of this /\
  itemIndex (snd (loadWorkflows w this)) = itemIndex this.
Proof.
  destruct (db this) as [d|] eqn:Hd.
  - destruct (loadWorkflows_cases w this d Hd)
      as [es [-> | [_ [validated [_ ->]]]]]; cbn [snd].
    + auto.
    + unfold appInfo_of, items_of. rewrite Hd. cbn. auto.
  - unfold loadWorkflows, try_catch, bind, lift, throw, ret, storeWorkflows,
      read_json, unusable.
    destruct (fst (fetchWithRetry (net w "./data/workflows.json") 3))
      as [[r|]|e]; simpl; auto.
    destruct (ok r); simpl; auto.
    destruct (body r) as [e| |e|v]; simpl; auto.
    destruct (normalize_workflows v) as [validated|e]; simpl; auto.
    rewrite Hd. simpl. auto.
Qed.

Lemma loadItems_keeps_rest (w : World) (errors : list string)
    (this : DBManager) :
  appInfo_of (snd (loadItems w errors this)) = appInfo_of this /\
  workflows_of (snd (loadItems w errors this)) = workflows_of this.
Proof.
  unfold loadItems. destruct (0 <? _)%nat; [|auto].
  match goal with
  | |- context [item_batches w ?ix _ _ 0 ?a this] =>
      pose proof (item_batches_tally w ix (List.length ix) 0 a this ltac:(lia))
        as [_ [_ [H1 H2]]];
      destruct (item_batches w ix (List.length ix) (List.length ix) 0 a this)
  end.
  cbn [snd] in *. auto.
Qed.

(** X13.  Application information is never absent after a run that
    completes: whatever the network answered, the 'appInfo' store holds a
    record under the key 'appInfo' whose 'version' and 'name' are truthy. *)
Theorem importData_always_leaves_appInfo
    (w : World) (this this' : DBManager) (errors : list string)
    (processed failedCount : nat) :
  importData w this = (Completed errors processed failedCount, this') ->
  prop (coll_get (VStr "appInfo") (appInfo_of this')) "key" = VStr "appInfo" /\
  truthy (prop (coll_get (VStr "appInfo") (appInfo_of this')) "version") = true /\
  truthy (prop (coll_get (VStr "appInfo") (appInfo_of this')) "name") = true.
Proof.
  intros H.
  destruct (importData_completed w this this' _ H eq_refl)
    as [this0 [this1 [this2 [this3 [this4 [e1 [e2 [e3 [e4
         [_ [_ [Happ [Hwf Hitems]]]]]]]]]]]]].
  destruct (loadAppInfo_resolved w this2 this3 e3 Happ) as [payload [Hs ->]].
  pose proof (loadWorkflows_keeps_rest w (snd (storeAppInfo w payload this2)))
    as [Hk _].
  rewrite Hwf in Hk. cbn [snd] in Hk.
  pose proof (loadItems_keeps_rest w (e1 ++ e2 ++ e3 ++ e4)%list this4)
    as [Hk' _].
  rewrite Hitems in Hk'. cbn [snd] in Hk'.
  rewrite Hk', Hk. apply storeAppInfo_record, Hs.
Qed.

Lemma importData_always_leaves_appInfo_witness :
  prop (coll_get (VStr "appInfo")
          (appInfo_of (snd (importData world_500 new_DBManager)))) "key"
    = VStr "appInfo" /\
  truthy (prop (coll_get (VStr "appInfo")
                  (appInfo_of (snd (importData world_500 new_DBManager))))
               "version") = true /\
  truthy (prop (coll_get (VStr "appInfo")
                  (appInfo_of (snd (importData world_500 new_DBManager))))
               "name") = true.
Proof.
  exact (importData_always_leaves_appInfo world_500 new_DBManager _ _ 0 0
           eq_refl).
Defined.

(** The run up to the item loop on an open database whose store takes the
    application information, whatever the index turns out to be. *)
Lemma import_steps_until_items (w : World) (this : DBManager) (d : Database) :
  ready this = true -> db this = Some d ->
  idb_put_error w AppInfo (VStr "appInfo") = None ->
  exists e1 e2 e3 e4 l this4 d4,
    loadIndex w (mkDBManager (Some (after_clear w d)) true (itemIndex this)) =
      (Resolved e2, mkDBManager (Some (after_clear w d)) true (VArr l)) /\
    import_steps w this = loadItems w (e1 ++ e2 ++ e3 ++ e4)%list this4 /\
    db this4 = Some d4 /\ items d4 = items (after_clear w d) /\
    itemIndex this4 = VArr l /\ ready this4 = true.
Proof.
  intros Hr Hd Hput.
  destruct (import_steps_opened w this d Hr Hd) as [e1 [e2 [l [Hix ->]]]].
  destruct (loadAppInfo_cases w
              (mkDBManager (Some (after_clear w d)) true (VArr l))
              (after_clear w d) eq_refl)
    as [[_ [e3 [c Happ]]] | [e [Hput' _]]]; [|congruence].
  rewrite Happ.
  destruct (loadWorkflows_cases w
              (set_db (set_appInfo c (after_clear w d))
                 (mkDBManager (Some (after_clear w d)) true (VArr l)))
              _ eq_refl) as [e4 [Hwf | [-> [validated [_ Hwf]]]]];
    rewrite Hwf; exists e1, e2, e3; eexists; exists l; eexists; eexists;
    (split; [exact Hix|]); (split; [reflexivity|]); repeat split; reflexivity.
Qed.

Lemma completed_run_opens (w : World) (this this' : DBManager)
    (r : ImportResult) :
  consistent this ->
  importData w this = (r, this') -> returned r = true ->
  exists d,
    opens w this d /\ idb_put_error w AppInfo (VStr "appInfo") = None.
Proof.
  intros Hcons Hrun Hret.
  assert (Hret' : returned (fst (importData w this)) = true)
    by (rewrite Hrun; exact Hret).
  destruct (ready this) eqn:Hr.
  - destruct (Hcons Hr) as [d Hd]. exists d. split; [left; auto|].
    rewrite (importData_opened_returned w this d Hr Hd) in Hret'.
    destruct (idb_put_error w AppInfo (VStr "appInfo")); [discriminate|auto].
  - rewrite (importData_closed w this Hr) in Hret'.
    destruct (idb_open w) as [d|e] eqn:Ho; [|discriminate].
    exists d. split; [right; auto|].
    rewrite (importData_opened_returned w
               (mkDBManager (Some d) true (itemIndex this)) d
               eq_refl eq_refl) in Hret'.
    destruct (idb_put_error w AppInfo (VStr "appInfo")); [discriminate|auto].
Qed.

(** X14.  No stale item survives a run whose clearing step succeeds: when
    the run completes, every record of the 'items' store is the record the
    run built for an entry of its index, stored under that entry's id. *)
Theorem importData_leaves_only_indexed_items
    (w : World) (this this' : DBManager) (errors : list string)
    (processed failedCount : nat) :
  consistent this ->
  idb_clear_error w = None ->
  importData w this = (Completed errors processed failedCount, this') ->
  exists index,
    itemIndex this' = VArr index /\
    forall key,
      coll_get key (items_of this') <> VUndef ->
      exists e,
        In e index /\ prop e "id" = key /\
        loadItem w e = Some (coll_get key (items_of this')).
Proof.
  intros Hcons Hclear Hrun.
  destruct (completed_run_opens w this this' _ Hcons Hrun eq_refl)
    as [d [Hopens Hput]].
  destruct (importData_opens w this d Hopens) as [this0 [Heq [Hr Hd]]].
  rewrite Heq, (importData_opened w this0 Hr) in Hrun.
  destruct (import_steps_until_items w this0 d Hr Hd Hput)
    as [e1 [e2 [e3 [e4 [l [this4 [d4 [_ [Hsteps [Hd4 [Hitems [Hix Hr4]]]]]]]]]]]].
  rewrite Hsteps in Hrun. unfold loadItems in Hrun. rewrite Hix in Hrun.
  unfold after_clear in Hitems. rewrite Hclear in Hitems. cbn in Hitems.
  exists l.
  destruct (0 <? List.length l)%nat.
  - destruct (item_batches_frame w l (List.length l) (List.length l) 0
                (mkTally 0 0 []) this4 d4 Hd4)
      as [acc' [this9 [puts [Hloop [Hst Hfrom]]]]].
    rewrite Hloop in Hrun. inversion Hrun. subst this9.
    split.
    { destruct Hst as [d0 [_ [_ [_ Hi]]]]. congruence. }
    intros key Hkey. rewrite (stores_items_items _ _ _ Hst) in *.
    rewrite Hitems in *.
    destruct (commit_get_cases key puts []) as [Hnone | [r [Hin Hget]]].
    + rewrite Hnone in Hkey. exfalso. apply Hkey. reflexivity.
    + rewrite Hget. rewrite Forall_forall in Hfrom.
      destruct (Hfrom _ Hin) as [Hk Hl]. cbn [fst snd] in Hk, Hl.
      apply map_filter_In in Hl. destruct Hl as [e [He Hload]].
      exists e. split; [exact He|]. split; [|exact Hload].
      rewrite Hk. symmetry. apply (loadItem_record w e r Hload).
  - inversion Hrun. subst this4. split; [exact Hix|].
    intros key Hkey. exfalso. apply Hkey. unfold items_of.
    rewrite Hd4, Hitems. reflexivity.
Qed.

Lemma importData_leaves_only_indexed_items_witness :
  exists index,
    itemIndex (snd (importData scenario new_DBManager)) = VArr index /\
    forall key,
      coll_get key (items_of (snd (importData scenario new_DBManager)))
        <> VUndef ->
      exists e,
        In e index /\ prop e "id" = key /\
        loadItem scenario e =
        Some (coll_get key (items_of (snd (importData scenario new_DBManager)))).
Proof.
  exact (importData_leaves_only_indexed_items scenario new_DBManager _ _ 1 1
           ltac:(intros H; discriminate H) eq_refl eq_refl).
Defined.

Lemma loadIndex_failed (w : World) (this : DBManager) :
  index_fails w ->
  exists msg,
    loadIndex w this =
    (Resolved ["Failed to load item index: " ++ msg],
     mkDBManager (db this) (ready this) (VArr [])).
Proof.
  intros Hfails. unfold index_fails in Hfails.
  unfold loadIndex, try_catch, bind, lift, throw, ret, set_itemIndex,
    read_json, unusable.
  destruct (fst (fetchWithRetry (net w "./data/item-index.json") 3))
    as [[r|]|e]; simpl; try (eexists; reflexivity).
  destruct (ok r); simpl; try (eexists; reflexivity).
  specialize (Hfails r eq_refl).
  destruct (body r) as [e| |e|v]; simpl; try (eexists; reflexivity).
  destruct v; simpl; try (eexists; reflexivity).
  exfalso. apply (Hfails elems). reflexivity.
Qed.

(** X15.  A run whose index cannot be used (the file is not fetched, is
    empty, does not parse or is no array) still completes: it works on an
    empty index, touches no item, reports tallies 0 and 0 and carries a
    warning 'Failed to load item index'. *)
Theorem importData_without_index_imports_nothing
    (w : World) (this : DBManager) (d : Database) :
  opens w this d ->
  idb_put_error w AppInfo (VStr "appInfo") = None ->
  index_fails w ->
  exists errors this' msg,
    importData w this = (Completed errors 0 0, this') /\
    itemIndex this' = VArr [] /\
    items_of this' = items (after_clear w d) /\
    In ("Failed to load item index: " ++ msg) errors.
Proof.
  intros Hopens Hput Hfails.
  destruct (importData_opens w this d Hopens) as [this0 [-> [Hr Hd]]].
  rewrite (importData_opened w this0 Hr).
  destruct (import_steps_until_items w this0 d Hr Hd Hput)
    as [e1 [e2 [e3 [e4 [l [this4 [d4 [Hl [-> [Hd4 [Hitems [Hix Hr4]]]]]]]]]]]].
  destruct (loadIndex_failed w
              (mkDBManager (Some (after_clear w d)) true (itemIndex this0))
              Hfails) as [msg Hmsg].
  rewrite Hmsg in Hl. cbn [db ready] in Hl. inversion Hl. subst e2 l.
  unfold loadItems. rewrite Hix. cbn.
  eexists. exists this4, msg. split; [reflexivity|]. split; [exact Hix|].
  split; [unfold items_of; rewrite Hd4; exact Hitems|].
  apply in_or_app. right. left. reflexivity.
Qed.

Lemma importData_without_index_imports_nothing_witness :
  exists errors this' msg,
    importData world_500 new_DBManager = (Completed errors 0 0, this') /\
    itemIndex this' = VArr [] /\
    items_of this' = [] /\
    In ("Failed to load item index: " ++ msg) errors.
Proof.
  refine (importData_without_index_imports_nothing world_500 new_DBManager
            empty_db _ eq_refl _).
  - right. split; reflexivity.
  - intros r H. discriminate H.
Defined.

(** ** The service worker's cache *)

Lemma cache_match_put (u u' : string) (r : SW.HttpResponse) (c : SW.Cache) :
  SW.cache_match u (SW.cache_put u' r c) =
  if u' =? u then Some r else SW.cache_match u c.
Proof.
  induction c as [|[k x] c IH]; cbn [SW.cache_put SW.cache_match].
  - reflexivity.
  - destruct (k =? u') eqn:Hk; cbn [SW.cache_match].
    + apply String.eqb_eq in Hk. subst k. destruct (u' =? u); reflexivity.
    + rewrite IH. destruct (k =? u) eqn:Hu; [|reflexivity].
      apply String.eqb_eq in Hu. subst k. rewrite String.eqb_sym, Hk.
      reflexivity.
Qed.

(** The loop of the install listener over any list of references, from any
    cache. *)
Lemma precache_fold (loc : SW.Location) (fetch : SW.Network) (u : string) :
  forall refs cache,
  SW.cache_match u
    (fold_left
       (fun cache ref =>
          match fetch (SW.resolve loc ref) with
          | Some resp =>
              if SW.http_ok resp
              then SW.cache_put (SW.resolve loc ref) resp cache
              else cache
          | None => cache
          end)
       refs cache) =
  if existsb (fun ref => SW.resolve loc ref =? u) refs
  then match SWCaches.fetched_ok fetch u with
       | Some r => Some r
       | None => SW.cache_match u cache
       end
  else SW.cache_match u cache.
Proof.
  induction refs as [|ref refs IH]; intros cache; cbn [fold_left existsb].
  - reflexivity.
  - rewrite IH. destruct (SW.resolve loc ref =? u) eqn:Hu.
    + apply String.eqb_eq in Hu. subst u. cbn [orb].
      unfold SWCaches.fetched_ok.
      destruct (fetch (SW.resolve loc ref)) as [resp|];
        [destruct (SW.http_ok resp)|];
        destruct (existsb _ refs);
        rewrite ?cache_match_put, ?String.eqb_refl; reflexivity.
    + cbn [orb].
      assert (Hsame :
        SW.cache_match u
          match fetch (SW.resolve loc ref) with
          | Some resp =>
              if SW.http_ok resp
              then SW.cache_put (SW.resolve loc ref) resp cache
              else cache
          | None => cache
          end = SW.cache_match u cache).
      { destruct (fetch (SW.resolve loc ref)) as [resp|]; [|reflexivity].
        destruct (SW.http_ok resp); [|reflexivity].
        rewrite cache_match_put, Hu. reflexivity. }
      rewrite Hsame. reflexivity.
Qed.

Lemma install_match (loc : SW.Location) (fetch : SW.Network) (u : string) :
  SW.cache_match u (SW.install loc fetch) =
  if existsb (fun ref => SW.resolve loc ref =? u) SW.PRECACHE_URLS
  then SWCaches.fetched_ok fetch u
  else None.
Proof.
  unfold SW.install. rewrite precache_fold. cbn [SW.cache_match].
  destruct (existsb _ SW.PRECACHE_URLS); [|reflexivity].
  destruct (SWCaches.fetched_ok fetch u); reflexivity.
Qed.

Lemma on_fetch_serves (loc : SW.Location) (fetch : SW.Network)
    (cache : SW.Cache) (req : SW.Request) :
  SW.on_fetch loc fetch cache req = SW.serve_listener loc fetch cache req.
Proof.
  unfold SW.on_fetch, SW.fetch_listeners. cbn [SW.dispatch].
  unfold SW.serve_listener.
  destruct (SW.isScriptOrStyle req).
  - destruct (fetch (SW.url req)); reflexivity.
  - destruct (SW.cache_match (SW.url req) cache); [reflexivity|].
    destruct (fetch (SW.url req)); [reflexivity|].
    destruct (SW.mode req =? "navigate"); reflexivity.
Qed.



(** X17.  A precache file that the install step fetched with an ok status
    is served from the cache, unchanged, when it is requested with the
    network down, be it a script, a style sheet or anything else; the cache
    stays as it is. *)
Theorem precached_file_is_served_offline
    (loc : SW.Location) (fetch offline : SW.Network) (req : SW.Request)
    (ref : string) (r : SW.HttpResponse) :
  (forall v x, fetch v = Some x -> SWCaches.cacheable x) ->
  In ref SW.PRECACHE_URLS ->
  SW.url req = SW.resolve loc ref ->
  fetch (SW.url req) = Some r ->
  SW.http_ok r = true ->
  offline (SW.url req) = None ->
  SW.on_fetch loc offline (SW.install loc fetch) req =
  SW.RespondedWith (Some r) (SW.install loc fetch).
Proof.
  intros _ Hin Hurl Hfetch Hok Hoff.
  assert (Hcached : SW.cache_match (SW.url req) (SW.install loc fetch) = Some r).
  { rewrite install_match.
    replace (existsb (fun ref0 => SW.resolve loc ref0 =? SW.url req)
                     SW.PRECACHE_URLS) with true.
    - unfold SWCaches.fetched_ok. rewrite Hfetch, Hok. reflexivity.
    - symmetry. apply existsb_exists. exists ref. split; [exact Hin|].
      rewrite Hurl. apply String.eqb_refl. }
  rewrite on_fetch_serves. unfold SW.serve_listener.
  destruct (SW.isScriptOrStyle req).
  - rewrite Hoff, Hcached. reflexivity.
  - rewrite Hcached. reflexivity.
Qed.

Lemma precached_file_is_served_offline_witness :
  SW.on_fetch SWScenario.root SWScenario.offline
    (SW.install SWScenario.root SWScenario.complete_site)
    SWCaches.script_request =
  SW.RespondedWith (Some (SWScenario.page "https://example.org/js/app.js"))
    (SW.install SWScenario.root SWScenario.complete_site).
Proof.
  refine (precached_file_is_served_offline SWScenario.root
            SWScenario.complete_site SWScenario.offline
            SWCaches.script_request "./js/app.js"
            (SWScenario.page "https://example.org/js/app.js") _ _ _ _ _ _).
  - intros v x E. inversion E. unfold SWCaches.cacheable. cbn. discriminate.
  - cbn. tauto.
  - reflexivity.
  - reflexivity.
  - reflexivity.
  - reflexivity.
Defined.

(** X18.  Network first for scripts and style sheets: when the network
    answers, the worker returns that answer, whatever the cache held, and
    keeps a copy; a later request for the same URL with the network down
    gets that copy.  The entries of other URLs are not touched. *)
Theorem network_first_refreshes_the_cache
    (loc : SW.Location) (fetch : SW.Network) (cache : SW.Cache)
    (req : SW.Request) (resp : SW.HttpResponse) :
  SW.isScriptOrStyle req = true ->
  fetch (SW.url req) = Some resp ->
  SWCaches.cacheable resp ->
  exists cache',
    SW.on_fetch loc fetch cache req = SW.RespondedWith (Some resp) cache' /\
    (forall loc' offline,
       offline (SW.url req) = None ->
       SW.on_fetch loc' offline cache' req =
       SW.RespondedWith (Some resp) cache') /\
    (forall u, u <> SW.url req ->
       SW.cache_match u cache' = SW.cache_match u cache).
Proof.
  intros Hs Hfetch _.
  exists (SW.cache_put (SW.url req) resp cache).
  split; [|split].
  - rewrite on_fetch_serves. unfold SW.serve_listener.
    rewrite Hs, Hfetch. reflexivity.
  - intros loc' offline Hoff. rewrite on_fetch_serves.
    unfold SW.serve_listener. rewrite Hs, Hoff, cache_match_put,
      String.eqb_refl. reflexivity.
  - intros u Hu. rewrite cache_match_put.
    destruct (SW.url req =? u) eqn:E; [|reflexivity].
    apply String.eqb_eq in E. congruence.
Qed.

Lemma network_first_refreshes_the_cache_witness :
  exists cache',
    SW.on_fetch SWScenario.root SWScenario.complete_site
      [("https://example.org/js/app.js", SWScenario.page "old")]
      SWCaches.script_request =
    SW.RespondedWith (Some (SWScenario.page "https://example.org/js/app.js"))
      cache' /\
    (forall loc' offline,
       offline (SW.url SWCaches.script_request) = None ->
       SW.on_fetch loc' offline cache' SWCaches.script_request =
       SW.RespondedWith
         (Some (SWScenario.page "https://example.org/js/app.js")) cache') /\
    (forall u, u <> SW.url SWCaches.script_request ->
       SW.cache_match u cache' =
       SW.cache_match u
         [("https://example.org/js/app.js", SWScenario.page "old")]).
Proof.
  refine (network_first_refreshes_the_cache SWScenario.root
            SWScenario.complete_site
            [("https://example.org/js/app.js", SWScenario.page "old")]
            SWCaches.script_request
            (SWScenario.page "https://example.org/js/app.js") _ _ _).
  - reflexivity.
  - reflexivity.
  - unfold SWCaches.cacheable. cbn. discriminate.
Defined.

(** X19.  Cache first for everything else: the first answer of the network
    to a URL that is not cached, whatever its status, is stored, and from
    then on every request for that URL that is not for a script or a style
    sheet gets this stored answer; the network is not asked again and the
    cache no longer changes. *)
Theorem cache_first_keeps_the_first_answer
    (loc : SW.Location) (fetch : SW.Network) (cache : SW.Cache)
    (req : SW.Request) (resp : SW.HttpResponse) :
  SW.isScriptOrStyle req = false ->
  SW.cache_match (SW.url req) cache = None ->
  fetch (SW.url req) = Some resp ->
  SWCaches.cacheable resp ->
  exists cache',
    SW.on_fetch loc fetch cache req = SW.RespondedWith (Some resp) cache' /\
    forall loc' fetch' req',
      SW.url req' = SW.url req ->
      SW.isScriptOrStyle req' = false ->
      SW.on_fetch loc' fetch' cache' req' =
      SW.RespondedWith (Some resp) cache'.
Proof.
  intros Hs Hmiss Hfetch _.
  exists (SW.cache_put (SW.url req) resp cache). split.
  - rewrite on_fetch_serves. unfold SW.serve_listener.
    rewrite Hs, Hmiss, Hfetch. reflexivity.
  - intros loc' fetch' req' Hurl Hs'. rewrite on_fetch_serves.
    unfold SW.serve_listener.
    rewrite Hs', Hurl, cache_match_put, String.eqb_refl. reflexivity.
Qed.

Lemma cache_first_keeps_the_first_answer_witness :
  exists cache',
    SW.on_fetch SWScenario.root SWCaches.unavailable []
      (SWScenario.navigation SWScenario.root) =
    SW.RespondedWith
      (Some (SW.mkHttpResponse 503 (Some "text/html") "Service Unavailable"))
      cache' /\
    forall loc' fetch' req',
      SW.url req' = SW.url (SWScenario.navigation SWScenario.root) ->
      SW.isScriptOrStyle req' = false ->
      SW.on_fetch loc' fetch' cache' req' =
      SW.RespondedWith
        (Some (SW.mkHttpResponse 503 (Some "text/html") "Service Unavailable"))
        cache'.
Proof.
  refine (cache_first_keeps_the_first_answer SWScenario.root
            SWCaches.unavailable [] (SWScenario.navigation SWScenario.root)
            (SW.mkHttpResponse 503 (Some "text/html") "Service Unavailable")
            _ _ _ _).
  - reflexivity.
  - reflexivity.
  - reflexivity.
  - unfold SWCaches.cacheable. cbn. discriminate.
Defined.

(** X20.  The worker answers every request itself, and answering never
    loses a cache entry: the entries of the other URLs are unchanged and
    every URL that had an entry still has one. *)
Theorem on_fetch_never_evicts
    (loc : SW.Location) (fetch : SW.Network) (cache : SW.Cache)
    (req : SW.Request) :
  exists response cache',
    SW.on_fetch loc fetch cache req = SW.RespondedWith response cache' /\
    (forall u, u <> SW.url req ->
       SW.cache_match u cache' = SW.cache_match u cache) /\
    (forall u, SW.cache_match u cache <> None ->
       SW.cache_match u cache' <> None).
Proof.
  rewrite on_fetch_serves. unfold SW.serve_listener.
  assert (Hput : forall resp,
    (forall u, u <> SW.url req ->
       SW.cache_match u (SW.cache_put (SW.url req) resp cache) =
       SW.cache_match u cache) /\
    (forall u, SW.cache_match u cache <> None ->
       SW.cache_match u (SW.cache_put (SW.url req) resp cache) <> None)).
  { intros resp. split; intros u Hu; rewrite cache_match_put;
      destruct (SW.url req =? u) eqn:E; try reflexivity; try exact Hu.
    - apply String.eqb_eq in E. congruence.
    - discriminate. }
  destruct (SW.isScriptOrStyle req).
  - destruct (fetch (SW.url req)) as [resp|]; eexists; eexists;
      (split; [reflexivity|]); [apply Hput | auto].
  - destruct (SW.cache_match (SW.url req) cache) as [cached|];
      [eexists; eexists; split; [reflexivity | auto]|].
    destruct (fetch (SW.url req)) as [resp|];
      [eexists; eexists; split; [reflexivity | apply Hput]|].
    destruct (SW.mode req =? "navigate");
      eexists; eexists; split; try reflexivity; auto.
Qed.

Lemma fold_delete (names : list string) :
  forall caches : SWCaches.CacheStorage,
  fold_left
    (fun remaining cacheName => SWCaches.caches_delete cacheName remaining)
    names caches =
  filter (fun e => negb (existsb (fun name => fst e =? name) names)) caches.
Proof.
  induction names as [|name names IH]; intros caches; cbn [fold_left existsb].
  - induction caches as [|e caches IHc]; [reflexivity|].
    cbn. f_equal. exact IHc.
  - rewrite IH. unfold SWCaches.caches_delete.
    induction caches as [|e caches IHc]; [reflexivity|].
    cbn [filter]. destruct (fst e =? name) eqn:E; cbn [negb orb filter].
    + exact IHc.
    + destruct (existsb _ names); cbn [negb]; [exact IHc | f_equal; exact IHc].
Qed.

Lemma activate_filter (caches : SWCaches.CacheStorage) :
  SWCaches.activate caches =
  filter (fun e => fst e =? SW.CACHE_NAME) caches.
Proof.
  unfold SWCaches.activate. rewrite fold_delete.
  apply filter_ext_in. intros e He.
  destruct (fst e =? SW.CACHE_NAME) eqn:E.
  - apply Bool.negb_true_iff.
    destruct (existsb _ _) eqn:Hex; [|reflexivity].
    apply existsb_exists in Hex. destruct Hex as [name [Hin Hname]].
    apply String.eqb_eq in Hname. subst name.
    apply filter_In in Hin. destruct Hin as [_ Hne].
    rewrite E in Hne. discriminate.
  - apply Bool.negb_false_iff. apply existsb_exists. exists (fst e). split.
    + apply filter_In. split.
      * unfold SWCaches.caches_keys. apply in_map. exact He.
      * rewrite E. reflexivity.
    + apply String.eqb_refl.
Qed.

Lemma filter_current_get (caches : SWCaches.CacheStorage) :
  SWCaches.caches_get SW.CACHE_NAME
    (filter (fun e => fst e =? SW.CACHE_NAME) caches) =
  SWCaches.caches_get SW.CACHE_NAME caches.
Proof.
  induction caches as [|[name c] caches IH]; [reflexivity|].
  cbn [filter fst SWCaches.caches_get].
  destruct (name =? SW.CACHE_NAME) eqn:E.
  - cbn [SWCaches.caches_get]. rewrite E. reflexivity.
  - exact IH.
Qed.

Lemma filter_absent (caches : SWCaches.CacheStorage) :
  ~ In SW.CACHE_NAME (SWCaches.caches_keys caches) ->
  filter (fun e => fst e =? SW.CACHE_NAME) caches = [].
Proof.
  induction caches as [|[name c] caches IH]; intros Hnot; [reflexivity|].
  cbn [filter fst]. destruct (name =? SW.CACHE_NAME) eqn:E.
  - apply String.eqb_eq in E. subst name. exfalso. apply Hnot. left.
    reflexivity.
  - apply IH. intros Hin. apply Hnot. right. exact Hin.
Qed.

(** X21.  The activate step deletes every cache but the current one and
    leaves the current one as it is, so that afterwards a lookup across all
    caches ([caches.match]) finds exactly what the current cache holds. *)
Theorem activate_leaves_only_the_current_cache
    (caches : SWCaches.CacheStorage) :
  NoDup (SWCaches.caches_keys caches) ->
  (forall name, In name (SWCaches.caches_keys (SWCaches.activate caches)) ->
                name = SW.CACHE_NAME) /\
  SWCaches.caches_get SW.CACHE_NAME (SWCaches.activate caches) =
    SWCaches.caches_get SW.CACHE_NAME caches /\
  forall u,
    SWCaches.caches_match u (SWCaches.activate caches) =
    match SWCaches.caches_get SW.CACHE_NAME caches with
    | Some current => SW.cache_match u current
    | None => None
    end.
Proof.
  intros Hnodup. rewrite activate_filter. split; [|split].
  - intros name Hin. unfold SWCaches.caches_keys in Hin.
    apply in_map_iff in Hin. destruct Hin as [e [<- He]].
    apply filter_In in He. destruct He as [_ He].
    apply String.eqb_eq in He. exact He.
  - apply filter_current_get.
  - intros u. induction caches as [|[name c] caches IH]; [reflexivity|].
    cbn [SWCaches.caches_keys map fst] in Hnodup.
    inversion Hnodup as [|? ? Hnotin Hrest]. subst.
    cbn [filter fst SWCaches.caches_get].
    destruct (name =? SW.CACHE_NAME) eqn:E.
    + apply String.eqb_eq in E. subst name.
      rewrite (filter_absent caches Hnotin).
      cbn [SWCaches.caches_match].
      destruct (SW.cache_match u c); reflexivity.
    + apply IH. exact Hrest.
Qed.

Lemma activate_leaves_only_the_current_cache_witness :
  (forall name,
     In name (SWCaches.caches_keys
                (SWCaches.activate SWCaches.three_generations)) ->
     name = SW.CACHE_NAME) /\
  SWCaches.caches_get SW.CACHE_NAME
    (SWCaches.activate SWCaches.three_generations) =
    SWCaches.caches_get SW.CACHE_NAME SWCaches.three_generations /\
  forall u,
    SWCaches.caches_match u (SWCaches.activate SWCaches.three_generations) =
    match SWCaches.caches_get SW.CACHE_NAME SWCaches.three_generations with
    | Some current => SW.cache_match u current
    | None => None
    end.
Proof.
  apply (activate_leaves_only_the_current_cache SWCaches.three_generations).
  unfold SWCaches.three_generations, SWCaches.caches_keys. cbn [map fst].
  repeat constructor; cbn; intros H;
    repeat (destruct H as [H | H]; [discriminate H|]); exact H.
Defined.

(** ** The page's loaders *)

Lemma normalize_array_kept (ws : list value) :
  forall index acc acc',
  normalize_array ws index acc = Resolved acc' ->
  (NoDup (map fst acc) -> NoDup (map fst acc')) /\
  (~ In "__proto__" (map fst acc) -> ~ In "__proto__" (map fst acc')) /\
  (Forall (fun e => is_workflow e = true) (map snd acc) ->
   Forall (fun e => is_workflow e = true) (map snd acc')).
Proof.
  induction ws as [|e ws IH]; intros index acc acc'; cbn [normalize_array].
  - intros H. inversion H. subst acc'. auto.
  - destruct (get_prop e "id"); [|discriminate].
    rewrite is_workflow_test. intros H.
    destruct (IH _ _ _ H) as [Hnd [Hnp Hval]].
    destruct (is_workflow e) eqn:E; [|auto].
    split; [|split]; intros Hacc.
    + apply Hnd, js_assign_NoDup, Hacc.
    + apply Hnp, js_assign_no_proto, Hacc.
    + apply Hval, js_assign_values; assumption.
Qed.

Lemma select_workflows_kept (entries : list (string * value)) :
  forall acc,
  Forall (fun e => is_workflow e = true) (map snd acc) ->
  Forall (fun e => is_workflow e = true)
         (map snd (App.select_workflows entries acc)).
Proof.
  induction entries as [|[k v] entries IH]; intros acc Hacc;
    cbn [App.select_workflows]; [exact Hacc|].
  apply IH. rewrite is_workflow_test.
  destruct (truthy v && typeof_object v); [|exact Hacc].
  destruct (is_workflow v) eqn:E; [|exact Hacc].
  apply js_assign_values; assumption.
Qed.

(** The page's loop over the entries of an object does what the loop of the
    import does on the entries that are not [null]. *)
Lemma select_workflows_validate (entries : list (string * value)) :
  forall acc,
  validate_entries (filter (fun e => negb (nullish (snd e))) entries) acc =
  Resolved (App.select_workflows entries acc).
Proof.
  induction entries as [|[k v] entries IH]; intros acc;
    cbn [filter snd App.select_workflows validate_entries]; [reflexivity|].
  destruct (nullish v) eqn:Hn; cbn [negb].
  - destruct v; try discriminate; cbn [truthy andb]; apply IH.
  - cbn [validate_entries]. unfold get_prop. rewrite Hn. rewrite IH.
    destruct v; try discriminate; cbn [truthy typeof_object andb prop];
      try reflexivity;
      repeat match goal with
             | |- context [if ?b then _ else _] => destruct b
             end; reflexivity.
Qed.

Lemma validate_entries_rejects (entries : list (string * value)) :
  forall acc,
  (exists e, In e entries /\ nullish (snd e) = true) <->
  (exists error, validate_entries entries acc = Rejected error).
Proof.
  induction entries as [|[k v] entries IH]; intros acc;
    cbn [validate_entries].
  - split; [intros [e [[] _]] | intros [error H]; discriminate H].
  - unfold get_prop. destruct (nullish v) eqn:Hn.
    + split; [intros _; eexists; reflexivity|].
      intros _. exists (k, v). split; [left; reflexivity | exact Hn].
    + rewrite <- IH. split.
      * intros [e [[<- | Hin] He]]; [cbn in He; congruence|].
        exists e. auto.
      * intros [e [Hin He]]. exists e. split; [right; exact Hin | exact He].
Qed.

Lemma collect_workflows_agrees (parsed : value)
    (validated : list (string * value)) :
  normalize_workflows parsed = Resolved validated ->
  App.collect_workflows parsed = Resolved validated.
Proof.
  unfold normalize_workflows, App.collect_workflows.
  destruct (negb (truthy parsed) || negb (typeof_object parsed));
    [discriminate|].
  destruct parsed as [| | | | |ws|entries]; try discriminate.
  - destruct (normalize_array ws 0 []) as [nw|err] eqn:Hn; [|discriminate].
    destruct (normalize_array_kept ws 0 [] nw Hn) as [Hnd [Hnp Hval]].
    rewrite (validate_entries_valid nw (Hval (Forall_nil _))).
    rewrite fold_js_assign_fresh.
    + cbn [app]. intros H. exact H.
    + cbn [app]. apply Hnd. constructor.
    + apply Hnp. intros [].
  - intros H.
    assert (Hnone : forall e, In e entries -> nullish (snd e) = false).
    { intros e He. destruct (nullish (snd e)) eqn:E; [|reflexivity].
      exfalso.
      destruct (proj1 (validate_entries_rejects entries [])
                  (ex_intro _ e (conj He E))) as [error Herr].
      congruence. }
    rewrite <- select_workflows_validate.
    replace (filter (fun e => negb (nullish (snd e))) entries) with entries;
      [exact H|].
    clear H. induction entries as [|e entries IH]; [reflexivity|].
    cbn [filter]. rewrite (Hnone e (or_introl eq_refl)). cbn [negb].
    f_equal. apply IH. intros e' He'. apply Hnone. right. exact He'.
Qed.

(** X22.  Whenever the import accepts a workflows payload, the page, given
    the same response to its own request for workflows.json, loads exactly
    the workflows the import hands to the store: same names, same values. *)
Theorem page_loads_the_workflows_the_import_stores
    (w : World) (statusText : string) (response : Response)
    (parsed : value) (validated : list (string * value)) :
  net w "data/workflows.json" 0 = Answer response ->
  ok response = true ->
  body response = Json parsed ->
  normalize_workflows parsed = Resolved validated ->
  App.loadWorkflows w statusText =
  (Resolved (VObj validated), VObj validated).
Proof.
  intros Hnet Hok Hbody Hnorm. unfold App.loadWorkflows.
  rewrite Hnet, Hok, Hbody. cbn [negb].
  rewrite (collect_workflows_agrees parsed validated Hnorm). reflexivity.
Qed.

Lemma page_loads_the_workflows_the_import_stores_witness :
  App.loadWorkflows
    (mkWorld (Resolved empty_db) None (fun _ _ => None)
       (fun _ _ => ok_json (VArr twin_workflows)) "2024-01-01T00:00:00.000Z")
    "OK" =
  (Resolved (VObj [("a", VObj [("id", VStr "a"); ("name", VStr "second");
                               ("items", VArr [])])]),
   VObj [("a", VObj [("id", VStr "a"); ("name", VStr "second");
                     ("items", VArr [])])]).
Proof.
  refine (page_loads_the_workflows_the_import_stores
            (mkWorld (Resolved empty_db) None (fun _ _ => None)
               (fun _ _ => ok_json (VArr twin_workflows))
               "2024-01-01T00:00:00.000Z")
            "OK" (mkResponse 200 (Json (VArr twin_workflows)))
            (VArr twin_workflows) _ _ _ _ _); reflexivity.
Defined.

(** X23.  For a payload that is an object the two loaders differ in one
    point only: the import rejects the payload exactly when one of its
    values is [null], while the page passes over such an entry and loads what
    the import would make of the payload without them. *)
Theorem page_passes_over_null_workflows (entries : list (string * value)) :
  ((exists e, In e entries /\ nullish (snd e) = true) <->
   (exists error, normalize_workflows (VObj entries) = Rejected error)) /\
  App.collect_workflows (VObj entries) =
  normalize_workflows
    (VObj (filter (fun e => negb (nullish (snd e))) entries)).
Proof.
  split.
  - unfold normalize_workflows. cbn. apply validate_entries_rejects.
  - unfold normalize_workflows, App.collect_workflows. cbn.
    symmetry. apply select_workflows_validate.
Qed.

(** X24.  Whatever the network gives, [loadWorkflows] leaves in
    [this.workflows] an object all of whose entries have an 'items' array:
    the object it returns when it resolves, and the empty object when it
    rejects, which it does with a message that starts with 'Failed to load
    workflows: '. *)
Theorem loadWorkflows_leaves_only_workflows
    (w : World) (statusText : string) :
  exists workflows,
    snd (App.loadWorkflows w statusText) = VObj workflows /\
    Forall (fun e => is_workflow e = true) (map snd workflows) /\
    match fst (App.loadWorkflows w statusText) with
    | Resolved returned => returned = VObj workflows
    | Rejected error =>
        workflows = [] /\
        exists reason, message error = "Failed to load workflows: " ++ reason
    end.
Proof.
  unfold App.loadWorkflows.
  match goal with
  | |- context [match ?a with Resolved _ => _ | Rejected _ => _ end] =>
      destruct a as [workflows|error] eqn:Ha
  end.
  - exists workflows. cbn [fst snd]. split; [reflexivity|].
    split; [|reflexivity].
    destruct (net w "data/workflows.json" 0) as [e|response];
      [discriminate|].
    destruct (negb (ok response)); [discriminate|].
    destruct (body response) as [e| |e|parsed]; try discriminate.
    unfold App.collect_workflows in Ha.
    destruct (negb (truthy parsed) || negb (typeof_object parsed));
      [discriminate|].
    destruct parsed as [| | | | |ws|entries]; try discriminate.
    + destruct (normalize_array_kept ws 0 [] workflows Ha) as [_ [_ Hval]].
      apply Hval. constructor.
    + inversion Ha. apply select_workflows_kept. constructor.
  - exists []. cbn [fst snd]. split; [reflexivity|].
    split; [constructor|]. split; [reflexivity|].
    exists (message error). reflexivity.
Qed.

Lemma loadItem_truthy (w : World) (e r : value) :
  loadItem w e = Some r -> truthy r = true.
Proof.
  unfold loadItem.
  destruct (negb (truthy e) || negb (truthy (prop e "id"))); [discriminate|].
  destruct (fst (fetchWithRetry (net w (item_url (prop e "id"))) 2))
    as [[response|]|err]; try discriminate.
  destruct (negb (ok response)); [discriminate|].
  destruct (body response) as [err| |err|payload]; try discriminate.
  destruct (negb (truthy payload) || negb (typeof_object payload));
    [discriminate|].
  intros H. inversion H. reflexivity.
Qed.

(** What a completed run leaves for an entry that loads and whose batch the
    store accepts. *)
Lemma importData_stores_entry
    (w : World) (this : DBManager) (d : Database) (index : list value)
    (p : nat) (e r : value) :
  opens w this d ->
  idb_put_error w AppInfo (VStr "appInfo") = None ->
  index_is w index ->
  nth_error index p = Some e ->
  loadItem w e = Some r ->
  Forall (accepted w) (loaded w (batch_of index p)) ->
  exists d',
    ready (snd (importData w this)) = true /\
    db (snd (importData w this)) = Some d' /\
    valid_key (prop e "id") = true /\
    loaded_record w (prop e "id") (coll_get (prop e "id") (items d')).
Proof.
  intros Hopens Hput Hindex He Hr Hacc.
  assert (Hp : p < List.length index).
  { apply nth_error_Some. congruence. }
  assert (Hkey : valid_key (prop e "id") = true).
  { rewrite Forall_forall in Hacc.
    destruct (Hacc r) as [Hv _].
    - apply map_filter_In. exists e. split; [|exact Hr].
      unfold batch_of.
      apply (nth_error_batch index (5 * (p / 5)) p e); [|exact He].
      pose proof (Nat.div_mod_eq p 5) as Hdm.
      pose proof (Nat.mod_upper_bound p 5 ltac:(lia)). lia.
    - destruct (loadItem_record w e r Hr) as [<- _]. exact Hv. }
  destruct (importData_opens w this d Hopens) as [this0 [-> [Hr0 Hd0]]].
  rewrite (importData_opened w this0 Hr0).
  destruct (import_steps_prefix w this0 d index Hr0 Hd0 Hput Hindex)
    as [errs [this4 [d4 [-> [Hd4 [Hitems [Hix Hr4]]]]]]].
  unfold loadItems. rewrite Hix.
  replace (0 <? List.length index)%nat with true
    by (symmetry; apply Nat.ltb_lt; lia).
  pose proof (item_batches_imports w index p e r He Hr Hacc
                (List.length index) 0 (mkTally 0 0 []) this4 d4
                ltac:(lia) ltac:(lia) Hd4) as Hloop.
  change (5 * 0) with 0 in Hloop.
  destruct Hloop as [acc' [this' [c [Hrun [Hst Hrec]]]]].
  rewrite Hrun. cbn [fst snd].
  destruct Hst as [d0 [Hd40 [Hd' [Hr' _]]]].
  exists (set_items c d0). split; [congruence|]. split; [exact Hd'|].
  split; [exact Hkey | exact Hrec].
Qed.

(** X25.  The page reads what the import stored: for an entry that loaded
    in a completed run and whose batch the store accepted,
    [loadItemDataFromIndexedDB] on the entry's id returns the data of the
    item's file (its 'data' property, or the whole payload when it has
    none), whatever the network does when the page asks, and without
    changing the manager. *)
Theorem loadItemData_reads_the_imported_item
    (w later : World) (this : DBManager) (d : Database) (index : list value)
    (p : nat) (e r : value) :
  opens w this d ->
  idb_put_error w AppInfo (VStr "appInfo") = None ->
  index_is w index ->
  nth_error index p = Some e ->
  loadItem w e = Some r ->
  Forall (accepted w) (loaded w (batch_of index p)) ->
  exists response payload,
    fst (fetchWithRetry (net w (item_url (prop e "id"))) 2) =
      Resolved (Some response) /\
    body response = Json payload /\
    App.loadItemDataFromIndexedDB later (prop e "id")
      (Some (snd (importData w this))) =
    (match prop payload "data" with
     | VUndef => payload
     | data => data
     end, Some (snd (importData w this))).
Proof.
  intros Hopens Hput Hindex He Hr Hacc.
  destruct (importData_stores_entry w this d index p e r
              Hopens Hput Hindex He Hr Hacc)
    as [d' [Hready [Hdb [Hkey [e' [Hl Hid]]]]]].
  destruct (loadItem_record w e' _ Hl)
    as [_ [Hdata [response [payload [Hf [Hb Hdef]]]]]].
  rewrite Hid in Hf.
  exists response, payload. split; [exact Hf|]. split; [exact Hb|].
  unfold App.loadItemDataFromIndexedDB. rewrite Hready.
  unfold getResult. rewrite Hready, Hdb, Hkey. cbn [negb].
  rewrite (loadItem_truthy w e' _ Hl). rewrite <- Hdef.
  destruct (prop (coll_get (prop e "id") (items d')) "data");
    try reflexivity. congruence.
Qed.

Lemma loadItemData_reads_the_imported_item_witness :
  exists response payload,
    fst (fetchWithRetry (net scenario (item_url (VStr "a"))) 2) =
      Resolved (Some response) /\
    body response = Json payload /\
    App.loadItemDataFromIndexedDB world_500 (VStr "a")
      (Some (snd (importData scenario new_DBManager))) =
    (match prop payload "data" with
     | VUndef => payload
     | data => data
     end, Some (snd (importData scenario new_DBManager))).
Proof.
  refine (loadItemData_reads_the_imported_item
            scenario world_500 new_DBManager empty_db scenario_index 0
            (VObj [("id", VStr "a"); ("workflowId", VStr "w1")])
            (VObj [ ("uniqueId", VStr "a"); ("workflowId", VStr "w1");
                    ("itemName", VUndef);
                    ("timestamp", VStr "2024-01-01T00:00:00.000Z");
                    ("data", VObj [("v", VNum 1)]); ("settings", VObj []);
                    ("name", VUndef); ("type", VUndef) ])
            _ _ _ _ _ _).
  - right. split; reflexivity.
  - reflexivity.
  - eexists. split; reflexivity.
  - reflexivity.
  - reflexivity.
  - repeat constructor.
Defined.

(** X26.  The two routes to an item's data treat its file differently.  For
    a file the import would accept, asked for by the page because the store
    has no record of the item, the page returns the file's 'data' property
    when it is truthy and [null] otherwise, while the import stores any
    'data' that is not [undefined], and the whole payload when there is
    none: the two agree exactly when 'data' is truthy or [null]. *)
Theorem file_route_keeps_only_truthy_data
    (w : World) (e : value) (manager : DBManager) (d : Database)
    (response : Response) (payload : value) :
  truthy (prop e "id") = true ->
  net w (item_url (prop e "id")) 0 = Answer response ->
  net w (App.item_file (prop e "id")) 0 = Answer response ->
  ok response = true ->
  body response = Json payload ->
  is_object payload = true ->
  ready manager = true ->
  db manager = Some d ->
  valid_key (prop e "id") = true ->
  coll_get (prop e "id") (items d) = VUndef ->
  exists r,
    loadItem w e = Some r /\
    fst (App.loadItemDataFromIndexedDB w (prop e "id") (Some manager)) =
      js_or (prop payload "data") VNull /\
    (prop r "data" = js_or (prop payload "data") VNull <->
     truthy (prop payload "data") = true \/ prop payload "data" = VNull).
Proof.
  intros Hid Himport Hpage Hok Hbody Hobj Hready Hdb Hkey Hmiss.
  assert (He : truthy e = true).
  { destruct e; try reflexivity; cbn in Hid; discriminate. }
  assert (Hnn : nullish payload = false).
  { destruct payload; try reflexivity; cbn in Hobj; discriminate. }
  apply andb_prop in Hobj. destruct Hobj as [Htr Hty].
  eexists. split; [|split].
  - unfold loadItem. rewrite He, Hid. cbn [negb orb].
    unfold fetchWithRetry. cbn [fetch_loop]. rewrite Himport, Hok.
    cbn [fst]. rewrite Hok. cbn [negb]. rewrite Hbody, Htr, Hty.
    cbn [negb orb]. reflexivity.
  - unfold App.loadItemDataFromIndexedDB. rewrite Hready.
    unfold getResult. rewrite Hready, Hdb, Hkey, Hmiss. cbn [negb truthy fst].
    unfold App.file_fallback. rewrite Hpage, Hok.
    unfold App.json. rewrite Hbody. unfold get_prop. rewrite Hnn.
    reflexivity.
  - cbn [prop assoc String.eqb Ascii.eqb Bool.eqb].
    destruct (prop payload "data") as [| |b|z|s|l|ps] eqn:Hd;
      unfold js_or; cbn [truthy].
    + split.
      * intros H. rewrite H in Htr. discriminate.
      * intros [H|H]; discriminate.
    + split; [right; reflexivity | reflexivity].
    + destruct b; split; auto; try discriminate.
      intros [H|H]; discriminate.
    + destruct (z =? 0)%Z; cbn [negb]; split; auto; try discriminate.
      intros [H|H]; discriminate.
    + destruct (s =? ""); cbn [negb]; split; auto; try discriminate.
      intros [H|H]; discriminate.
    + split; auto.
    + split; auto.
Qed.

Lemma file_route_keeps_only_truthy_data_witness :
  exists r,
    loadItem App.flat_items_world (VObj [("id", VStr "a")]) = Some r /\
    fst (App.loadItemDataFromIndexedDB App.flat_items_world (VStr "a")
           (Some fresh_manager)) =
      js_or (prop (VObj [("v", VNum 1)]) "data") VNull /\
    (prop r "data" = js_or (prop (VObj [("v", VNum 1)]) "data") VNull <->
     truthy (prop (VObj [("v", VNum 1)]) "data") = true \/
     prop (VObj [("v", VNum 1)]) "data" = VNull).
Proof.
  refine (file_route_keeps_only_truthy_data App.flat_items_world
            (VObj [("id", VStr "a")]) fresh_manager empty_db
            (mkResponse 200 (Json (VObj [("v", VNum 1)])))
            (VObj [("v", VNum 1)]) _ _ _ _ _ _ _ _ _ _); reflexivity.
Defined.



(** ** The data explorer *)

Lemma segment_eqb_eq (a b : Explorer.segment) :
  Explorer.segment_eqb a b = true <-> a = b.
Proof.
  destruct a as [i|k], b as [j|l]; cbn [Explorer.segment_eqb];
    try (split; [discriminate | intros H; inversion H]).
  - rewrite Nat.eqb_eq. split; [intros ->; reflexivity | intros H].
    inversion H. reflexivity.
  - rewrite String.eqb_eq. split; [intros ->; reflexivity | intros H].
    inversion H. reflexivity.
Qed.

Lemma path_eqb_eq (p q : list Explorer.segment) :
  Explorer.path_eqb p q = true <-> p = q.
Proof.
  revert q. induction p as [|a p IH]; intros [|b q]; cbn [Explorer.path_eqb];
    try (split; [discriminate | intros H; inversion H]).
  - split; reflexivity.
  - rewrite Bool.andb_true_iff, segment_eqb_eq, IH.
    split; [intros [-> ->]; reflexivity | intros H].
    inversion H. auto.
Qed.

Lemma explorers_get_set (k k' : string) (s : Explorer.ExplorerState)
    (m : Explorer.Explorers) :
  Explorer.explorers_get k' (Explorer.explorers_set k s m) =
  if k =? k' then Some s else Explorer.explorers_get k' m.
Proof.
  induction m as [|[k0 s0] m IH];
    cbn [Explorer.explorers_set Explorer.explorers_get].
  - reflexivity.
  - destruct (k0 =? k) eqn:E0; cbn [Explorer.explorers_get].
    + apply String.eqb_eq in E0. subst k0. destruct (k =? k'); reflexivity.
    + rewrite IH. destruct (k0 =? k') eqn:E1; [|reflexivity].
      apply String.eqb_eq in E1. subst k0. rewrite String.eqb_sym, E0.
      reflexivity.
Qed.

Lemma getDataAtPath_null (q : list Explorer.segment) :
  Explorer.getDataAtPath VNull q = Some VNull.
Proof. destruct q; reflexivity. Qed.

(** X28.  Paths compose: what [getDataAtPath] finds along a path followed by
    another is what it finds along the second from what it found along the
    first.  In particular the view one step below a view is a member of that
    view. *)
Theorem getDataAtPath_composes
    (data : value) (p q : list Explorer.segment) :
  Explorer.getDataAtPath data (p ++ q) =
  match Explorer.getDataAtPath data p with
  | Some found => Explorer.getDataAtPath found q
  | None => None
  end.
Proof.
  revert data. induction p as [|s p IH]; intros data.
  - reflexivity.
  - cbn [app Explorer.getDataAtPath].
    destruct (truthy data && (isArray data || typeof_object data)).
    + destruct (Explorer.member data s) as [next|]; [apply IH | reflexivity].
    + rewrite getDataAtPath_null. reflexivity.
Qed.

Lemma NoDup_snoc {A : Type} (l : list A) (x : A) :
  NoDup l -> ~ In x l -> NoDup (l ++ [x]).
Proof.
  induction l as [|a l IH]; intros Hnd Hx; cbn [app].
  - constructor; [intros [] | constructor].
  - inversion Hnd as [|? ? Ha Hl]. subst. constructor.
    + intros Hin. apply in_app_or in Hin. destruct Hin as [Hin | [-> | []]].
      * contradiction.
      * apply Hx. left. reflexivity.
    + apply IH; [exact Hl|]. intros Hin. apply Hx. right. exact Hin.
Qed.

(** The state a navigation writes is coherent when the one it read was. *)
Lemma moved_coherent (s : Explorer.ExplorerState)
    (newPath : list Explorer.segment) (targetData : value) :
  Explorer.coherent s ->
  Explorer.getDataAtPath (Explorer.rootData s) newPath = Some targetData ->
  Explorer.coherent
    (Explorer.mkExplorerState (Explorer.id s) (Explorer.rootData s)
       newPath targetData (Explorer.title s) (Explorer.sourceItemId s)
       (if existsb (fun h => Explorer.path_eqb (fst h) newPath)
                   (Explorer.history s)
        then Explorer.history s
        else (Explorer.history s ++ [(newPath, targetData)])%list)).
Proof.
  intros [Hcur [Hhist [Hnd Hin]]] Htarget. unfold Explorer.coherent.
  cbn [Explorer.rootData Explorer.currentPath Explorer.currentData
       Explorer.history].
  split; [exact Htarget|].
  destruct (existsb (fun h => Explorer.path_eqb (fst h) newPath)
                    (Explorer.history s)) eqn:Hex.
  - split; [exact Hhist|]. split; [exact Hnd|].
    apply existsb_exists in Hex. destruct Hex as [h [Hh Heq]].
    apply path_eqb_eq in Heq. subst newPath. apply in_map. exact Hh.
  - split; [|split].
    + apply Forall_app. split; [exact Hhist|].
      constructor; [exact Htarget | constructor].
    + rewrite map_app. cbn [map fst]. apply NoDup_snoc; [exact Hnd|].
      intros Hn. apply in_map_iff in Hn. destruct Hn as [h [Hfst Hh]].
      assert (Hfalse : Explorer.path_eqb (fst h) newPath = false).
      { destruct (Explorer.path_eqb (fst h) newPath) eqn:E; [|reflexivity].
        assert (Htrue : existsb (fun h => Explorer.path_eqb (fst h) newPath)
                                (Explorer.history s) = true).
        { apply existsb_exists. exists h. auto. }
        congruence. }
      rewrite (proj2 (path_eqb_eq (fst h) newPath) Hfst) in Hfalse.
      discriminate.
    + rewrite map_app. apply in_or_app. right. left. reflexivity.
Qed.

Lemma navigateToPath_coherent (explorerId : string)
    (newPath : list Explorer.segment) (m m' : Explorer.Explorers)
    (s : Explorer.ExplorerState) :
  Explorer.explorers_get explorerId m = Some s ->
  Explorer.coherent s ->
  Explorer.navigateToPath explorerId newPath m = Some m' ->
  exists s',
    Explorer.explorers_get explorerId m' = Some s' /\
    Explorer.coherent s' /\
    Explorer.rootData s' = Explorer.rootData s /\
    forall other, other <> explorerId ->
      Explorer.explorers_get other m' = Explorer.explorers_get other m.
Proof.
  intros Hget Hco. unfold Explorer.navigateToPath. rewrite Hget.
  destruct (Explorer.getDataAtPath (Explorer.rootData s) newPath)
    as [targetData|] eqn:Htarget; [|discriminate].
  pose proof (moved_coherent s newPath targetData Hco Htarget) as Hmoved.
  assert (Hother : forall s1 other, other <> explorerId ->
            Explorer.explorers_get other
              (Explorer.explorers_set explorerId s1 m) =
            Explorer.explorers_get other m).
  { intros s1 other Hne. rewrite explorers_get_set.
    destruct (explorerId =? other) eqn:E; [|reflexivity].
    apply String.eqb_eq in E. congruence. }
  destruct targetData; intros H; inversion H; subst m';
    try (eexists; split; [rewrite explorers_get_set, String.eqb_refl;
                          reflexivity|];
         split; [exact Hmoved|]; split; [reflexivity | apply Hother]).
  exists s. auto.
Qed.

Lemma visits_coherent (explorerId : string)
    (paths : list (list Explorer.segment)) :
  forall (m m' : Explorer.Explorers) (s : Explorer.ExplorerState),
  Explorer.explorers_get explorerId m = Some s ->
  Explorer.coherent s ->
  Explorer.visits explorerId paths m = Some m' ->
  exists s',
    Explorer.explorers_get explorerId m' = Some s' /\
    Explorer.coherent s' /\
    Explorer.rootData s' = Explorer.rootData s /\
    forall other, other <> explorerId ->
      Explorer.explorers_get other m' = Explorer.explorers_get other m.
Proof.
  induction paths as [|newPath paths IH]; intros m m' s Hget Hco;
    cbn [Explorer.visits].
  - intros H. inversion H. subst m'. exists s. auto.
  - destruct (Explorer.navigateToPath explorerId newPath m) as [m1|] eqn:Hnav;
      [|discriminate].
    destruct (navigateToPath_coherent explorerId newPath m m1 s Hget Hco Hnav)
      as [s1 [Hget1 [Hco1 [Hroot1 Hother1]]]].
    intros Hrest.
    destruct (IH m1 m' s1 Hget1 Hco1 Hrest)
      as [s' [Hget' [Hco' [Hroot' Hother']]]].
    exists s'. split; [exact Hget'|]. split; [exact Hco'|].
    split; [congruence|].
    intros other Hne. rewrite (Hother' other Hne). apply Hother1, Hne.
Qed.

(** X29.  However the user moves about in an explorer after opening it, its
    view agrees with its data: the root data is the data it was opened on,
    the current data is what the current path leads to from the root, the
    history records each visited path once with the data found there, and
    the other explorers are left as they were. *)
Theorem explorer_view_follows_its_path
    (explorerId : string) (data : value) (title : string)
    (sourceItemId : value) (activeExplorers m' : Explorer.Explorers)
    (paths : list (list Explorer.segment)) :
  Explorer.visits explorerId paths
    (Explorer.openDataExplorer explorerId data title sourceItemId
       activeExplorers) = Some m' ->
  exists s,
    Explorer.explorers_get explorerId m' = Some s /\
    Explorer.rootData s = data /\
    Explorer.coherent s /\
    forall other, other <> explorerId ->
      Explorer.explorers_get other m' =
      Explorer.explorers_get other activeExplorers.
Proof.
  intros Hrun. unfold Explorer.openDataExplorer in Hrun.
  assert (Hget0 :
    Explorer.explorers_get explorerId
      (Explorer.explorers_set explorerId
         (Explorer.mkExplorerState explorerId data [] data title
            sourceItemId [([], data)]) activeExplorers) =
    Some (Explorer.mkExplorerState explorerId data [] data title
            sourceItemId [([], data)])).
  { rewrite explorers_get_set, String.eqb_refl. reflexivity. }
  assert (Hco0 :
    Explorer.coherent
      (Explorer.mkExplorerState explorerId data [] data title
         sourceItemId [([], data)])).
  { unfold Explorer.coherent. cbn. split; [reflexivity|].
    split; [constructor; [reflexivity | constructor]|].
    split; [constructor; [intros [] | constructor] | left; reflexivity]. }
  destruct (visits_coherent explorerId paths _ m' _ Hget0 Hco0 Hrun)
    as [s [Hget [Hco [Hroot Hother]]]].
  - exists s. split; [exact Hget|]. split; [exact Hroot|].
    split; [exact Hco|].
    intros other Hne. rewrite (Hother other Hne), explorers_get_set.
    destruct (explorerId =? other) eqn:E; [|reflexivity].
    apply String.eqb_eq in E. congruence.
Qed.

Lemma explorer_view_follows_its_path_witness :
  exists s,
    Explorer.explorers_get "explorer_1"
      (Explorer.explorers_set "explorer_1"
         (Explorer.mkExplorerState "explorer_1" Explorer.sample_result
            [Explorer.Key "series"]
            (VArr [ VObj [("t", VNum 0); ("q", VNum 12)];
                    VObj [("t", VNum 1); ("q", VNum 15)] ])
            "Data Explorer" VNull
            [ ([], Explorer.sample_result);
              ([Explorer.Key "series"],
               VArr [ VObj [("t", VNum 0); ("q", VNum 12)];
                      VObj [("t", VNum 1); ("q", VNum 15)] ]);
              ([Explorer.Key "series"; Explorer.Idx 1],
               VObj [("t", VNum 1); ("q", VNum 15)]) ])
         []) = Some s /\
    Explorer.rootData s = Explorer.sample_result /\
    Explorer.coherent s /\
    forall other, other <> "explorer_1" ->
      Explorer.explorers_get other
        (Explorer.explorers_set "explorer_1"
           (Explorer.mkExplorerState "explorer_1" Explorer.sample_result
              [Explorer.Key "series"]
              (VArr [ VObj [("t", VNum 0); ("q", VNum 12)];
                      VObj [("t", VNum 1); ("q", VNum 15)] ])
              "Data Explorer" VNull
              [ ([], Explorer.sample_result);
                ([Explorer.Key "series"],
                 VArr [ VObj [("t", VNum 0); ("q", VNum 12)];
                        VObj [("t", VNum 1); ("q", VNum 15)] ]);
                ([Explorer.Key "series"; Explorer.Idx 1],
                 VObj [("t", VNum 1); ("q", VNum 15)]) ])
           []) =
      Explorer.explorers_get other [].
Proof.
  refine (explorer_view_follows_its_path "explorer_1" Explorer.sample_result
            "Data Explorer" VNull [] _
            [ [Explorer.Key "series"];
              [Explorer.Key "series"; Explorer.Idx 1];
              [Explorer.Key "series"; Explorer.Idx 7];
              [Explorer.Key "series"] ] _).
  reflexivity.
Defined.

(** ** The items of a workflow after an import *)

Lemma coll_put_In (k r : value) (c : Collection) (x : value * value) :
  In x (coll_put k r c) -> x = (k, r) \/ In x c.
Proof.
  induction c as [|[k0 r0] c IH]; cbn [coll_put].
  - intros [<- | []]. left. reflexivity.
  - destruct (value_eqb k0 k).
    + intros [<- | Hin]; [left; reflexivity | right; right; exact Hin].
    + intros [<- | Hin]; [right; left; reflexivity|].
      destruct (IH Hin) as [-> | Hc]; [left; reflexivity | right; right; exact Hc].
Qed.

Lemma commit_In (puts : list (value * value)) :
  forall (c : Collection) (x : value * value),
  In x (commit puts c) -> In x puts \/ In x c.
Proof.
  unfold commit. induction puts as [|[k r] puts IH]; intros c x;
    cbn [fold_left fst snd].
  - auto.
  - intros Hin. destruct (IH _ _ Hin) as [Hp | Hc]; [left; right; exact Hp|].
    destruct (coll_put_In k r c x Hc) as [-> | Hc'];
      [left; left; reflexivity | right; exact Hc'].
Qed.

Lemma loadItem_workflowId (w : World) (e r : value) :
  loadItem w e = Some r -> prop r "workflowId" = prop e "workflowId".
Proof.
  unfold loadItem.
  destruct (negb (truthy e) || negb (truthy (prop e "id"))); [discriminate|].
  destruct (fst (fetchWithRetry (net w (item_url (prop e "id"))) 2))
    as [[response|]|err]; try discriminate.
  destruct (negb (ok response)); [discriminate|].
  destruct (body response) as [err| |err|payload]; try discriminate.
  destruct (negb (truthy payload) || negb (typeof_object payload));
    [discriminate|].
  intros H. inversion H. reflexivity.
Qed.

(** The 'items' store after a completed run whose clearing step succeeded:
    every record in it was built by the run for an entry of its index. *)
Lemma completed_run_items
    (w : World) (this this' : DBManager) (errors : list string)
    (processed failedCount : nat) :
  consistent this ->
  idb_clear_error w = None ->
  importData w this = (Completed errors processed failedCount, this') ->
  exists index d',
    itemIndex this' = VArr index /\
    ready this' = true /\
    db this' = Some d' /\
    forall x, In x (items d') -> In (snd x) (loaded w index).
Proof.
  intros Hcons Hclear Hrun.
  destruct (completed_run_opens w this this' _ Hcons Hrun eq_refl)
    as [d [Hopens Hput]].
  destruct (importData_opens w this d Hopens) as [this0 [Heq [Hr Hd]]].
  rewrite Heq, (importData_opened w this0 Hr) in Hrun.
  destruct (import_steps_until_items w this0 d Hr Hd Hput)
    as [e1 [e2 [e3 [e4 [l [this4 [d4 [_ [Hsteps [Hd4 [Hitems [Hix Hr4]]]]]]]]]]]].
  rewrite Hsteps in Hrun. unfold loadItems in Hrun. rewrite Hix in Hrun.
  unfold after_clear in Hitems. rewrite Hclear in Hitems. cbn in Hitems.
  exists l.
  destruct (0 <? List.length l)%nat.
  - destruct (item_batches_frame w l (List.length l) (List.length l) 0
                (mkTally 0 0 []) this4 d4 Hd4)
      as [acc' [this9 [puts [Hloop [Hst Hfrom]]]]].
    rewrite Hloop in Hrun. inversion Hrun. subst this9.
    destruct Hst as [d0 [Hd0 [Hd' [Hready Hi]]]].
    exists (set_items (commit puts (items d4)) d0).
    split; [congruence|]. split; [congruence|]. split; [exact Hd'|].
    cbn [items set_items]. rewrite Hitems. intros x Hx.
    destruct (commit_In puts [] x Hx) as [Hp | []].
    rewrite Forall_forall in Hfrom. apply (Hfrom x Hp).
  - inversion Hrun. subst this4. exists d4.
    split; [exact Hix|]. split; [exact Hr4|]. split; [exact Hd4|].
    rewrite Hitems. intros x [].
Qed.

(** X30.  After a completed run whose clearing step succeeded,
    [getWorkflowItems] on a workflow id resolves to records that the run
    built for entries of its index that name this workflow: it lists no item
    of another workflow and none that the index does not have. *)
Theorem getWorkflowItems_lists_the_indexed_items_of_the_workflow
    (w : World) (this this' : DBManager) (errors : list string)
    (processed failedCount : nat) (workflowId : value) :
  consistent this ->
  idb_clear_error w = None ->
  importData w this = (Completed errors processed failedCount, this') ->
  valid_key workflowId = true ->
  exists index records,
    itemIndex this' = VArr index /\
    getWorkflowItems workflowId this' = (Resolved records, this') /\
    forall r, In r records ->
      exists e,
        In e index /\ loadItem w e = Some r /\
        prop e "workflowId" = workflowId.
Proof.
  intros Hcons Hclear Hrun Hkey.
  destruct (completed_run_items w this this' errors processed failedCount
              Hcons Hclear Hrun)
    as [index [d' [Hix [Hready [Hdb Hitems]]]]].
  exists index. eexists. split; [exact Hix|]. split.
  - unfold getWorkflowItems. rewrite Hready, Hdb, Hkey. cbn [negb].
    reflexivity.
  - intros r Hr. apply filter_In in Hr. destruct Hr as [Hin Hwf].
    apply in_map_iff in Hin. destruct Hin as [x [<- Hx]].
    pose proof (Hitems x Hx) as Hl. unfold loaded in Hl.
    apply map_filter_In in Hl. destruct Hl as [e [He Hload]].
    exists e. split; [exact He|]. split; [exact Hload|].
    apply value_eqb_eq in Hwf.
    rewrite <- (loadItem_workflowId w e _ Hload). exact Hwf.
Qed.

Lemma getWorkflowItems_lists_the_indexed_items_of_the_workflow_witness :
  exists index records,
    itemIndex (snd (importData scenario new_DBManager)) = VArr index /\
    getWorkflowItems (VStr "w1") (snd (importData scenario new_DBManager)) =
      (Resolved records, snd (importData scenario new_DBManager)) /\
    forall r, In r records ->
      exists e,
        In e index /\ loadItem scenario e = Some r /\
        prop e "workflowId" = VStr "w1".
Proof.
  exact (getWorkflowItems_lists_the_indexed_items_of_the_workflow
           scenario new_DBManager _ _ 1 1 (VStr "w1")
           ltac:(intros H; discriminate H) eq_refl eq_refl eq_refl).
Defined.
